(** * The NASM standard scanner (asm/stdscan.c)

    A shallow embedding of [stdscan.c]: the scanner state, the temporary
    string storage, the pushback stack and the token classifier, as a state
    and fault monad over an explicit machine state, followed by the
    properties the scanner's description states about them.

    Conventions.
    - A [char] is an [ascii]; the line buffer is the list of its bytes up to
      and including the terminating NUL.  A pointer into the line is its
      offset.  Reading a byte that is not part of the buffer is a fault
      ([None]): the run of the C program has no defined meaning there.
    - [int] values are [Z]; a pointer difference stored in an [int] goes
      through [int_of], the wrap to 32 bits.
    - Everything [stdscan.c] takes from other files of NASM ([nctype.h],
      [nasm.h], [nasmlib.h], [quote.h], the keyword hash) is a field of the
      class [Nasm]; nothing about these is assumed unless a theorem says so. *)

From Stdlib Require Import ZArith Lia Bool Ascii String List.
Import ListNotations.

Set Implicit Arguments.

(* ------------------------------------------------------------------ *)
(** ** Characters, text and pointers *)

Definition NUL : ascii := Ascii.zero.

(** The bytes of a C string, terminator excluded. *)
Definition text := list ascii.

(** A line as the caller hands it to [stdscan_reset]: its characters and
    the terminating NUL. *)
Definition line_of (s : string) : list ascii :=
  list_ascii_of_string s ++ [NUL].

(** The C string that starts a list of bytes: everything before the first
    NUL. *)
Fixpoint c_string (bytes : list ascii) : text :=
  match bytes with
  | [] => []
  | c :: rest => if Ascii.eqb c NUL then [] else c :: c_string rest
  end.

(** A [char *] held by the scanner or by a token: null, a position in the
    line buffer, or the start of an entry of [stdscan_tempstorage]. *)
Inductive charptr : Type :=
| NULL
| LinePtr (off : nat)
| TempPtr (slot : nat).

(** Conversion of a pointer difference to [int]. *)
Definition int_of (z : Z) : Z :=
  ((z + 2 ^ 31) mod 2 ^ 32 - 2 ^ 31)%Z.

(** [struct tokenval], with the fields [stdscan.c] reads and writes. *)
Record tokenval : Type := mk_tokenval {
  t_type    : Z;
  t_charptr : charptr;
  t_integer : Z;
  t_inttwo  : Z;
  t_flag    : Z;
  t_start   : charptr;
  t_len     : Z
}.

(** [nasm_zero] of a token *)
Definition zero_tokenval : tokenval :=
  mk_tokenval 0 NULL 0 0 0 NULL 0.

Definition set_type (v : Z) (tv : tokenval) : tokenval :=
  mk_tokenval v (t_charptr tv) (t_integer tv) (t_inttwo tv) (t_flag tv)
              (t_start tv) (t_len tv).
Definition set_charptr (v : charptr) (tv : tokenval) : tokenval :=
  mk_tokenval (t_type tv) v (t_integer tv) (t_inttwo tv) (t_flag tv)
              (t_start tv) (t_len tv).
Definition set_integer (v : Z) (tv : tokenval) : tokenval :=
  mk_tokenval (t_type tv) (t_charptr tv) v (t_inttwo tv) (t_flag tv)
              (t_start tv) (t_len tv).
Definition set_inttwo (v : Z) (tv : tokenval) : tokenval :=
  mk_tokenval (t_type tv) (t_charptr tv) (t_integer tv) v (t_flag tv)
              (t_start tv) (t_len tv).
Definition set_start (v : charptr) (tv : tokenval) : tokenval :=
  mk_tokenval (t_type tv) (t_charptr tv) (t_integer tv) (t_inttwo tv)
              (t_flag tv) v (t_len tv).
Definition set_len (v : Z) (tv : tokenval) : tokenval :=
  mk_tokenval (t_type tv) (t_charptr tv) (t_integer tv) (t_inttwo tv)
              (t_flag tv) (t_start tv) v.

(* ------------------------------------------------------------------ *)
(** ** What the scanner does to the outside world *)

(** Calls that leave [stdscan.c], in the order they are made. *)
Inductive event : Type :=
| Ev_nonfatal_not_valid_token (content : text)
    (* nasm_nonfatal("`{%s}' is not a valid token", ...) *)
| Ev_nonfatal_unterminated_braces
    (* nasm_nonfatal("unterminated braces at end of line") *)
| Ev_warn_ptr (name : text)
    (* nasm_warn(WARN_PTR, "`%s' is not a NASM keyword", ...) *)
| Ev_token_hash (name : text)        (* nasm_token_hash(name, tv) *)
| Ev_readnum (literal : text)        (* readnum(literal, &rn_error) *)
| Ev_unquote (str : nat).            (* nasm_unquote(line + str, &ep) *)

(* ------------------------------------------------------------------ *)
(** ** The rest of NASM, as far as [stdscan.c] uses it *)

Class Nasm : Type := {
  (* nctype.h *)
  nasm_isspace    : ascii -> bool;
  nasm_isidstart  : ascii -> bool;
  nasm_isidchar   : ascii -> bool;
  nasm_isnumstart : ascii -> bool;
  nasm_isnumchar  : ascii -> bool;
  nasm_isbrcchar  : ascii -> bool;
  (* nasm.h: limits *)
  IDLEN_MAX   : Z;
  MAX_KEYWORD : Z;
  (* nasm.h: enum token_type *)
  TOKEN_INVALID : Z;
  TOKEN_EOS     : Z;
  TOKEN_ID      : Z;
  TOKEN_NUM     : Z;
  TOKEN_ERRNUM  : Z;
  TOKEN_STR     : Z;
  TOKEN_ERRSTR  : Z;
  TOKEN_FLOAT   : Z;
  TOKEN_HERE    : Z;
  TOKEN_BASE    : Z;
  TOKEN_SHL     : Z;
  TOKEN_SHR     : Z;
  TOKEN_SAR     : Z;
  TOKEN_SDIV    : Z;
  TOKEN_SMOD    : Z;
  TOKEN_EQ      : Z;
  TOKEN_NE      : Z;
  TOKEN_LE      : Z;
  TOKEN_GE      : Z;
  TOKEN_LEG     : Z;
  TOKEN_DBL_AND : Z;
  TOKEN_DBL_XOR : Z;
  TOKEN_DBL_OR  : Z;
  TOKEN_OPMASK  : Z;
  (* nasm.h: token flags *)
  TFLAG_BRC     : Z;
  TFLAG_BRC_OPT : Z;
  TFLAG_BRC_ANY : Z;
  TFLAG_WARN    : Z;
  (* is_reg_class(OPMASKREG, reg) *)
  is_opmask_reg : Z -> bool;
  (* nasm_token_hash(name, tv): the value returned and the token it
     leaves behind tv *)
  nasm_token_hash : text -> tokenval -> Z * tokenval;
  (* readnum(literal, &rn_error): the value returned and rn_error *)
  readnum : text -> Z * bool;
  (* nasm_unquote(str, &ep), given the bytes of the line and the offset of
     str in it: the bytes of the line afterwards (str is not declared
     const), the offset stored in ep, and the value returned *)
  nasm_unquote : list ascii -> nat -> list ascii * nat * Z
}.

(* ------------------------------------------------------------------ *)
(** ** Scanner state *)

(** [enum stdscan_scan_state] *)
Inductive stdscan_scan_state : Type :=
| ss_init.                          (* Normal scanner state *)

(** [struct stdscan_state]; [struct token_stack] is the list [pushback],
    newest entry first. *)
Record stdscan_state : Type := mk_state {
  bufptr   : nat;
  pushback : list tokenval;
  sstate   : stdscan_scan_state
}.

(** The static variables of [stdscan.c] together with the memory of the
    line buffer [scan.bufptr] points into and the calls made so far.
    [stdscan_templen] is the length of [stdscan_tempstorage]. *)
Record machine : Type := mk_machine {
  scan                : stdscan_state;
  stdscan_tempstorage : list (list ascii);
  stdscan_tempsize    : Z;
  line                : list ascii;
  trace               : list event
}.

Definition stdscan_templen (m : machine) : nat :=
  length (stdscan_tempstorage m).

Definition STDSCAN_TEMP_DELTA : Z := 256.

Definition with_bufptr (p : nat) (m : machine) : machine :=
  mk_machine (mk_state p (pushback (scan m)) (sstate (scan m)))
             (stdscan_tempstorage m) (stdscan_tempsize m) (line m) (trace m).
Definition with_pushback (ps : list tokenval) (m : machine) : machine :=
  mk_machine (mk_state (bufptr (scan m)) ps (sstate (scan m)))
             (stdscan_tempstorage m) (stdscan_tempsize m) (line m) (trace m).
Definition with_tempstorage (ts : list (list ascii)) (m : machine) : machine :=
  mk_machine (scan m) ts (stdscan_tempsize m) (line m) (trace m).
Definition with_tempsize (n : Z) (m : machine) : machine :=
  mk_machine (scan m) (stdscan_tempstorage m) n (line m) (trace m).
Definition with_line (l : list ascii) (m : machine) : machine :=
  mk_machine (scan m) (stdscan_tempstorage m) (stdscan_tempsize m) l (trace m).
Definition with_trace (t : list event) (m : machine) : machine :=
  mk_machine (scan m) (stdscan_tempstorage m) (stdscan_tempsize m) (line m) t.

(** The state before the first [stdscan_reset]. *)
Definition initial_machine : machine :=
  mk_machine (mk_state 0 [] ss_init) [] 0 [] [].

(* ------------------------------------------------------------------ *)
(** ** The monad of scanner code: state, and a fault on a bad access *)

Definition M (A : Type) : Type := machine -> option (A * machine).

Definition ret {A} (a : A) : M A := fun m => Some (a, m).
Definition bind {A B} (x : M A) (k : A -> M B) : M B :=
  fun m => match x m with
           | Some (a, m') => k a m'
           | None => None
           end.
Definition fault {A} : M A := fun _ => None.

Declare Scope scan_scope.
Delimit Scope scan_scope with scan.
Notation "x <- c ;; k" := (bind c (fun x => k))
  (at level 61, c at next level, right associativity) : scan_scope.
Notation "' pat <- c ;; k" := (bind c (fun x => match x with pat => k end))
  (at level 61, pat pattern, c at next level, right associativity) : scan_scope.
Notation "c ;;; k" := (bind c (fun _ => k))
  (at level 61, right associativity) : scan_scope.
Local Open Scope scan_scope.

Definition get_bufptr : M nat := fun m => Some (bufptr (scan m), m).
Definition set_bufptr (p : nat) : M unit := fun m => Some (tt, with_bufptr p m).
(** [scan.bufptr += n] *)
Definition bump (n : nat) : M unit :=
  fun m => Some (tt, with_bufptr (bufptr (scan m) + n) m).
Definition emit (e : event) : M unit :=
  fun m => Some (tt, with_trace (trace m ++ [e]) m).

(** [scan.bufptr[off]] *)
Definition peek (off : nat) : M ascii :=
  fun m => match nth_error (line m) (bufptr (scan m) + off) with
           | Some c => Some (c, m)
           | None => None
           end.

(** The bytes [p[0 .. len-1]] of the line. *)
Definition read_bytes (p len : nat) : M (list ascii) :=
  fun m => if Nat.leb (p + len) (length (line m))
           then Some (firstn len (skipn p (line m)), m)
           else None.

(** The C string a pointer designates. *)
Definition deref (ptr : charptr) : M text :=
  fun m => match ptr with
           | NULL => None
           | LinePtr p =>
               if Nat.ltb p (length (line m))
               then Some (c_string (skipn p (line m)), m) else None
           | TempPtr i =>
               match nth_error (stdscan_tempstorage m) i with
               | Some blk => Some (c_string blk, m)
               | None => None
               end
           end.

(* ------------------------------------------------------------------ *)
(** ** The scanner *)

Section Scanner.

Context {E : Nasm}.

(** The loop [while (f( *scan.bufptr )) scan.bufptr++], run on the bytes
    from the cursor on; [p] is the offset of the first of them.  It
    faults when it walks off the buffer. *)
Fixpoint run_while (f : ascii -> bool) (rest : list ascii) (p : nat)
  : option nat :=
  match rest with
  | [] => None
  | c :: rest' => if f c then run_while f rest' (S p) else Some p
  end.

Definition advance_while (f : ascii -> bool) : M unit :=
  fun m => match run_while f (skipn (bufptr (scan m)) (line m))
                           (bufptr (scan m)) with
           | Some q => Some (tt, with_bufptr q m)
           | None => None
           end.

(** Modelled from the spec: [nasm_skip_spaces] belongs to nasmlib, which is
    another file.  It skips whitespace, and as a reader of a C string it
    stops at the terminating NUL whatever [nasm_isspace] says of it. *)
Definition nasm_skip_spaces (p : nat) : M nat :=
  fun m => match run_while (fun c => negb (Ascii.eqb c NUL) && nasm_isspace c)
                           (skipn p (line m)) p with
           | Some q => Some (q, m)
           | None => None
           end.

(** [stdscan_tell] *)
Definition stdscan_tell : M nat := get_bufptr.

(** [stdscan_pop]: frees the newest entry of the temporary storage. *)
Definition stdscan_pop : M unit :=
  fun m => match stdscan_tempstorage m with
           | [] => None
           | _ :: _ =>
               Some (tt, with_tempstorage
                           (removelast (stdscan_tempstorage m)) m)
           end.

(** [stdscan_pushback_pop] *)
Definition stdscan_pushback_pop : M unit :=
  fun m => match pushback (scan m) with
           | [] => None
           | _ :: ps => Some (tt, with_pushback ps m)
           end.

(** The two loops of [stdscan_reset]; each runs once per entry. *)
Fixpoint pop_times (n : nat) (pop : M unit) : M unit :=
  match n with
  | O => ret tt
  | S n' => pop ;;; pop_times n' pop
  end.

(** [stdscan_reset(buffer)]: the scanner now reads [buffer]. *)
Definition stdscan_reset (buffer : list ascii) : M unit :=
  (fun m => pop_times (stdscan_templen m) stdscan_pop m) ;;;
  (fun m => pop_times (length (pushback (scan m))) stdscan_pushback_pop m) ;;;
  (fun m => Some (tt, mk_machine (mk_state 0 (pushback (scan m)) ss_init)
                                 (stdscan_tempstorage m) (stdscan_tempsize m)
                                 buffer (trace m))).

(** [stdscan_alloc(bytes)]: a new entry of [bytes] bytes at the end of the
    temporary storage.  A negative size is no size. *)
Definition stdscan_alloc (bytes : Z) : M charptr :=
  fun m =>
    if (bytes <? 0)%Z then None
    else
      let m1 :=
        if (Z.of_nat (stdscan_templen m) >=? stdscan_tempsize m)%Z
        then with_tempsize (stdscan_tempsize m + STDSCAN_TEMP_DELTA)%Z m
        else m in
      Some (TempPtr (stdscan_templen m),
            with_tempstorage
              (stdscan_tempstorage m ++ [repeat NUL (Z.to_nat bytes)]) m1).

(** Writing [data] at the start of an entry of the temporary storage. *)
Definition write_temp (ptr : charptr) (data : list ascii) : M unit :=
  fun m =>
    match ptr with
    | TempPtr i =>
        match nth_error (stdscan_tempstorage m) i with
        | Some blk =>
            if Nat.leb (length data) (length blk)
            then Some (tt, with_tempstorage
                             (firstn i (stdscan_tempstorage m)
                              ++ (data ++ skipn (length data) blk)
                              :: skipn (S i) (stdscan_tempstorage m)) m)
            else None
        | None => None
        end
    | _ => None
    end.

(** [stdscan_copy(p, len)], [p] a pointer into the line. *)
Definition stdscan_copy (p : nat) (len : Z) : M charptr :=
  txt <- stdscan_alloc (len + 1) ;;
  if (len <? 0)%Z then fault
  else
    src <- read_bytes p (Z.to_nat len) ;;
    write_temp txt (src ++ [NUL]) ;;;
    ret txt.

(** [stdscan_pushback(tv)] *)
Definition stdscan_pushback (tv : tokenval) : M unit :=
  fun m => Some (tt, with_pushback (tv :: pushback (scan m)) m).

(** [return tv->t_type = ty] *)
Definition yield (ty : Z) (tv : tokenval) : M (Z * tokenval) :=
  ret (ty, set_type ty tv).

(** [stdscan_handle_brace(tv)] *)
Definition stdscan_handle_brace (tv : tokenval) : M (Z * tokenval) :=
  if (Z.land (t_flag tv) TFLAG_BRC_ANY =? 0)%Z then
    (* invalid token is put inside braces *)
    name <- deref (t_charptr tv) ;;
    emit (Ev_nonfatal_not_valid_token name) ;;;
    yield TOKEN_INVALID tv
  else if negb (Z.land (t_flag tv) TFLAG_BRC_OPT =? 0)%Z then
    if is_opmask_reg (t_integer tv) then
      (* within braces, opmask register is now used as a mask *)
      yield TOKEN_OPMASK tv
    else ret (t_type tv, tv)
  else ret (t_type tv, tv).

(** What [printf("%.*s", len, s)] prints of the C string [s]. *)
Definition precision (len : Z) (s : text) : text :=
  if (len <? 0)%Z then s else firstn (Z.to_nat len) s.

(** [stdscan_parse_braces(tv)] *)
Definition stdscan_parse_braces (tv : tokenval) : M (Z * tokenval) :=
  bump 1 ;;;
  p0 <- get_bufptr ;;
  r <- nasm_skip_spaces p0 ;;
  set_bufptr r ;;;
  (* read the entire buffer to advance the buffer pointer *)
  advance_while nasm_isbrcchar ;;;
  p1 <- get_bufptr ;;
  let token_len := int_of (Z.of_nat p1 - Z.of_nat r) in
  tv <- (if (token_len <=? MAX_KEYWORD)%Z
         then txt <- stdscan_copy r token_len ;; ret (set_charptr txt tv)
         else ret tv) ;;
  p2 <- nasm_skip_spaces p1 ;;
  set_bufptr p2 ;;;
  (* if brace is not closed properly or token is too long *)
  c <- peek 0 ;;
  if negb (Ascii.eqb c "}") then
    emit Ev_nonfatal_unterminated_braces ;;;
    yield TOKEN_INVALID tv
  else
    bump 1 ;;;                              (* skip closing brace *)
    if (token_len >? MAX_KEYWORD)%Z then
      content <- deref (LinePtr r) ;;
      emit (Ev_nonfatal_not_valid_token (precision token_len content)) ;;;
      yield TOKEN_INVALID tv
    else
      (* handle tokens inside braces *)
      name <- deref (t_charptr tv) ;;
      emit (Ev_token_hash name) ;;;
      stdscan_handle_brace (snd (nasm_token_hash name tv)).

(** The identifier branch of [stdscan_token]. *)
Definition stdscan_token_id (tv : tokenval) : M (Z * tokenval) :=
  c <- peek 0 ;;
  is_sym <- (if Ascii.eqb c "$" then bump 1 ;;; ret true else ret false) ;;
  r <- get_bufptr ;;
  bump 1 ;;;
  (* read the entire buffer to advance the buffer pointer but... *)
  advance_while nasm_isidchar ;;;
  p <- get_bufptr ;;
  let n := (Z.of_nat p - Z.of_nat r)%Z in
  (* ... copy only up to IDLEN_MAX-1 characters *)
  txt <- stdscan_copy r (int_of (if (n <? IDLEN_MAX)%Z then n
                                 else IDLEN_MAX - 1)%Z) ;;
  let tv := set_charptr txt tv in
  if is_sym || (n >? MAX_KEYWORD)%Z then
    yield TOKEN_ID tv                       (* bypass all other checks *)
  else
    name <- deref (t_charptr tv) ;;
    emit (Ev_token_hash name) ;;;
    let (token_type, tv) := nasm_token_hash name tv in
    (if negb (Z.land (t_flag tv) TFLAG_WARN =? 0)%Z
     then name' <- deref (t_charptr tv) ;; emit (Ev_warn_ptr name')
     else ret tt) ;;;
    if (Z.land (t_flag tv) TFLAG_BRC =? 0)%Z then
      (* most of the tokens fall into this case *)
      ret (token_type, tv)
    else yield TOKEN_ID tv.

Definition is_sign (c : ascii) : bool :=
  Ascii.eqb c "+" || Ascii.eqb c "-".

(** The [for (;;)] loop of the number branch, run on the bytes from the
    cursor on.  The result is the cursor after the [break] (one past the
    byte that ended the number) and [is_hex], [is_float], [has_e]. *)
Fixpoint number_loop (rest : list ascii) (p : nat)
                     (is_hex is_float has_e : bool)
  : option (nat * bool * bool * bool) :=
  match rest with
  | [] => None
  | c :: rest' =>
      if negb is_hex && (Ascii.eqb c "e" || Ascii.eqb c "E") then
        match rest' with
        | [] => None
        | d :: rest'' =>
            if is_sign d
            then number_loop rest'' (S (S p)) is_hex true true
            else number_loop rest' (S p) is_hex is_float true
        end
      else if Ascii.eqb c "H" || Ascii.eqb c "h"
              || Ascii.eqb c "X" || Ascii.eqb c "x" then
        number_loop rest' (S p) true is_float has_e
      else if Ascii.eqb c "P" || Ascii.eqb c "p" then
        match rest' with
        | [] => None
        | d :: rest'' =>
            if is_sign d
            then number_loop rest'' (S (S p)) is_hex true has_e
            else number_loop rest' (S p) is_hex true has_e
        end
      else if nasm_isnumchar c then
        number_loop rest' (S p) is_hex is_float has_e   (* just advance *)
      else if Ascii.eqb c "." then
        number_loop rest' (S p) is_hex true has_e
      else Some (S p, is_hex, is_float, has_e)
  end.

Definition run_number_loop (is_hex : bool) : M (bool * bool * bool) :=
  fun m => match number_loop (skipn (bufptr (scan m)) (line m))
                             (bufptr (scan m)) is_hex false false with
           | Some (q, h, f, e) => Some ((h, f, e), with_bufptr q m)
           | None => None
           end.

(** The number branch of [stdscan_token]. *)
Definition stdscan_token_num (tv : tokenval) : M (Z * tokenval) :=
  r <- get_bufptr ;;
  c <- peek 0 ;;
  is_hex <- (if Ascii.eqb c "$" then bump 1 ;;; ret true else ret false) ;;
  '(is_hex, is_float, has_e) <- run_number_loop is_hex ;;
  q <- get_bufptr ;;
  set_bufptr (pred q) ;;;      (* Point to first character beyond number *)
  (* 1e13 is floating-point, but 1e13h is not *)
  let is_float := if has_e && negb is_hex then true else is_float in
  let len := int_of (Z.of_nat (pred q) - Z.of_nat r) in
  if is_float then
    txt <- stdscan_copy r len ;;
    yield TOKEN_FLOAT (set_charptr txt tv)
  else
    r' <- stdscan_copy r len ;;
    literal <- deref r' ;;
    emit (Ev_readnum literal) ;;;
    let (value, rn_error) := readnum literal in
    let tv := set_integer value tv in
    stdscan_pop ;;;
    if rn_error then
      yield TOKEN_ERRNUM tv               (* some malformation occurred *)
    else yield TOKEN_NUM (set_charptr NULL tv).

(** The call [nasm_unquote(tv->t_charptr, &scan.bufptr)]. *)
Definition call_unquote (str : nat) : M Z :=
  emit (Ev_unquote str) ;;;
  fun m => let '(mem, ep, n) := nasm_unquote (line m) str in
           Some (n, with_bufptr ep (with_line mem m)).

(** The quoted-string branch of [stdscan_token]. *)
Definition stdscan_token_str (tv : tokenval) : M (Z * tokenval) :=
  start_quote <- peek 0 ;;
  p <- get_bufptr ;;
  let tv := set_charptr (LinePtr p) tv in
  n <- call_unquote p ;;
  let tv := set_inttwo n tv in
  c <- peek 0 ;;
  if negb (Ascii.eqb c start_quote) then yield TOKEN_ERRSTR tv
  else
    bump 1 ;;;                              (* Skip final quote *)
    yield TOKEN_STR tv.

(** [scan.bufptr[0] == a && scan.bufptr[1] == b] *)
Definition pair_at (a b : ascii) : M bool :=
  c0 <- peek 0 ;;
  if Ascii.eqb c0 a then c1 <- peek 1 ;; ret (Ascii.eqb c1 b)
  else ret false.

(** The operator and single-character branches of [stdscan_token]. *)
Definition stdscan_token_op (tv : tokenval) : M (Z * tokenval) :=
  b <- pair_at ">" ">" ;;
  if b then
    c2 <- peek 2 ;;
    if Ascii.eqb c2 ">" then bump 3 ;;; yield TOKEN_SAR tv
    else bump 2 ;;; yield TOKEN_SHR tv
  else
  b <- pair_at "<" "<" ;;
  if b then
    c2 <- peek 2 ;;
    bump (if Ascii.eqb c2 "<" then 3 else 2) ;;; yield TOKEN_SHL tv
  else
  b <- pair_at "/" "/" ;;
  if b then bump 2 ;;; yield TOKEN_SDIV tv else
  b <- pair_at "%" "%" ;;
  if b then bump 2 ;;; yield TOKEN_SMOD tv else
  b <- pair_at "=" "=" ;;
  if b then bump 2 ;;; yield TOKEN_EQ tv else
  b <- pair_at "<" ">" ;;
  if b then bump 2 ;;; yield TOKEN_NE tv else
  b <- pair_at "!" "=" ;;
  if b then bump 2 ;;; yield TOKEN_NE tv else
  b <- pair_at "<" "=" ;;
  if b then
    c2 <- peek 2 ;;
    if Ascii.eqb c2 ">" then bump 3 ;;; yield TOKEN_LEG tv
    else bump 2 ;;; yield TOKEN_LE tv
  else
  b <- pair_at ">" "=" ;;
  if b then bump 2 ;;; yield TOKEN_GE tv else
  b <- pair_at "&" "&" ;;
  if b then bump 2 ;;; yield TOKEN_DBL_AND tv else
  b <- pair_at "^" "^" ;;
  if b then bump 2 ;;; yield TOKEN_DBL_XOR tv else
  b <- pair_at "|" "|" ;;
  if b then bump 2 ;;; yield TOKEN_DBL_OR tv else
  (* just an ordinary char *)
  c <- peek 0 ;;
  bump 1 ;;;
  yield (Z.of_N (N_of_ascii c)) tv.

Definition is_quote (c : ascii) : bool :=
  Ascii.eqb c "'" || Ascii.eqb c "034" || Ascii.eqb c "`".

(** [stdscan_token(tv)] *)
Definition stdscan_token (tv : tokenval) : M (Z * tokenval) :=
  c <- peek 0 ;;
  (* we have a token; either an id, a number, operator or char *)
  is_id <- (if nasm_isidstart c then ret true
            else if Ascii.eqb c "$"
                 then c1 <- peek 1 ;; ret (nasm_isidstart c1)
                 else ret false) ;;
  if is_id then stdscan_token_id tv else
  is_here <- (if Ascii.eqb c "$"
              then c1 <- peek 1 ;; ret (negb (nasm_isnumchar c1))
              else ret false) ;;
  if is_here then
    (* a $ sign with no following hex number: Here ($) or Base ($$) *)
    bump 1 ;;;
    c1 <- peek 0 ;;
    if Ascii.eqb c1 "$" then bump 1 ;;; yield TOKEN_BASE tv
    else yield TOKEN_HERE tv
  else if nasm_isnumstart c then stdscan_token_num tv
  else if is_quote c then stdscan_token_str tv
  else if Ascii.eqb c "{" then stdscan_parse_braces tv
  else if Ascii.eqb c ";" then
    yield TOKEN_EOS tv                      (* a comment has happened - stay *)
  else stdscan_token_op tv.

(** [stdscan(private_data, tv)]; [tv] is what the caller's token held
    before the call.  The result is the value returned and the token. *)
Definition stdscan (tv : tokenval) : M (Z * tokenval) :=
  fun m =>
    match pushback (scan m) with
    | top :: _ =>
        (stdscan_pushback_pop ;;; ret (t_type top, top)) m
    | [] =>
        (let tv := zero_tokenval in
         p <- get_bufptr ;;
         q <- nasm_skip_spaces p ;;
         set_bufptr q ;;;
         let tv := set_start (LinePtr q) tv in
         c <- peek 0 ;;
         if Ascii.eqb c NUL then yield TOKEN_EOS tv
         else
           '(i, tv) <- stdscan_token tv ;;
           p' <- get_bufptr ;;
           ret (i, set_len (int_of (Z.of_nat p' - Z.of_nat q)) tv)) m
    end.

End Scanner.

(* ------------------------------------------------------------------ *)
(** ** Running the scanner *)

(** [n] calls of [stdscan] in a row; the results in the order of the
    calls. *)
Fixpoint scan_times {E : Nasm} (n : nat) : M (list (Z * tokenval)) :=
  match n with
  | O => ret []
  | S n' =>
      r <- stdscan zero_tokenval ;;
      rs <- scan_times n' ;;
      ret (r :: rs)
  end.

(** A line buffer as the caller must provide it: characters other than
    NUL, then the NUL. *)
Inductive terminated : list ascii -> Prop :=
| terminated_nul : terminated [NUL]
| terminated_cons c rest :
    c <> NUL -> terminated rest -> terminated (c :: rest).

(** A scanner in the middle of a line: the cursor is on a character of the
    line or on its NUL, nothing is pushed back, and offsets fit an [int]. *)
Definition ready (m : machine) : Prop :=
  terminated (skipn (bufptr (scan m)) (line m))
  /\ pushback (scan m) = []
  /\ (Z.of_nat (length (line m)) < 2 ^ 31)%Z.

(** The C string stored in the entry of the temporary storage a token's
    text pointer designates. *)
Definition token_text (m : machine) (tv : tokenval) : option text :=
  match t_charptr tv with
  | TempPtr i => option_map c_string (nth_error (stdscan_tempstorage m) i)
  | _ => None
  end.

(** What the other files of NASM must provide for the scanner to stay
    inside the line and to move on. *)
Record nasm_laws (E : Nasm) : Prop := {
  isidstart_nul  : nasm_isidstart NUL = false;
  isidchar_nul   : nasm_isidchar NUL = false;
  isnumchar_nul  : nasm_isnumchar NUL = false;
  isbrcchar_nul  : nasm_isbrcchar NUL = false;
  isidstart_dollar : nasm_isidstart "$" = false;
  isnumstart_numchar :
    forall c, nasm_isnumstart c = true -> c = "$"%char \/ nasm_isnumchar c = true;
  idlen_max_range : (0 < IDLEN_MAX < 2 ^ 31)%Z;
  token_hash_charptr :
    forall name tv, t_charptr (snd (nasm_token_hash name tv)) = t_charptr tv;
  unquote_in_line :
    forall mem str q rest,
      skipn str mem = q :: rest -> is_quote q = true -> terminated rest ->
      let '(mem', ep, _) := nasm_unquote mem str in
      length mem' = length mem /\ str < ep /\ terminated (skipn ep mem')
}.

(** Pushing back the tokens of a list, first to last. *)
Fixpoint pushback_all (ts : list tokenval) : M unit :=
  match ts with
  | [] => ret tt
  | t :: ts' => stdscan_pushback t ;;; pushback_all ts'
  end.

(* ------------------------------------------------------------------ *)
(** ** A reference environment

    The characters classes of NASM's [nctype.c], the usual values of the
    token codes and flags, a small keyword table, a reader of integers and
    a reader of quoted strings.  The examples run in it. *)

Module Ref.

Definition code (c : ascii) : nat := nat_of_ascii c.
Definition between (lo hi n : nat) : bool := Nat.leb lo n && Nat.leb n hi.

Definition is_digit (c : ascii) : bool := between 48 57 (code c).
Definition is_alpha (c : ascii) : bool :=
  between 65 90 (code c) || between 97 122 (code c).
Definition isspace (c : ascii) : bool :=
  Nat.eqb (code c) 32 || between 9 13 (code c).
Definition isidstart (c : ascii) : bool :=
  is_alpha c || Ascii.eqb c "_" || Ascii.eqb c "." || Ascii.eqb c "?"
  || Ascii.eqb c "@" || Nat.leb 128 (code c).
Definition isidchar (c : ascii) : bool :=
  isidstart c || is_digit c || Ascii.eqb c "$" || Ascii.eqb c "#"
  || Ascii.eqb c "~".
Definition isnumstart (c : ascii) : bool := is_digit c || Ascii.eqb c "$".
Definition isnumchar (c : ascii) : bool :=
  is_digit c || is_alpha c || Ascii.eqb c "_".
Definition isbrcchar (c : ascii) : bool := isidchar c || Ascii.eqb c "-".

Definition digit_value (c : ascii) : option Z :=
  if is_digit c then Some (Z.of_nat (code c) - 48)%Z
  else if between 97 102 (code c) then Some (Z.of_nat (code c) - 87)%Z
  else if between 65 70 (code c) then Some (Z.of_nat (code c) - 55)%Z
  else None.

Fixpoint read_radix (radix acc : Z) (s : text) : option Z :=
  match s with
  | [] => Some acc
  | c :: s' =>
      if Ascii.eqb c "_" then read_radix radix acc s'
      else match digit_value c with
           | Some d => if (d <? radix)%Z
                       then read_radix radix (acc * radix + d)%Z s'
                       else None
           | None => None
           end
  end.

(** Integers: [$] or [0x] in front or [h] behind for hexadecimal, decimal
    otherwise. *)
Definition read_integer (s : text) : Z * bool :=
  let '(radix, body) :=
    match s with
    | "$"%char :: t => (16%Z, t)
    | "0"%char :: "x"%char :: t => (16%Z, t)
    | _ => match rev s with
           | h :: t => if Ascii.eqb h "h" || Ascii.eqb h "H"
                       then (16%Z, rev t) else (10%Z, s)
           | [] => (10%Z, s)
           end
    end in
  match body with
  | [] => (0%Z, true)
  | _ => match read_radix radix 0 body with
         | Some v => (v, false)
         | None => (0%Z, true)
         end
  end.

Definition set_flag (v : Z) (tv : tokenval) : tokenval :=
  mk_tokenval (t_type tv) (t_charptr tv) (t_integer tv) (t_inttwo tv) v
              (t_start tv) (t_len tv).

Definition T_ID : Z := 256.
Definition T_REG : Z := 280.
Definition T_DECORATOR : Z := 281.
Definition T_SPECIAL : Z := 282.

(** name, token type, t_integer, t_flag *)
Definition keywords : list (string * (Z * Z * Z)) :=
  [ ("eax"%string,    (T_REG, 1, 0));
    ("k1"%string,     (T_REG, 101, 2));
    ("rd-sae"%string, (T_DECORATOR, 3, 1));
    ("z"%string,      (T_DECORATOR, 4, 1));
    ("ptr"%string,    (T_SPECIAL, 5, 8)) ]%Z.

Fixpoint lookup (name : string) (table : list (string * (Z * Z * Z)))
  : option (Z * Z * Z) :=
  match table with
  | [] => None
  | (k, v) :: rest => if String.eqb k name then Some v else lookup name rest
  end.

Definition token_hash (name : text) (tv : tokenval) : Z * tokenval :=
  match lookup (string_of_list_ascii name) keywords with
  | Some (ty, num, flag) =>
      (ty, set_type ty (set_flag flag (set_integer num tv)))
  | None => (T_ID, set_type T_ID (set_flag 0 tv))
  end.

(** Quoted strings without escapes: [ep] is left on the closing quote, or
    on the NUL when there is none; the line is not written. *)
Definition unquote (mem : list ascii) (str : nat) : list ascii * nat * Z :=
  match skipn str mem with
  | q :: rest =>
      match run_while (fun c => negb (Ascii.eqb c NUL) && negb (Ascii.eqb c q))
                      rest (S str) with
      | Some ep => (mem, ep, Z.of_nat ep - Z.of_nat str - 1)%Z
      | None => (mem, str, 0%Z)
      end
  | [] => (mem, str, 0%Z)
  end.

Definition env : Nasm := {|
  nasm_isspace := isspace;
  nasm_isidstart := isidstart;
  nasm_isidchar := isidchar;
  nasm_isnumstart := isnumstart;
  nasm_isnumchar := isnumchar;
  nasm_isbrcchar := isbrcchar;
  IDLEN_MAX := 4096;
  MAX_KEYWORD := 17;
  TOKEN_INVALID := -1;
  TOKEN_EOS := 0;
  TOKEN_ID := T_ID;
  TOKEN_NUM := 257;
  TOKEN_ERRNUM := 258;
  TOKEN_STR := 259;
  TOKEN_ERRSTR := 260;
  TOKEN_FLOAT := 261;
  TOKEN_HERE := 262;
  TOKEN_BASE := 263;
  TOKEN_SHL := 264;
  TOKEN_SHR := 265;
  TOKEN_SAR := 266;
  TOKEN_SDIV := 267;
  TOKEN_SMOD := 268;
  TOKEN_EQ := 61;
  TOKEN_NE := 269;
  TOKEN_LE := 270;
  TOKEN_GE := 271;
  TOKEN_LEG := 272;
  TOKEN_DBL_AND := 273;
  TOKEN_DBL_XOR := 274;
  TOKEN_DBL_OR := 275;
  TOKEN_OPMASK := 276;
  TFLAG_BRC := 1;
  TFLAG_BRC_OPT := 2;
  TFLAG_BRC_ANY := 3;
  TFLAG_WARN := 8;
  is_opmask_reg := fun r => (100 <=? r)%Z && (r <=? 107)%Z;
  nasm_token_hash := token_hash;
  readnum := read_integer;
  nasm_unquote := unquote
|}.

(** The scanner at the start of a line, in the reference environment. *)
Definition start (s : string) : option (unit * machine) :=
  stdscan_reset (line_of s) initial_machine.

(** The first [n] tokens of a line: type returned, text stored, integer
    value, and the cursor at the end. *)
Definition tokens (n : nat) (s : string)
  : option (list (Z * option string * Z) * nat) :=
  match start s with
  | Some (_, m) =>
      match @scan_times env n m with
      | Some (rs, m') =>
          Some (map (fun r : Z * tokenval =>
                       (fst r,
                        option_map string_of_list_ascii (token_text m' (snd r)),
                        t_integer (snd r))) rs,
                bufptr (scan m'))
      | None => None
      end
  | None => None
  end.

End Ref.

(** The scanner of the reference environment on the line [s], as
    [stdscan_reset] leaves it. *)
Definition ref_machine (s : string) : machine :=
  mk_machine (mk_state 0 [] ss_init) [] 0 (line_of s) [].

(** An environment whose [nasm_unquote] writes the line. *)

Module InPlace.

(** Modelled from the spec: [nasm_unquote] is in another file of NASM.
    The scanner sets the token's text pointer to the opening quote before
    the call and reports as the string what the call leaves there, with
    the decoded length the call returns: an unescape routine that decodes
    where the string stands.  This one knows no escapes: it moves the
    characters between the quotes down onto the opening quote and leaves
    [ep] on the closing quote, or on the NUL when there is none. *)
Definition unquote (mem : list ascii) (str : nat) : list ascii * nat * Z :=
  match skipn str mem with
  | q :: rest =>
      match run_while (fun c => negb (Ascii.eqb c NUL) && negb (Ascii.eqb c q))
                      rest (S str) with
      | Some ep =>
          (firstn str mem ++ firstn (ep - S str) rest ++ skipn (ep - 1) mem,
           ep, Z.of_nat ep - Z.of_nat str - 1)%Z
      | None => (mem, str, 0%Z)
      end
  | [] => (mem, str, 0%Z)
  end.

(** The reference environment with this [nasm_unquote]. *)
Definition env : Nasm := {|
  nasm_isspace := @nasm_isspace Ref.env;
  nasm_isidstart := @nasm_isidstart Ref.env;
  nasm_isidchar := @nasm_isidchar Ref.env;
  nasm_isnumstart := @nasm_isnumstart Ref.env;
  nasm_isnumchar := @nasm_isnumchar Ref.env;
  nasm_isbrcchar := @nasm_isbrcchar Ref.env;
  IDLEN_MAX := @IDLEN_MAX Ref.env;
  MAX_KEYWORD := @MAX_KEYWORD Ref.env;
  TOKEN_INVALID := @TOKEN_INVALID Ref.env;
  TOKEN_EOS := @TOKEN_EOS Ref.env;
  TOKEN_ID := @TOKEN_ID Ref.env;
  TOKEN_NUM := @TOKEN_NUM Ref.env;
  TOKEN_ERRNUM := @TOKEN_ERRNUM Ref.env;
  TOKEN_STR := @TOKEN_STR Ref.env;
  TOKEN_ERRSTR := @TOKEN_ERRSTR Ref.env;
  TOKEN_FLOAT := @TOKEN_FLOAT Ref.env;
  TOKEN_HERE := @TOKEN_HERE Ref.env;
  TOKEN_BASE := @TOKEN_BASE Ref.env;
  TOKEN_SHL := @TOKEN_SHL Ref.env;
  TOKEN_SHR := @TOKEN_SHR Ref.env;
  TOKEN_SAR := @TOKEN_SAR Ref.env;
  TOKEN_SDIV := @TOKEN_SDIV Ref.env;
  TOKEN_SMOD := @TOKEN_SMOD Ref.env;
  TOKEN_EQ := @TOKEN_EQ Ref.env;
  TOKEN_NE := @TOKEN_NE Ref.env;
  TOKEN_LE := @TOKEN_LE Ref.env;
  TOKEN_GE := @TOKEN_GE Ref.env;
  TOKEN_LEG := @TOKEN_LEG Ref.env;
  TOKEN_DBL_AND := @TOKEN_DBL_AND Ref.env;
  TOKEN_DBL_XOR := @TOKEN_DBL_XOR Ref.env;
  TOKEN_DBL_OR := @TOKEN_DBL_OR Ref.env;
  TOKEN_OPMASK := @TOKEN_OPMASK Ref.env;
  TFLAG_BRC := @TFLAG_BRC Ref.env;
  TFLAG_BRC_OPT := @TFLAG_BRC_OPT Ref.env;
  TFLAG_BRC_ANY := @TFLAG_BRC_ANY Ref.env;
  TFLAG_WARN := @TFLAG_WARN Ref.env;
  is_opmask_reg := @is_opmask_reg Ref.env;
  nasm_token_hash := @nasm_token_hash Ref.env;
  readnum := @readnum Ref.env;
  nasm_unquote := unquote
|}.

End InPlace.

(* ------------------------------------------------------------------ *)
(** ** The vocabulary of the statements

    Where the cursor is, what a scan starts on, and the pieces of
    [stdscan_token] the proofs follow one at a time. *)

Section Vocabulary.

Context {E : Nasm}.

(** The bytes from the cursor on. *)
Definition cursor (m : machine) : list ascii :=
  skipn (bufptr (scan m)) (line m).

(** The entry count after [stdscan_alloc] has made room. *)
Definition grow (m : machine) : machine :=
  if (Z.of_nat (stdscan_templen m) >=? stdscan_tempsize m)%Z
  then with_tempsize (stdscan_tempsize m + STDSCAN_TEMP_DELTA)%Z m
  else m.

(** A maximal run of characters that satisfy [f] at the start of [s]. *)
Definition run_of (f : ascii -> bool) (s : list ascii) (j : nat) : Prop :=
  Forall (fun c => f c = true) (firstn j s)
  /\ exists c tl, skipn j s = c :: tl /\ f c = false.

(** Whitespace as [nasm_skip_spaces] sees it. *)
Definition space_char (c : ascii) : bool :=
  negb (Ascii.eqb c NUL) && nasm_isspace c.

(** [m'] is [m] with the cursor [k] bytes further: same line, same
    pushback stack. *)
Definition moved (k : nat) (m m' : machine) : Prop :=
  line m' = line m
  /\ pushback (scan m') = pushback (scan m)
  /\ bufptr (scan m') = bufptr (scan m) + k.

(** The identifier branch after its first character. *)
Definition id_rest (is_sym : bool) (r : nat) (tv : tokenval)
  : M (Z * tokenval) :=
  advance_while nasm_isidchar ;;;
  p <- get_bufptr ;;
  let n := (Z.of_nat p - Z.of_nat r)%Z in
  txt <- stdscan_copy r (int_of (if (n <? IDLEN_MAX)%Z then n
                                 else IDLEN_MAX - 1)%Z) ;;
  let tv := set_charptr txt tv in
  if is_sym || (n >? MAX_KEYWORD)%Z then
    yield TOKEN_ID tv
  else
    name <- deref (t_charptr tv) ;;
    emit (Ev_token_hash name) ;;;
    let (token_type, tv) := nasm_token_hash name tv in
    (if negb (Z.land (t_flag tv) TFLAG_WARN =? 0)%Z
     then name' <- deref (t_charptr tv) ;; emit (Ev_warn_ptr name')
     else ret tt) ;;;
    if (Z.land (t_flag tv) TFLAG_BRC =? 0)%Z then
      ret (token_type, tv)
    else yield TOKEN_ID tv.

Definition is_e (c : ascii) : bool := Ascii.eqb c "e" || Ascii.eqb c "E".

Definition is_hexmark (c : ascii) : bool :=
  Ascii.eqb c "H" || Ascii.eqb c "h" || Ascii.eqb c "X" || Ascii.eqb c "x".

Definition is_p (c : ascii) : bool := Ascii.eqb c "P" || Ascii.eqb c "p".

(** One run of the number loop: the bytes it starts on, [is_hex],
    [is_float] and [has_e] on entry, the number of bytes it takes before
    the byte it breaks on, and the three flags on exit. *)
Inductive num_run :
  list ascii -> bool -> bool -> bool -> nat -> bool -> bool -> bool -> Prop :=
| run_break c rest h f e :
    negb h && is_e c = false -> is_hexmark c = false -> is_p c = false ->
    nasm_isnumchar c = false -> Ascii.eqb c "." = false ->
    num_run (c :: rest) h f e 0 h f e
| run_exp_sign c d rest h f e j h' f' e' :
    negb h && is_e c = true -> is_sign d = true ->
    num_run rest h true true j h' f' e' ->
    num_run (c :: d :: rest) h f e (S (S j)) h' f' e'
| run_exp c d rest h f e j h' f' e' :
    negb h && is_e c = true -> is_sign d = false ->
    num_run (d :: rest) h f true j h' f' e' ->
    num_run (c :: d :: rest) h f e (S j) h' f' e'
| run_hex c rest h f e j h' f' e' :
    negb h && is_e c = false -> is_hexmark c = true ->
    num_run rest true f e j h' f' e' ->
    num_run (c :: rest) h f e (S j) h' f' e'
| run_p_sign c d rest h f e j h' f' e' :
    negb h && is_e c = false -> is_hexmark c = false -> is_p c = true ->
    is_sign d = true ->
    num_run rest h true e j h' f' e' ->
    num_run (c :: d :: rest) h f e (S (S j)) h' f' e'
| run_p c d rest h f e j h' f' e' :
    negb h && is_e c = false -> is_hexmark c = false -> is_p c = true ->
    is_sign d = false ->
    num_run (d :: rest) h true e j h' f' e' ->
    num_run (c :: d :: rest) h f e (S j) h' f' e'
| run_numchar c rest h f e j h' f' e' :
    negb h && is_e c = false -> is_hexmark c = false -> is_p c = false ->
    nasm_isnumchar c = true ->
    num_run rest h f e j h' f' e' ->
    num_run (c :: rest) h f e (S j) h' f' e'
| run_dot c rest h f e j h' f' e' :
    negb h && is_e c = false -> is_hexmark c = false -> is_p c = false ->
    nasm_isnumchar c = false -> Ascii.eqb c "." = true ->
    num_run rest h true e j h' f' e' ->
    num_run (c :: rest) h f e (S j) h' f' e'.

(** The token of the number branch: [slot] is the entry of the temporary
    storage that holds the literal. *)
Definition number_token (tv : tokenval) (slot : nat) (literal : text)
                        (is_float : bool) : Z * tokenval :=
  if is_float then
    (TOKEN_FLOAT, set_type TOKEN_FLOAT (set_charptr (TempPtr slot) tv))
  else
    let (value, rn_error) := readnum literal in
    if rn_error then
      (TOKEN_ERRNUM, set_type TOKEN_ERRNUM (set_integer value tv))
    else
      (TOKEN_NUM,
       set_type TOKEN_NUM (set_charptr NULL (set_integer value tv))).

(** The number branch from its loop on; [r] is the start of the number. *)
Definition num_rest (r : nat) (is_hex : bool) (tv : tokenval)
  : M (Z * tokenval) :=
  '(is_hex, is_float, has_e) <- run_number_loop is_hex ;;
  q <- get_bufptr ;;
  set_bufptr (pred q) ;;;
  let is_float := if has_e && negb is_hex then true else is_float in
  let len := int_of (Z.of_nat (pred q) - Z.of_nat r) in
  if is_float then
    txt <- stdscan_copy r len ;;
    yield TOKEN_FLOAT (set_charptr txt tv)
  else
    r' <- stdscan_copy r len ;;
    literal <- deref r' ;;
    emit (Ev_readnum literal) ;;;
    let (value, rn_error) := readnum literal in
    let tv := set_integer value tv in
    stdscan_pop ;;;
    if rn_error then
      yield TOKEN_ERRNUM tv
    else yield TOKEN_NUM (set_charptr NULL tv).

(** What [stdscan_handle_brace] makes of the token the keyword lookup
    returned for the text [content]: the value returned, the token, and
    the diagnostics. *)
Definition brace_result (tv : tokenval) (content : text)
  : Z * tokenval * list event :=
  if (Z.land (t_flag tv) TFLAG_BRC_ANY =? 0)%Z then
    (TOKEN_INVALID, set_type TOKEN_INVALID tv,
     [Ev_nonfatal_not_valid_token content])
  else if negb (Z.land (t_flag tv) TFLAG_BRC_OPT =? 0)%Z
          && is_opmask_reg (t_integer tv) then
    (TOKEN_OPMASK, set_type TOKEN_OPMASK tv, [])
  else (t_type tv, tv, []).

(** The next token starts at offset [q] of the line, after the whitespace
    [stdscan] skips, and [s] are the bytes of the line from there on. *)
Definition lexeme_at (m : machine) (q : nat) (s : list ascii)
  : Prop :=
  pushback (scan m) = []
  /\ nasm_skip_spaces (bufptr (scan m)) m = Some (q, m)
  /\ skipn q (line m) = s.

(** The token [stdscan] starts from: all zero but for the start of the
    lexeme. *)
Definition fresh_token (q : nat) : tokenval :=
  set_start (LinePtr q) zero_tokenval.

(** [stdscan_token] takes its number branch on the bytes [c :: rest]. *)
Definition number_start (c : ascii) (rest : list ascii) : Prop :=
  nasm_isidstart c = false
  /\ nasm_isnumstart c = true
  /\ (c = "$"%char ->
      exists c1 rest1, rest = c1 :: rest1 /\ nasm_isidstart c1 = false
                       /\ nasm_isnumchar c1 = true).

(** After a scan the scanner still reads the same line, with nothing
    pushed back and the cursor inside the line. *)
Definition still_ready (m m' : machine) : Prop :=
  line m' = line m /\ pushback (scan m') = [] /\ terminated (cursor m').

(** The same of a line that may have been written, as a quoted string is
    when the unescape routine decodes it in place: the line has the length
    it had. *)
Definition ready_after (m m' : machine) : Prop :=
  length (line m') = length (line m)
  /\ pushback (scan m') = [] /\ terminated (cursor m').

(** What one scan of a ready scanner does, [q] being the start of the
    lexeme: either it returns end-of-stream with the cursor left at [q], on
    the NUL or on the [;] of a comment, or it leaves the cursor beyond
    [q]. *)
Definition eos_or_advance (q : nat) (i : Z) (m' : machine)
  : Prop :=
  (i = TOKEN_EOS /\ bufptr (scan m') = q
   /\ (cursor m' = [NUL] \/ exists tl, cursor m' = ";"%char :: tl))
  \/ q < bufptr (scan m').

(** A computation that leaves the bytes of the line as they were. *)
Definition keeps_line {A : Type} (x : M A) : Prop :=
  forall m a m', x m = Some (a, m') -> line m' = line m.

(** [stdscan_token] takes none of its identifier, number, string and
    brace branches on the bytes [c :: rest]: they are the end of the line,
    a comment, an operator, a single character, or [$] and [$$]. *)
Definition plain_start (c : ascii) (rest : list ascii) : Prop :=
  c = NUL
  \/ (c <> "$"%char /\ nasm_isidstart c = false /\ nasm_isnumstart c = false
      /\ is_quote c = false /\ c <> "{"%char)
  \/ (c = "$"%char /\ nasm_isidstart c = false
      /\ exists c1 rest1, rest = c1 :: rest1 /\ nasm_isidstart c1 = false
           /\ (nasm_isnumchar c1 = false \/ nasm_isnumstart c = false)).

(** A character the number loop takes wherever it meets it: a number
    character, [.], [h], [H], [x], [X], [p] or [P]. *)
Definition goes_on (y : ascii) : bool :=
  nasm_isnumchar y || Ascii.eqb y "." || is_hexmark y || is_p y.

(** A character the number loop takes while the number is not marked
    hexadecimal, and that does not mark it: a number character, [.], [p],
    [P], [e] or [E], but not [h], [H], [x] or [X]. *)
Definition goes_on_decimal (y : ascii) : bool :=
  negb (is_hexmark y)
  && (nasm_isnumchar y || Ascii.eqb y "." || is_p y || is_e y).

(** The bytes [s] at the offsets from [lo] to [k], [k] included, all
    satisfy [f]. *)
Definition all_between (f : ascii -> bool) (s : list ascii) (lo k : nat)
  : Prop :=
  forall i y, lo <= i -> i <= k -> nth_error s i = Some y -> f y = true.

(** No [h], [H], [x] or [X] among the bytes of [s] before the offset
    [j]. *)
Definition no_hexmark (s : list ascii) (j : nat) : Prop :=
  forall i y, i < j -> nth_error s i = Some y -> is_hexmark y = false.

(** The number is marked hexadecimal before the offset [k]: it was from
    the start, or one of [h], [H], [x], [X] stands before [k]. *)
Definition marked_before (h : bool) (s : list ascii) (k : nat) : Prop :=
  h = true
  \/ exists i y, i < k /\ nth_error s i = Some y /\ is_hexmark y = true.

(** What the byte [y] at the offset [i] of [s] must be for the number loop
    to have taken it: a character it takes wherever it meets it, an [e] or
    [E], or a sign right after an [e], [E], [p] or [P]. *)
Definition taken (s : list ascii) (i : nat) (y : ascii) : Prop :=
  goes_on y = true \/ is_e y = true
  \/ (is_sign y = true
      /\ exists i' x, i = S i' /\ nth_error s i' = Some x
                      /\ (is_e x = true \/ is_p x = true)).

(** Where a numeric literal that starts with [c :: rest] ends, read off
    the bytes: [len] bytes from its start there is a byte that continues no
    number; every byte before it, after the [$] if it starts with one, is
    one the loop can take; and the literal reaches beyond every offset [k]
    up to which, after the [$], all bytes are of those the loop takes
    wherever it meets them, or, when it does not start with [$], of those
    it takes while the number is not marked hexadecimal. *)
Definition literal_extent (c : ascii) (rest : list ascii) (len : nat)
  : Prop :=
  let pre := if Ascii.eqb c "$" then 1 else 0 in
  (exists d tl, skipn len (c :: rest) = d :: tl /\ goes_on d = false)
  /\ (forall i y, pre <= i -> i < len -> nth_error (c :: rest) i = Some y ->
                  taken (c :: rest) i y)
  /\ (forall k, all_between goes_on (c :: rest) pre k -> k < len)
  /\ (c <> "$"%char ->
      forall k, all_between goes_on_decimal (c :: rest) 0 k -> k < len).

End Vocabulary.

(* ------------------------------------------------------------------ *)
(** ** The vocabulary of the further properties *)

(** A computation all of whose returning runs relate the state before to
    the state after by [R]. *)
Definition relates {A : Type} (R : machine -> machine -> Prop) (x : M A)
  : Prop :=
  forall m a m', x m = Some (a, m') -> R m m'.

(** The temporary storage is what it was. *)
Definition same_temp (m m' : machine) : Prop :=
  stdscan_tempstorage m' = stdscan_tempstorage m.

(** The temporary storage is what it was, with at most [k] new entries
    after the old ones. *)
Definition temp_grown (k : nat) (m m' : machine) : Prop :=
  exists l, length l <= k
            /\ stdscan_tempstorage m' = stdscan_tempstorage m ++ l.

(** The array of [stdscan_tempsize] pointers has room for the
    [stdscan_templen] entries in use. *)
Definition has_room (m : machine) : Prop :=
  (Z.of_nat (stdscan_templen m) <= stdscan_tempsize m)%Z.

(** Room in the array is kept, and the array does not shrink. *)
Definition room_kept (m m' : machine) : Prop :=
  (has_room m -> has_room m')
  /\ (stdscan_tempsize m <= stdscan_tempsize m')%Z.

(** The calls of [nasm_nonfatal]. *)
Definition is_nonfatal (e : event) : bool :=
  match e with
  | Ev_nonfatal_not_valid_token _ | Ev_nonfatal_unterminated_braces => true
  | _ => false
  end.

(** The calls made are those made before, then calls that satisfy [P]. *)
Definition calls (P : event -> Prop) (m m' : machine) : Prop :=
  exists l, trace m' = trace m ++ l /\ Forall P l.

(** The calls of [nasm_unquote]. *)
Definition is_unquote (e : event) : bool :=
  match e with
  | Ev_unquote _ => true
  | _ => false
  end.

(** The line is written by [nasm_unquote] alone: between [m] and [m']
    calls were made, and unless [nasm_unquote] is one of them the line is
    the same. *)
Definition only_unquote_writes (m m' : machine) : Prop :=
  exists l, trace m' = trace m ++ l
            /\ (Forall (fun e => is_unquote e = false) l -> line m' = line m).

(** A computation that only reads: the state after is the state before. *)
Definition reads {A : Type} (x : M A) : Prop :=
  forall m a m', x m = Some (a, m') -> m' = m.

(** The value returned is the type left in the token. *)
Definition typed (x : M (Z * tokenval)) : Prop :=
  forall m i tv m', x m = Some ((i, tv), m') -> t_type tv = i.

(** What a relation between the state before and the state after must
    allow for the steps of the scanner that leave the temporary storage
    alone to keep it: the moves of the cursor, a write of the line, a pop
    of the pushback stack, and the calls that satisfy [P]. *)
Record calm (R : machine -> machine -> Prop) (P : event -> Prop)
  : Prop := {
  eff_refl : forall m, R m m;
  eff_trans : forall m1 m2 m3, R m1 m2 -> R m2 m3 -> R m1 m3;
  eff_bufptr : forall p m, R m (with_bufptr p m);
  eff_line : forall l m, R m (with_line l m);
  eff_pushback : forall ps m, R m (with_pushback ps m);
  eff_emit : forall e m, P e -> R m (with_trace (trace m ++ [e]) m)
}.

(** The same, and the three operations on the temporary storage. *)
Record effect (R : machine -> machine -> Prop) (P : event -> Prop)
  : Prop := {
  eff_calm : calm R P;
  eff_alloc : forall bytes, relates R (stdscan_alloc bytes);
  eff_write : forall ptr data, relates R (write_temp ptr data);
  eff_pop : relates R stdscan_pop
}.

(** The token returned has its start at [p]. *)
Definition starts (p : charptr) (x : M (Z * tokenval)) : Prop :=
  forall m i tv m', x m = Some ((i, tv), m') -> t_start tv = p.

(** The token of the plain kind of type [ty] that starts at [q] and is
    [len] bytes long. *)
Definition plain_token (q : nat) (ty : Z) (len : nat) : Z * tokenval :=
  (ty, set_len (Z.of_nat len) (set_type ty (fresh_token q))).

(* ------------------------------------------------------------------ *)
(** ** Lists of bytes *)

Lemma terminated_not_nil l : terminated l -> l <> [].
Proof. destruct 1; discriminate. Qed.

Lemma terminated_tail c rest :
  terminated (c :: rest) -> c <> NUL -> terminated rest.
Proof. inversion 1; subst; [congruence | auto]. Qed.

Lemma terminated_nul_head rest : terminated (NUL :: rest) -> rest = [].
Proof. inversion 1; subst; [reflexivity | congruence]. Qed.

Lemma terminated_skipn l :
  terminated l -> forall p, p < length l -> terminated (skipn p l).
Proof.
  induction 1 as [|c rest Hc Hrest IH]; intros p Hp; simpl in Hp.
  - assert (p = 0) by lia. subst. constructor.
  - destruct p as [|p]; simpl.
    + constructor; assumption.
    + apply IH. lia.
Qed.

Lemma skipn_cons_lt (l : list ascii) p c rest :
  skipn p l = c :: rest -> p < length l.
Proof.
  intros H. destruct (Nat.lt_ge_cases p (length l)) as [|Hge]; [assumption|].
  rewrite skipn_all2 in H by assumption. discriminate.
Qed.

Lemma terminated_skipn_lt l p : terminated (skipn p l) -> p < length l.
Proof.
  intros H. destruct (skipn p l) as [|c rest] eqn:Hs.
  - inversion H.
  - eapply skipn_cons_lt; eassumption.
Qed.

Lemma skipn_S_tail (l : list ascii) p c rest :
  skipn p l = c :: rest -> skipn (S p) l = rest.
Proof.
  intros H. change (S p) with (1 + p). rewrite <- skipn_skipn, H. reflexivity.
Qed.

Lemma skipn_add_tail (l : list ascii) p k :
  skipn (p + k) l = skipn k (skipn p l).
Proof. rewrite skipn_skipn. f_equal. lia. Qed.

Lemma terminated_line_of s :
  (forall c, In c (list_ascii_of_string s) -> c <> NUL) ->
  terminated (line_of s).
Proof.
  unfold line_of. induction (list_ascii_of_string s) as [|c l IH]; intros H.
  - constructor.
  - simpl. constructor.
    + apply H. left. reflexivity.
    + apply IH. intros d Hd. apply H. right. assumption.
Qed.

Lemma int_of_small z : (- 2 ^ 31 <= z < 2 ^ 31)%Z -> int_of z = z.
Proof.
  intros H. unfold int_of.
  rewrite Z.mod_small by lia. lia.
Qed.

Lemma eqb_neq_false (c d : ascii) : c <> d -> Ascii.eqb c d = false.
Proof. intros H. apply Ascii.eqb_neq. assumption. Qed.

Lemma eqb_nul_false c : c <> NUL -> Ascii.eqb c NUL = false.
Proof. apply eqb_neq_false. Qed.

(** The loops stop inside a terminated list when the NUL does not satisfy
    the test. *)
Lemma run_while_terminated (f : ascii -> bool) :
  f NUL = false ->
  forall rest, terminated rest ->
  forall p, exists j,
    run_while f rest p = Some (p + j)
    /\ terminated (skipn j rest)
    /\ Forall (fun c => f c = true) (firstn j rest)
    /\ (exists c tl, skipn j rest = c :: tl /\ f c = false).
Proof.
  intros Hnul rest Hrest.
  induction Hrest as [|c rest Hc Hrest IH]; intros p.
  - exists 0. simpl. rewrite Hnul. rewrite Nat.add_0_r.
    repeat split; [constructor | constructor | eauto].
  - simpl. destruct (f c) eqn:Hf.
    + destruct (IH (S p)) as (j & Hrun & Hterm & Hall & Hstop).
      exists (S j). simpl. rewrite Hrun.
      split; [f_equal; lia|]. split; [assumption|]. split; [|assumption].
      constructor; assumption.
    + exists 0. simpl. rewrite Nat.add_0_r.
      repeat split; [constructor; assumption | constructor | eauto].
Qed.

Lemma Forall_true_not_nul (f : ascii -> bool) l :
  f NUL = false -> Forall (fun c => f c = true) l -> Forall (fun c => c <> NUL) l.
Proof.
  intros Hnul H. eapply Forall_impl; [|exact H].
  intros c Hc Heq. subst. congruence.
Qed.

Lemma c_string_app_nul l tl :
  Forall (fun c => c <> NUL) l -> c_string (l ++ NUL :: tl) = l.
Proof.
  induction 1 as [|c l Hc Hl IH]; simpl.
  - reflexivity.
  - rewrite eqb_nul_false by assumption. f_equal. assumption.
Qed.

Lemma c_string_length_le l : length (c_string l) <= length l.
Proof.
  induction l as [|c l IH]; simpl; [lia|].
  destruct (Ascii.eqb c NUL); simpl; lia.
Qed.

(* ------------------------------------------------------------------ *)
(** ** The state after the simple operations *)

Lemma with_pushback_same m : with_pushback (pushback (scan m)) m = m.
Proof. destruct m as [[p ps ss] ts sz l tr]. reflexivity. Qed.

Lemma with_bufptr_same m : with_bufptr (bufptr (scan m)) m = m.
Proof. destruct m as [[p ps ss] ts sz l tr]. reflexivity. Qed.

Lemma with_tempstorage_same m :
  with_tempstorage (stdscan_tempstorage m) m = m.
Proof. destruct m as [[p ps ss] ts sz l tr]. reflexivity. Qed.

Lemma pop_times_tempstorage n :
  forall m, stdscan_templen m = n ->
            pop_times n stdscan_pop m = Some (tt, with_tempstorage [] m).
Proof.
  induction n as [|n IH]; intros m Hn; unfold stdscan_templen in Hn.
  - destruct (stdscan_tempstorage m) eqn:Hts; [|discriminate].
    simpl. unfold ret. rewrite <- Hts, with_tempstorage_same. reflexivity.
  - simpl. unfold bind, stdscan_pop.
    destruct (stdscan_tempstorage m) as [|b ts] eqn:Hts; [discriminate|].
    rewrite IH.
    + reflexivity.
    + unfold stdscan_templen.
      change (stdscan_tempstorage (with_tempstorage (removelast (b :: ts)) m))
        with (removelast (b :: ts)).
      rewrite removelast_firstn_len, length_firstn. simpl in *. lia.
Qed.

Lemma pop_times_pushback n :
  forall m, length (pushback (scan m)) = n ->
            pop_times n stdscan_pushback_pop m = Some (tt, with_pushback [] m).
Proof.
  induction n as [|n IH]; intros m Hn.
  - destruct (pushback (scan m)) eqn:Hps; [|discriminate].
    simpl. unfold ret. rewrite <- Hps, with_pushback_same. reflexivity.
  - simpl. unfold bind, stdscan_pushback_pop.
    destruct (pushback (scan m)) as [|t ps] eqn:Hps; [discriminate|].
    rewrite IH.
    + reflexivity.
    + simpl in *. lia.
Qed.

(** After [stdscan_reset] the temporary storage and the pushback stack are
    empty and the cursor is at the start of the new buffer. *)
Lemma stdscan_reset_eq buffer m :
  stdscan_reset buffer m =
  Some (tt, mk_machine (mk_state 0 [] ss_init) [] (stdscan_tempsize m)
                       buffer (trace m)).
Proof.
  unfold stdscan_reset, bind.
  rewrite pop_times_tempstorage by reflexivity.
  rewrite pop_times_pushback by reflexivity.
  reflexivity.
Qed.

(* ------------------------------------------------------------------ *)
(** ** Running the primitive operations *)

Section Primitives.

Context {E : Nasm}.

Lemma peek_cursor k m :
  peek k m = match nth_error (cursor m) k with
             | Some c => Some (c, m)
             | None => None
             end.
Proof. unfold peek, cursor. rewrite nth_error_skipn. reflexivity. Qed.

Lemma grow_fields m :
  scan (grow m) = scan m /\ line (grow m) = line m
  /\ trace (grow m) = trace m
  /\ stdscan_tempstorage (grow m) = stdscan_tempstorage m.
Proof. unfold grow. destruct (_ >=? _)%Z; auto. Qed.

(** [stdscan_copy] of [n] bytes that lie in the line: a new entry holding
    them and a NUL. *)
Lemma stdscan_copy_eq p n m :
  p + n <= length (line m) ->
  stdscan_copy p (Z.of_nat n) m =
  Some (TempPtr (stdscan_templen m),
        with_tempstorage
          (stdscan_tempstorage m ++ [firstn n (skipn p (line m)) ++ [NUL]])
          (grow m)).
Proof.
  intros Hin. unfold stdscan_copy, bind, stdscan_alloc.
  destruct (Z.of_nat n + 1 <? 0)%Z eqn:Hneg; [lia|].
  destruct (Z.of_nat n <? 0)%Z eqn:Hneg'; [lia|].
  fold (grow m).
  destruct (grow_fields m) as (Hscan & Hline & Htrace & Hts).
  unfold read_bytes. simpl line. rewrite Hline, Nat2Z.id.
  destruct (Nat.leb_spec (p + n) (length (line m))) as [_|]; [|lia].
  unfold write_temp, stdscan_templen. simpl stdscan_tempstorage.
  rewrite nth_error_app2 by lia. rewrite Nat.sub_diag. simpl nth_error.
  replace (Z.to_nat (Z.of_nat n + 1)) with (S n) by lia.
  assert (Hlen : length (firstn n (skipn p (line m)) ++ [NUL]) = S n).
  { rewrite length_app, length_firstn, length_skipn. simpl. lia. }
  rewrite Hlen.
  replace (length (repeat NUL (S n))) with (S n) by (rewrite repeat_length; reflexivity).
  rewrite Nat.leb_refl.
  rewrite firstn_app, firstn_all, Nat.sub_diag. simpl firstn.
  rewrite (skipn_all2 (stdscan_tempstorage m ++ _))
    by (rewrite length_app; simpl; lia).
  unfold ret. do 2 f_equal. unfold with_tempstorage. simpl.
  rewrite (skipn_all2 (repeat NUL n)) by (rewrite repeat_length; lia).
  rewrite !app_nil_r. reflexivity.
Qed.

Lemma firstn_not_nul_c_string n l tl :
  Forall (fun c => c <> NUL) (firstn n l) ->
  c_string ((firstn n l ++ [NUL]) ++ tl) = firstn n l.
Proof.
  intros H. rewrite <- app_assoc. simpl. apply c_string_app_nul. exact H.
Qed.

End Primitives.

(* ------------------------------------------------------------------ *)
(** ** Pushback *)

Section Pushback.

Context {E : Nasm}.

Lemma stdscan_pushed tv0 T m :
  stdscan tv0 (with_pushback (T :: pushback (scan m)) m)
  = Some ((t_type T, T), m).
Proof.
  unfold stdscan. simpl pushback.
  unfold bind, stdscan_pushback_pop, ret. simpl.
  destruct m as [[p ps ss] ts sz l tr]. reflexivity.
Qed.

Lemma scan_times_pushed ts :
  forall m,
    bind (pushback_all ts) (fun _ => scan_times (length ts)) m
    = Some (map (fun T => (t_type T, T)) (rev ts), m).
Proof.
  induction ts as [|T ts IH] using rev_ind; intros m.
  - reflexivity.
  - rewrite length_app, rev_app_distr. simpl length. simpl rev.
    rewrite Nat.add_comm. simpl plus.
    assert (Hpush : forall m0,
               pushback_all (ts ++ [T]) m0
               = bind (pushback_all ts) (fun _ => stdscan_pushback T) m0).
    { clear. induction ts as [|a ts IHts]; intros m0; simpl.
      - reflexivity.
      - unfold bind at 1 3. unfold stdscan_pushback at 1 3.
        rewrite IHts. reflexivity. }
    unfold bind at 1. rewrite Hpush. unfold bind at 1.
    specialize (IH m). unfold bind at 1 in IH.
    destruct (pushback_all ts m) as [[[] m1]|] eqn:Hm1; [|discriminate].
    unfold stdscan_pushback at 1.
    change (scan_times (S (length ts)))
      with (r <- stdscan zero_tokenval ;; rs <- scan_times (length ts) ;;
            ret (r :: rs)).
    unfold bind at 1. rewrite stdscan_pushed.
    unfold bind at 1. rewrite IH. reflexivity.
Qed.

(** C5.  A token pushed back is the token the next [stdscan] returns, in
    all its fields, and the scanner is then in the state it had before the
    push: the cursor has not moved.  Tokens pushed A then B come back B
    then A, and so does a stack of any depth: [length ts] calls return the
    tokens of [ts] last pushed first. *)
Theorem C5_pushback_lifo :
  (forall tv0 T m,
      (stdscan_pushback T ;;; stdscan tv0) m = Some ((t_type T, T), m))
  /\ (forall A B m,
         (stdscan_pushback A ;;; stdscan_pushback B ;;;
          b <- stdscan zero_tokenval ;; a <- stdscan zero_tokenval ;;
          ret (snd b, snd a)) m
         = Some ((B, A), m))
  /\ (forall ts m,
         (pushback_all ts ;;; scan_times (length ts)) m
         = Some (map (fun T => (t_type T, T)) (rev ts), m)).
Proof.
  split; [|split].
  - intros tv0 T m. unfold bind, stdscan_pushback. apply stdscan_pushed.
  - intros A B m. unfold bind at 1. unfold stdscan_pushback at 1.
    unfold bind at 1. unfold stdscan_pushback at 1.
    unfold bind at 1.
    change (pushback (scan (with_pushback (A :: pushback (scan m)) m)))
      with (A :: pushback (scan m)).
    replace (with_pushback (B :: A :: pushback (scan m))
                           (with_pushback (A :: pushback (scan m)) m))
      with (with_pushback
              (B :: pushback (scan (with_pushback (A :: pushback (scan m)) m)))
              (with_pushback (A :: pushback (scan m)) m)) by reflexivity.
    rewrite stdscan_pushed. unfold bind at 1. rewrite stdscan_pushed.
    reflexivity.
  - intros ts m. apply scan_times_pushed.
Qed.

End Pushback.

(* ------------------------------------------------------------------ *)
(** ** The branches of [stdscan_token], one at a time *)

Section Cursor.

Context {E : Nasm}.

Lemma cursor_bump k m :
  cursor (with_bufptr (bufptr (scan m) + k) m) = skipn k (cursor m).
Proof. unfold cursor. simpl. apply skipn_add_tail. Qed.

Lemma cursor_grow m : cursor (grow m) = cursor m.
Proof.
  unfold cursor. destruct (grow_fields m) as (-> & -> & _). reflexivity.
Qed.

Lemma moved_refl m : moved 0 m m.
Proof. unfold moved. repeat split. lia. Qed.

Lemma moved_bump k m : moved k m (with_bufptr (bufptr (scan m) + k) m).
Proof. unfold moved. repeat split. Qed.

End Cursor.

Ltac char_case :=
  match goal with
  | |- context [Ascii.eqb ?a ?b] =>
      first
        [ is_var a;
          let H := fresh "Hch" in
          destruct (Ascii.eqb a b) eqn:H;
          [apply Ascii.eqb_eq in H; subst a | ]
        | let v := eval vm_compute in (Ascii.eqb a b) in
          change (Ascii.eqb a b) with v; cbv beta iota ]
  end.

Ltac exec Hcur :=
  repeat first
    [ rewrite peek_cursor, ?cursor_bump, Hcur; simpl skipn; simpl nth_error;
      cbv beta iota
    | progress (unfold ret, bump, yield, bind; cbv beta iota)
    | char_case ].

Section Branches.

Context {E : Nasm}.

(** The operator and single-character branches: a token without text or
    value, one to three characters long. *)
Lemma op_spec tv m c rest :
  cursor m = c :: rest -> c <> NUL -> terminated rest ->
  exists k ty,
    1 <= k
    /\ stdscan_token_op tv m
       = Some ((ty, set_type ty tv), with_bufptr (bufptr (scan m) + k) m)
    /\ terminated (skipn k (c :: rest)).
Proof.
  intros Hcur Hc Hrest.
  destruct rest as [|c1 rest1]; [inversion Hrest|].
  unfold stdscan_token_op, pair_at.
  destruct (ascii_dec c1 NUL) as [->|Hc1].
  - exec Hcur;
      (exists 1; eexists; split; [lia|]; split; [reflexivity|]; exact Hrest).
  - assert (Hrest1 : terminated rest1) by (apply (terminated_tail Hrest Hc1)).
    destruct rest1 as [|c2 rest2]; [inversion Hrest1|].
    exec Hcur;
      first
        [ exists 1; eexists; split; [lia|]; split; [reflexivity|]; exact Hrest
        | exists 2; eexists; split; [lia|]; split; [reflexivity|];
          exact Hrest1
        | exists 3; eexists; split; [lia|]; split; [reflexivity|];
          simpl skipn; apply (terminated_tail Hrest1); discriminate ].
Qed.

Lemma advance_while_at f m s j :
  cursor m = s ->
  run_while f s (bufptr (scan m)) = Some (bufptr (scan m) + j) ->
  advance_while f m = Some (tt, with_bufptr (bufptr (scan m) + j) m).
Proof. unfold advance_while, cursor. intros -> ->. reflexivity. Qed.

Lemma run_of_terminated f rest p :
  f NUL = false -> terminated rest ->
  exists j, run_while f rest p = Some (p + j)
            /\ terminated (skipn j rest) /\ run_of f rest j.
Proof.
  intros Hnul Hrest.
  destruct (run_while_terminated f Hnul Hrest p) as (j & H1 & H2 & H3 & H4).
  exists j. repeat split; assumption.
Qed.

Lemma Forall_firstn_any (P : ascii -> Prop) l :
  Forall P l -> forall k, Forall P (firstn k l).
Proof.
  induction 1 as [|c l Hc Hl IH]; intros [|k]; simpl; constructor; auto.
Qed.

Lemma deref_temp i m blk :
  nth_error (stdscan_tempstorage m) i = Some blk ->
  deref (TempPtr i) m = Some (c_string blk, m).
Proof. intros H. unfold deref. rewrite H. reflexivity. Qed.

Lemma nth_error_last (A : Type) (l : list A) (x : A) :
  nth_error (l ++ [x]) (length l) = Some x.
Proof. rewrite nth_error_app2 by lia. rewrite Nat.sub_diag. reflexivity. Qed.

Lemma stdscan_token_id_rest tv :
  stdscan_token_id tv =
  (c <- peek 0 ;;
   is_sym <- (if Ascii.eqb c "$" then bump 1 ;;; ret true else ret false) ;;
   r <- get_bufptr ;;
   bump 1 ;;;
   id_rest is_sym r tv).
Proof. reflexivity. Qed.

Lemma id_rest_spec is_sym r tv m first tl :
  skipn r (line m) = first :: tl ->
  bufptr (scan m) = S r ->
  first <> NUL -> terminated tl ->
  nasm_isidchar NUL = false ->
  (0 < IDLEN_MAX < 2 ^ 31)%Z ->
  (forall name tv, t_charptr (snd (nasm_token_hash name tv)) = t_charptr tv) ->
  (Z.of_nat (length (line m)) < 2 ^ 31)%Z ->
  exists j i tv' m',
    run_of nasm_isidchar tl j
    /\ terminated (skipn j tl)
    /\ id_rest is_sym r tv m = Some ((i, tv'), m')
    /\ moved j m m'
    /\ let stored := firstn (Z.to_nat (IDLEN_MAX - 1))
                            (firstn (S j) (first :: tl)) in
       stdscan_tempstorage m' = stdscan_tempstorage m ++ [stored ++ [NUL]]
       /\ (is_sym = true \/ (Z.of_nat (S j) > MAX_KEYWORD)%Z ->
           i = TOKEN_ID
           /\ tv' = set_type TOKEN_ID
                      (set_charptr (TempPtr (stdscan_templen m)) tv)
           /\ trace m' = trace m)
       /\ (is_sym = false /\ (Z.of_nat (S j) <= MAX_KEYWORD)%Z ->
           exists extra,
             trace m' = trace m ++ Ev_token_hash stored :: extra).
Proof.
  intros Hr Hbuf Hfirst Htl Hnul Hidlen Hhash Hlen.
  assert (Hcur : cursor m = tl).
  { unfold cursor. rewrite Hbuf. apply (skipn_S_tail _ _ Hr). }
  destruct (run_of_terminated nasm_isidchar (bufptr (scan m)) Hnul Htl)
    as (j & Hrun & Hterm & Hrunof).
  exists j.
  assert (Hp : S r + j < length (line m)).
  { apply terminated_skipn_lt. rewrite skipn_add_tail.
    rewrite <- Hbuf. fold (cursor m). rewrite Hcur. exact Hterm. }
  set (stored := firstn (Z.to_nat (IDLEN_MAX - 1)) (firstn (S j) (first :: tl))).
  assert (Hstored_nn : Forall (fun c => c <> NUL) (firstn (S j) (first :: tl))).
  { simpl. constructor; [assumption|].
    apply (Forall_true_not_nul _ Hnul). apply Hrunof. }
  assert (Hstored_nn' : Forall (fun c => c <> NUL) stored).
  { apply Forall_firstn_any. exact Hstored_nn. }
  assert (Hstored_len : Z.of_nat (length stored)
                        = (if (Z.of_nat (S j) <? IDLEN_MAX)%Z
                           then Z.of_nat (S j) else IDLEN_MAX - 1)%Z).
  { unfold stored. rewrite firstn_firstn, length_firstn.
    assert (length (first :: tl) >= S j).
    { simpl. destruct Hrunof as (_ & c & tl' & Hs & _).
      assert (j < length tl) by (eapply skipn_cons_lt; eassumption). lia. }
    destruct (Z.ltb_spec (Z.of_nat (S j)) IDLEN_MAX); lia. }
  assert (Hstored_eq : stored = firstn (length stored) (skipn r (line m))).
  { rewrite Hr. unfold stored at 2. rewrite firstn_firstn, length_firstn.
    unfold stored. rewrite firstn_firstn.
    assert (length (first :: tl) >= S j).
    { simpl. destruct Hrunof as (_ & c & tl' & Hs & _).
      assert (j < length tl) by (eapply skipn_cons_lt; eassumption). lia. }
    f_equal. lia. }
  assert (Hst_le : length stored <= S j).
  { unfold stored. rewrite firstn_firstn, length_firstn. lia. }
  unfold id_rest. unfold bind at 1.
  rewrite advance_while_at with (s := tl) (j := j) by assumption.
  unfold bind at 1. unfold get_bufptr at 1. simpl bufptr.
  rewrite Hbuf.
  replace (Z.of_nat (S r + j) - Z.of_nat r)%Z with (Z.of_nat (S j)) by lia.
  rewrite <- Hstored_len.
  rewrite int_of_small by lia.
  unfold bind at 1.
  rewrite stdscan_copy_eq.
  2:{ simpl line. lia. }
  simpl line. rewrite <- Hstored_eq.
  change (stdscan_templen (with_bufptr (S r + j) m)) with (stdscan_templen m).
  change (stdscan_tempstorage (with_bufptr (S r + j) m))
    with (stdscan_tempstorage m).
  set (m1 := with_bufptr (S r + j) m).
  destruct (grow_fields m1) as (Gs & Gl & Gt & Gts).
  set (m2 := with_tempstorage _ (grow m1)).
  assert (Hmoved : moved j m m2).
  { unfold moved, m2. simpl. rewrite Gs, Gl. simpl. repeat split. lia. }
  assert (Hts2 : stdscan_tempstorage m2
                 = stdscan_tempstorage m ++ [stored ++ [NUL]]) by reflexivity.
  assert (Htr2 : trace m2 = trace m) by (unfold m2; simpl; rewrite Gt; reflexivity).
  assert (Hnth : nth_error (stdscan_tempstorage m2) (stdscan_templen m)
                 = Some (stored ++ [NUL])).
  { rewrite Hts2. apply nth_error_last. }
  assert (Hcs : c_string (stored ++ [NUL]) = stored).
  { apply c_string_app_nul. exact Hstored_nn'. }
  destruct (is_sym || (Z.of_nat (S j) >? MAX_KEYWORD)%Z) eqn:Hby.
  - exists TOKEN_ID, (set_type TOKEN_ID
                        (set_charptr (TempPtr (stdscan_templen m)) tv)), m2.
    split; [exact Hrunof|]. split; [exact Hterm|].
    split; [reflexivity|]. split; [exact Hmoved|]. split; [exact Hts2|].
    split; [intros _; auto|].
    intros [-> Hle]. simpl in Hby.
    rewrite Z.gtb_ltb in Hby. apply Z.ltb_lt in Hby. lia.
  - apply orb_false_iff in Hby. destruct Hby as [-> Hkw].
    rewrite Z.gtb_ltb in Hkw. apply Z.ltb_ge in Hkw.
    unfold bind at 1. simpl t_charptr.
    rewrite (deref_temp _ _ Hnth), Hcs.
    unfold bind at 1. unfold emit at 1.
    set (tv1 := set_charptr (TempPtr (stdscan_templen m)) tv).
    pose proof (Hhash stored tv1) as Hptr.
    destruct (nasm_token_hash stored tv1) as [token_type tv2].
    simpl in Hptr.
    set (m3 := with_trace (trace m2 ++ [Ev_token_hash stored]) m2).
    assert (Hnth3 : nth_error (stdscan_tempstorage m3) (stdscan_templen m)
                    = Some (stored ++ [NUL])) by exact Hnth.
    unfold bind at 1.
    destruct (negb (Z.land (t_flag tv2) TFLAG_WARN =? 0)%Z).
    + unfold bind at 1. rewrite Hptr. rewrite (deref_temp _ _ Hnth3), Hcs.
      unfold emit.
      destruct (Z.land (t_flag tv2) TFLAG_BRC =? 0)%Z;
        unfold yield, ret; do 3 eexists;
        (split; [exact Hrunof|]); (split; [exact Hterm|]);
        (split; [reflexivity|]); (split; [exact Hmoved|]);
        (split; [exact Hts2|]);
        (split; [intros [Hc|Hc]; [discriminate | lia]|]);
        intros _; simpl; rewrite Gt, <- app_assoc; simpl; eauto.
    + unfold ret at 1.
      destruct (Z.land (t_flag tv2) TFLAG_BRC =? 0)%Z;
        unfold yield, ret; do 3 eexists;
        (split; [exact Hrunof|]); (split; [exact Hterm|]);
        (split; [reflexivity|]); (split; [exact Hmoved|]);
        (split; [exact Hts2|]);
        (split; [intros [Hc|Hc]; [discriminate | lia]|]);
        intros _; simpl; rewrite Gt; simpl; eauto.
Qed.

End Branches.

(* ------------------------------------------------------------------ *)
(** ** The number loop *)

Section NumberLoop.

Context {E : Nasm}.

Lemma number_loop_run n :
  forall rest, length rest <= n ->
  forall p h f e q h' f' e',
    number_loop rest p h f e = Some (q, h', f', e') ->
    exists j, q = S (p + j) /\ num_run rest h f e j h' f' e'.
Proof.
  induction n as [|n IH]; intros rest Hn p h f e q h' f' e' Hrun.
  - destruct rest; [discriminate | simpl in Hn; lia].
  - destruct rest as [|c rest]; [discriminate|].
    simpl in Hrun, Hn.
    fold (is_e c) in Hrun.
    change (Ascii.eqb c "H" || Ascii.eqb c "h" || Ascii.eqb c "X"
            || Ascii.eqb c "x") with (is_hexmark c) in Hrun.
    fold (is_p c) in Hrun.
    destruct (negb h && is_e c) eqn:He.
    { destruct rest as [|d rest]; [discriminate|].
      destruct (is_sign d) eqn:Hd.
      - apply IH in Hrun; [|simpl in Hn; lia].
        destruct Hrun as (j & -> & Hr). exists (S (S j)).
        split; [f_equal; lia|]. eapply run_exp_sign; eassumption.
      - apply IH in Hrun; [|simpl in Hn; simpl; lia].
        destruct Hrun as (j & -> & Hr). exists (S j).
        split; [f_equal; lia|]. eapply run_exp; eassumption. }
    destruct (is_hexmark c) eqn:Hh.
    { apply IH in Hrun; [|lia].
      destruct Hrun as (j & -> & Hr). exists (S j).
      split; [f_equal; lia|]. eapply run_hex; eassumption. }
    destruct (is_p c) eqn:Hp.
    { destruct rest as [|d rest]; [discriminate|].
      destruct (is_sign d) eqn:Hd.
      - apply IH in Hrun; [|simpl in Hn; lia].
        destruct Hrun as (j & -> & Hr). exists (S (S j)).
        split; [f_equal; lia|]. eapply run_p_sign; eassumption.
      - apply IH in Hrun; [|simpl in Hn; simpl; lia].
        destruct Hrun as (j & -> & Hr). exists (S j).
        split; [f_equal; lia|]. eapply run_p; eassumption. }
    destruct (nasm_isnumchar c) eqn:Hnc.
    { apply IH in Hrun; [|lia].
      destruct Hrun as (j & -> & Hr). exists (S j).
      split; [f_equal; lia|]. eapply run_numchar; eassumption. }
    destruct (Ascii.eqb c ".") eqn:Hdot.
    { apply IH in Hrun; [|lia].
      destruct Hrun as (j & -> & Hr). exists (S j).
      split; [f_equal; lia|]. eapply run_dot; eassumption. }
    injection Hrun as <- <- <- <-. exists 0.
    split; [f_equal; lia|]. apply run_break; assumption.
Qed.

Lemma is_sign_not_nul d : is_sign d = true -> d <> NUL.
Proof. intros H ->. discriminate. Qed.

Lemma number_loop_total n :
  nasm_isnumchar NUL = false ->
  forall rest, length rest <= n -> terminated rest ->
  forall p h f e, exists q h' f' e',
    number_loop rest p h f e = Some (q, h', f', e').
Proof.
  intros Hnul. induction n as [|n IH]; intros rest Hn Hterm p h f e.
  - destruct Hterm; simpl in Hn; lia.
  - destruct Hterm as [|c rest Hc Hrest].
    + simpl. rewrite Hnul. rewrite andb_false_r. simpl. eauto.
    + simpl in Hn. simpl.
      assert (Hsub : forall p h f e, exists q h' f' e',
                 number_loop rest p h f e = Some (q, h', f', e')).
      { intros. apply IH; [lia | assumption]. }
      assert (Hsub2 : forall d rest', rest = d :: rest' -> is_sign d = true ->
                 forall p h f e, exists q h' f' e',
                   number_loop rest' p h f e = Some (q, h', f', e')).
      { intros d rest' -> Hd. intros. apply IH; [simpl in Hn; lia|].
        apply (terminated_tail Hrest). apply is_sign_not_nul. assumption. }
      destruct rest as [|d rest']; [inversion Hrest|].
      repeat match goal with
             | |- context [if ?b then _ else _] => destruct b eqn:?
             end; eauto.
Qed.

Lemma is_sign_cases d : is_sign d = true -> d = "+"%char \/ d = "-"%char.
Proof.
  unfold is_sign. intros H. apply orb_true_iff in H.
  destruct H as [H|H]; apply Ascii.eqb_eq in H; auto.
Qed.

Lemma is_e_cases c : is_e c = true -> c = "e"%char \/ c = "E"%char.
Proof.
  unfold is_e. intros H. apply orb_true_iff in H.
  destruct H as [H|H]; apply Ascii.eqb_eq in H; auto.
Qed.

Lemma is_p_cases c : is_p c = true -> c = "P"%char \/ c = "p"%char.
Proof.
  unfold is_p. intros H. apply orb_true_iff in H.
  destruct H as [H|H]; apply Ascii.eqb_eq in H; auto.
Qed.

Lemma num_run_length rest h f e j h' f' e' :
  num_run rest h f e j h' f' e' -> j < length rest.
Proof. induction 1; simpl in *; lia. Qed.

Lemma num_run_float rest h f e j h' f' e' :
  num_run rest h f e j h' f' e' -> f = true -> f' = true.
Proof. induction 1; auto. Qed.

Lemma num_run_hex rest h f e j h' f' e' :
  num_run rest h f e j h' f' e' -> h = true -> h' = true.
Proof. induction 1; auto. Qed.

Lemma num_run_numchar c rest h f e j h' f' e' :
  num_run (c :: rest) h f e j h' f' e' -> nasm_isnumchar c = true -> 1 <= j.
Proof. inversion 1; subst; intros; try lia; congruence. Qed.

(** A [p] or [P] among the bytes the loop takes makes the number a float,
    and a sign right after it is taken too. *)
Lemma num_run_p rest h f e j h' f' e' :
  num_run rest h f e j h' f' e' ->
  forall i c, i < j -> nth_error rest i = Some c -> is_p c = true ->
    f' = true
    /\ (forall d, nth_error rest (S i) = Some d -> is_sign d = true -> S i < j).
Proof.
  induction 1 as [c rest h f e He Hh Hp Hn Hd
                 |c d rest h f e j h' f' e' He Hd Hrun IH
                 |c d rest h f e j h' f' e' He Hd Hrun IH
                 |c rest h f e j h' f' e' He Hh Hrun IH
                 |c d rest h f e j h' f' e' He Hh Hp Hd Hrun IH
                 |c d rest h f e j h' f' e' He Hh Hp Hd Hrun IH
                 |c rest h f e j h' f' e' He Hh Hp Hn Hrun IH
                 |c rest h f e j h' f' e' He Hh Hp Hn Hd Hrun IH];
    intros i x Hi Hx Hpx.
  - lia.
  - destruct i as [|[|i]]; simpl in Hx.
    + injection Hx as ->. apply andb_true_iff in He. destruct He as [_ He].
      destruct (is_e_cases _ He) as [-> | ->]; discriminate.
    + injection Hx as ->.
      destruct (is_sign_cases _ Hd) as [-> | ->]; discriminate.
    + destruct (IH i x) as [Hf Hs]; [lia | assumption | assumption |].
      split; [assumption|]. intros d0 Hd0 Hs0. simpl in Hd0.
      specialize (Hs d0 Hd0 Hs0). lia.
  - destruct i as [|i]; simpl in Hx.
    + injection Hx as ->. apply andb_true_iff in He. destruct He as [_ He].
      destruct (is_e_cases _ He) as [-> | ->]; discriminate.
    + destruct (IH i x) as [Hf Hs]; [lia | assumption | assumption |].
      split; [assumption|]. intros d0 Hd0 Hs0. simpl in Hd0.
      specialize (Hs d0 Hd0 Hs0). lia.
  - destruct i as [|i]; simpl in Hx.
    + injection Hx as ->. unfold is_hexmark in Hh.
      destruct (is_p_cases _ Hpx) as [-> | ->]; discriminate.
    + destruct (IH i x) as [Hf Hs]; [lia | assumption | assumption |].
      split; [assumption|]. intros d0 Hd0 Hs0. simpl in Hd0.
      specialize (Hs d0 Hd0 Hs0). lia.
  - destruct i as [|[|i]]; simpl in Hx.
    + split; [eapply num_run_float; eauto|]. intros; lia.
    + injection Hx as ->.
      destruct (is_sign_cases _ Hd) as [-> | ->]; discriminate.
    + destruct (IH i x) as [Hf Hs]; [lia | assumption | assumption |].
      split; [assumption|]. intros d0 Hd0 Hs0. simpl in Hd0.
      specialize (Hs d0 Hd0 Hs0). lia.
  - destruct i as [|i]; simpl in Hx.
    + split; [eapply num_run_float; eauto|].
      intros d0 Hd0 Hs0. simpl in Hd0. injection Hd0 as ->. congruence.
    + destruct (IH i x) as [Hf Hs]; [lia | assumption | assumption |].
      split; [assumption|]. intros d0 Hd0 Hs0. simpl in Hd0.
      specialize (Hs d0 Hd0 Hs0). lia.
  - destruct i as [|i]; simpl in Hx.
    + injection Hx as ->. congruence.
    + destruct (IH i x) as [Hf Hs]; [lia | assumption | assumption |].
      split; [assumption|]. intros d0 Hd0 Hs0. simpl in Hd0.
      specialize (Hs d0 Hd0 Hs0). lia.
  - destruct i as [|i]; simpl in Hx.
    + injection Hx as ->. congruence.
    + destruct (IH i x) as [Hf Hs]; [lia | assumption | assumption |].
      split; [assumption|]. intros d0 Hd0 Hs0. simpl in Hd0.
      specialize (Hs d0 Hd0 Hs0). lia.
Qed.

(** An [e] or [E] met while the number is not marked hexadecimal and
    followed by a sign makes the number a float, and the sign is taken. *)
Lemma num_run_exp_sign rest h f e j h' f' e' :
  num_run rest h f e j h' f' e' ->
  h = false ->
  forall i c d,
    i < j -> Forall (fun x => is_hexmark x = false) (firstn i rest) ->
    nth_error rest i = Some c -> is_e c = true ->
    nth_error rest (S i) = Some d -> is_sign d = true ->
    f' = true /\ S i < j.
Proof.
  induction 1 as [c rest h f e He Hh Hp Hn Hd
                 |c d rest h f e j h' f' e' He Hd Hrun IH
                 |c d rest h f e j h' f' e' He Hd Hrun IH
                 |c rest h f e j h' f' e' He Hh Hrun IH
                 |c d rest h f e j h' f' e' He Hh Hp Hd Hrun IH
                 |c d rest h f e j h' f' e' He Hh Hp Hd Hrun IH
                 |c rest h f e j h' f' e' He Hh Hp Hn Hrun IH
                 |c rest h f e j h' f' e' He Hh Hp Hn Hd Hrun IH];
    intros Hhex i x y Hi Hpre Hx Hex Hy Hsy; subst h; simpl negb in He;
    rewrite ?andb_true_l in He.
  - lia.
  - destruct i as [|[|i]]; simpl in Hx, Hy, Hpre.
    + split; [eapply num_run_float; eauto | lia].
    + injection Hx as ->.
      destruct (is_sign_cases _ Hd) as [-> | ->]; discriminate.
    + inversion Hpre as [|? ? _ Hpre']; subst.
      inversion Hpre' as [|? ? _ Hpre'']; subst.
      destruct (IH eq_refl i x y) as [Hf Hs]; auto; [lia|].
      split; [assumption | lia].
  - destruct i as [|i]; simpl in Hx, Hy, Hpre.
    + injection Hy as ->. congruence.
    + inversion Hpre as [|? ? _ Hpre']; subst.
      destruct (IH eq_refl i x y) as [Hf Hs]; auto; [lia|].
      split; [assumption | lia].
  - destruct i as [|i]; simpl in Hx, Hy, Hpre.
    + injection Hx as ->. congruence.
    + inversion Hpre as [|? ? Hc _]; subst. congruence.
  - destruct i as [|[|i]]; simpl in Hx, Hy, Hpre.
    + injection Hx as ->. congruence.
    + injection Hx as ->.
      destruct (is_sign_cases _ Hd) as [-> | ->]; discriminate.
    + inversion Hpre as [|? ? _ Hpre']; subst.
      inversion Hpre' as [|? ? _ Hpre'']; subst.
      destruct (IH eq_refl i x y) as [Hf Hs]; auto; [lia|].
      split; [assumption | lia].
  - destruct i as [|i]; simpl in Hx, Hy, Hpre.
    + injection Hx as ->. congruence.
    + inversion Hpre as [|? ? _ Hpre']; subst.
      destruct (IH eq_refl i x y) as [Hf Hs]; auto; [lia|].
      split; [assumption | lia].
  - destruct i as [|i]; simpl in Hx, Hy, Hpre.
    + injection Hx as ->. congruence.
    + inversion Hpre as [|? ? _ Hpre']; subst.
      destruct (IH eq_refl i x y) as [Hf Hs]; auto; [lia|].
      split; [assumption | lia].
  - destruct i as [|i]; simpl in Hx, Hy, Hpre.
    + injection Hx as ->. congruence.
    + inversion Hpre as [|? ? _ Hpre']; subst.
      destruct (IH eq_refl i x y) as [Hf Hs]; auto; [lia|].
      split; [assumption | lia].
Qed.

(** A [.] the loop meets makes the number a float, unless the number
    characters include it. *)
Lemma num_run_dot rest h f e j h' f' e' :
  num_run rest h f e j h' f' e' ->
  nasm_isnumchar "." = false ->
  forall i, i < j -> nth_error rest i = Some "."%char -> f' = true.
Proof.
  induction 1 as [c rest h f e He Hh Hp Hn Hd
                 |c d rest h f e j h' f' e' He Hd Hrun IH
                 |c d rest h f e j h' f' e' He Hd Hrun IH
                 |c rest h f e j h' f' e' He Hh Hrun IH
                 |c d rest h f e j h' f' e' He Hh Hp Hd Hrun IH
                 |c d rest h f e j h' f' e' He Hh Hp Hd Hrun IH
                 |c rest h f e j h' f' e' He Hh Hp Hn Hrun IH
                 |c rest h f e j h' f' e' He Hh Hp Hn Hd Hrun IH];
    intros Hdot i Hi Hx.
  - lia.
  - destruct i as [|[|i]]; simpl in Hx.
    + injection Hx as ->. rewrite andb_false_r in He. discriminate.
    + injection Hx as ->. discriminate.
    + apply (IH Hdot i); [lia | assumption].
  - destruct i as [|i]; simpl in Hx.
    + injection Hx as ->. rewrite andb_false_r in He. discriminate.
    + apply (IH Hdot i); [lia | assumption].
  - destruct i as [|i]; simpl in Hx.
    + injection Hx as ->. discriminate.
    + apply (IH Hdot i); [lia | assumption].
  - destruct i as [|[|i]]; simpl in Hx.
    + injection Hx as ->. discriminate.
    + injection Hx as ->. discriminate.
    + apply (IH Hdot i); [lia | assumption].
  - destruct i as [|i]; simpl in Hx.
    + injection Hx as ->. discriminate.
    + apply (IH Hdot i); [lia | assumption].
  - destruct i as [|i]; simpl in Hx.
    + injection Hx as ->. congruence.
    + apply (IH Hdot i); [lia | assumption].
  - destruct i as [|i]; simpl in Hx.
    + eapply num_run_float; eauto.
    + apply (IH Hdot i); [lia | assumption].
Qed.

(** The byte the loop breaks on continues no number. *)
Lemma num_run_break rest h f e j h' f' e' :
  num_run rest h f e j h' f' e' ->
  exists d tl,
    skipn j rest = d :: tl
    /\ negb h' && is_e d = false /\ is_hexmark d = false /\ is_p d = false
    /\ nasm_isnumchar d = false /\ Ascii.eqb d "." = false.
Proof.
  induction 1 as [c rest h f e He Hh Hp Hn Hd
                 |c d rest h f e j h' f' e' He Hd Hrun IH
                 |c d rest h f e j h' f' e' He Hd Hrun IH
                 |c rest h f e j h' f' e' He Hh Hrun IH
                 |c d rest h f e j h' f' e' He Hh Hp Hd Hrun IH
                 |c d rest h f e j h' f' e' He Hh Hp Hd Hrun IH
                 |c rest h f e j h' f' e' He Hh Hp Hn Hrun IH
                 |c rest h f e j h' f' e' He Hh Hp Hn Hd Hrun IH];
    try exact IH.
  exists c, rest. auto 6.
Qed.

Ltac run_cases H :=
  induction H as [c rest h f e He Hh Hp Hn Hd
                 |c d rest h f e j h' f' e' He Hd Hrun IH
                 |c d rest h f e j h' f' e' He Hd Hrun IH
                 |c rest h f e j h' f' e' He Hh Hrun IH
                 |c d rest h f e j h' f' e' He Hh Hp Hd Hrun IH
                 |c d rest h f e j h' f' e' He Hh Hp Hd Hrun IH
                 |c rest h f e j h' f' e' He Hh Hp Hn Hrun IH
                 |c rest h f e j h' f' e' He Hh Hp Hn Hd Hrun IH].

Lemma all_between_tail f c (s : list ascii) k :
  all_between f (c :: s) 0 (S k) -> all_between f s 0 k.
Proof.
  intros H i y _ Hi Hy. apply (H (S i) y); [lia | lia | exact Hy].
Qed.

Lemma all_between_head f c (s : list ascii) k :
  all_between f (c :: s) 0 k -> f c = true.
Proof. intros H. apply (H 0 c); [lia | lia | reflexivity]. Qed.

(** The loop goes on over characters it takes wherever it meets them. *)
Lemma num_run_reach rest h f e j h' f' e' :
  num_run rest h f e j h' f' e' ->
  forall k, all_between goes_on rest 0 k -> k < j.
Proof.
  intros H. run_cases H; intros k Hall.
  - pose proof (all_between_head Hall) as Hc. unfold goes_on in Hc.
    rewrite Hn, Hd, Hh, Hp in Hc. discriminate.
  - destruct k as [|[|k]]; try lia.
    specialize (IH k (all_between_tail (all_between_tail Hall))). lia.
  - destruct k as [|k]; try lia.
    specialize (IH k (all_between_tail Hall)). lia.
  - destruct k as [|k]; try lia.
    specialize (IH k (all_between_tail Hall)). lia.
  - destruct k as [|[|k]]; try lia.
    specialize (IH k (all_between_tail (all_between_tail Hall))). lia.
  - destruct k as [|k]; try lia.
    specialize (IH k (all_between_tail Hall)). lia.
  - destruct k as [|k]; try lia.
    specialize (IH k (all_between_tail Hall)). lia.
  - destruct k as [|k]; try lia.
    specialize (IH k (all_between_tail Hall)). lia.
Qed.

(** While the number is not marked hexadecimal the loop goes on over
    [e] and [E] as well. *)
Lemma num_run_reach_decimal rest h f e j h' f' e' :
  num_run rest h f e j h' f' e' -> h = false ->
  forall k, all_between goes_on_decimal rest 0 k -> k < j.
Proof.
  intros H. run_cases H; intros Hh0 k Hall; subst h;
    try (pose proof (all_between_head Hall) as Hc; unfold goes_on_decimal in Hc).
  - simpl in He. rewrite Hh, Hn, Hd, Hp, He in Hc. discriminate.
  - destruct k as [|[|k]]; try lia.
    specialize (IH eq_refl k (all_between_tail (all_between_tail Hall))). lia.
  - destruct k as [|k]; try lia.
    specialize (IH eq_refl k (all_between_tail Hall)). lia.
  - rewrite Hh in Hc. discriminate.
  - destruct k as [|[|k]]; try lia.
    specialize (IH eq_refl k (all_between_tail (all_between_tail Hall))). lia.
  - destruct k as [|k]; try lia.
    specialize (IH eq_refl k (all_between_tail Hall)). lia.
  - destruct k as [|k]; try lia.
    specialize (IH eq_refl k (all_between_tail Hall)). lia.
  - destruct k as [|k]; try lia.
    specialize (IH eq_refl k (all_between_tail Hall)). lia.
Qed.

Lemma num_run_has_e rest h f e j h' f' e' :
  num_run rest h f e j h' f' e' -> e = true -> e' = true.
Proof. intros H. run_cases H; auto. Qed.

Lemma no_hexmark_tail c (s : list ascii) j :
  no_hexmark (c :: s) (S j) -> no_hexmark s j.
Proof. intros H i y Hi Hy. apply (H (S i) y); [lia | exact Hy]. Qed.

(** A number that starts unmarked and has no [h], [H], [x] or [X] ends
    unmarked, and an [e] or [E] in it sets "exponent seen". *)
Lemma num_run_decimal rest h f e j h' f' e' :
  num_run rest h f e j h' f' e' -> h = false -> no_hexmark rest j ->
  h' = false
  /\ forall k x, k < j -> nth_error rest k = Some x -> is_e x = true ->
                 e' = true.
Proof.
  intros H. run_cases H; intros Hh0 Hno; subst h.
  - split; [reflexivity|]. intros; lia.
  - destruct (IH eq_refl (no_hexmark_tail (no_hexmark_tail Hno))) as [Hh' He'].
    split; [exact Hh'|]. intros k x Hk Hx Hex.
    apply (num_run_has_e Hrun eq_refl).
  - destruct (IH eq_refl (no_hexmark_tail Hno)) as [Hh' He'].
    split; [exact Hh'|]. intros k x Hk Hx Hex.
    apply (num_run_has_e Hrun eq_refl).
  - rewrite (Hno 0 c) in Hh; [discriminate | lia | reflexivity].
  - destruct (IH eq_refl (no_hexmark_tail (no_hexmark_tail Hno))) as [Hh' He'].
    split; [exact Hh'|]. intros k x Hk Hx Hex.
    destruct k as [|[|k]]; simpl in Hx.
    + injection Hx as ->. simpl in He. congruence.
    + injection Hx as ->.
      destruct (is_sign_cases _ Hd) as [-> | ->]; discriminate.
    + apply (He' k x); [lia | assumption | assumption].
  - destruct (IH eq_refl (no_hexmark_tail Hno)) as [Hh' He'].
    split; [exact Hh'|]. intros k x Hk Hx Hex.
    destruct k as [|k]; simpl in Hx.
    + injection Hx as ->. simpl in He. congruence.
    + apply (He' k x); [lia | assumption | assumption].
  - destruct (IH eq_refl (no_hexmark_tail Hno)) as [Hh' He'].
    split; [exact Hh'|]. intros k x Hk Hx Hex.
    destruct k as [|k]; simpl in Hx.
    + injection Hx as ->. simpl in He. congruence.
    + apply (He' k x); [lia | assumption | assumption].
  - destruct (IH eq_refl (no_hexmark_tail Hno)) as [Hh' He'].
    split; [exact Hh'|]. intros k x Hk Hx Hex.
    destruct k as [|k]; simpl in Hx.
    + injection Hx as ->. simpl in He. congruence.
    + apply (He' k x); [lia | assumption | assumption].
Qed.

(** On a byte that continues no number the loop takes nothing. *)
Lemma num_run_stopped d rest h f e j h' f' e' :
  num_run (d :: rest) h f e j h' f' e' ->
  negb h && is_e d = false -> is_hexmark d = false -> is_p d = false ->
  nasm_isnumchar d = false -> Ascii.eqb d "." = false ->
  j = 0.
Proof.
  intros H He Hh Hp Hn Hd. inversion H; subst; congruence.
Qed.

Lemma sign_stops d h :
  is_sign d = true -> nasm_isnumchar d = false ->
  negb h && is_e d = false /\ is_hexmark d = false /\ is_p d = false
  /\ Ascii.eqb d "." = false.
Proof.
  intros Hs _. destruct (is_sign_cases _ Hs) as [-> | ->];
    rewrite andb_false_r; repeat split; reflexivity.
Qed.

Lemma marked_before_tail h c (s : list ascii) k :
  marked_before h (c :: s) (S k) -> is_hexmark c = false ->
  marked_before h s k.
Proof.
  intros [Hh | (i & y & Hi & Hy & Hm)] Hc; [left; exact Hh|].
  destruct i as [|i]; simpl in Hy.
  - injection Hy as ->. congruence.
  - right. exists i, y. split; [lia | auto].
Qed.

Lemma is_e_not_hexmark x : is_e x = true -> is_hexmark x = false.
Proof. intros H. destruct (is_e_cases _ H) as [-> | ->]; reflexivity. Qed.

Lemma is_e_not_p x : is_e x = true -> is_p x = false.
Proof. intros H. destruct (is_e_cases _ H) as [-> | ->]; reflexivity. Qed.

Lemma is_e_not_sign x : is_e x = true -> is_sign x = false.
Proof. intros H. destruct (is_e_cases _ H) as [-> | ->]; reflexivity. Qed.

Lemma is_e_not_dot x : is_e x = true -> Ascii.eqb x "." = false.
Proof. intros H. destruct (is_e_cases _ H) as [-> | ->]; reflexivity. Qed.

Lemma is_sign_not_hexmark x : is_sign x = true -> is_hexmark x = false.
Proof. intros H. destruct (is_sign_cases _ H) as [-> | ->]; reflexivity. Qed.

(** In a number marked hexadecimal an [e] or [E] is a digit like any
    other: the sign after it is not taken, and the number ends there. *)
Lemma num_run_hex_exp rest h f e j h' f' e' :
  num_run rest h f e j h' f' e' ->
  forall k x d,
    k < j -> marked_before h rest k ->
    nth_error rest k = Some x -> is_e x = true ->
    nth_error rest (S k) = Some d -> is_sign d = true ->
    nasm_isnumchar d = false ->
    j = S k.
Proof.
  intros H. run_cases H; intros k x y Hk Hm Hx Hex Hy Hsy Hny.
  - lia.
  - (* e and a sign, the number not marked *)
    apply andb_true_iff in He. destruct He as [Hnh Hec].
    apply negb_true_iff in Hnh. subst h.
    destruct k as [|[|k]]; simpl in Hx, Hy.
    + destruct Hm as [Hm | (i & ? & Hi & _)]; [discriminate | lia].
    + injection Hx as ->. rewrite (is_e_not_sign _ Hex) in Hd. discriminate.
    + assert (Hm' : marked_before false rest k).
      { apply marked_before_tail with (c := d);
          [|apply is_sign_not_hexmark; exact Hd].
        apply marked_before_tail with (c := c);
          [exact Hm | apply is_e_not_hexmark; exact Hec]. }
      rewrite (IH k x y); auto. lia.
  - apply andb_true_iff in He. destruct He as [Hnh Hec].
    apply negb_true_iff in Hnh. subst h.
    destruct k as [|k]; simpl in Hx, Hy.
    + destruct Hm as [Hm | (i & ? & Hi & _)]; [discriminate | lia].
    + assert (Hm' : marked_before false (d :: rest) k).
      { apply marked_before_tail with (c := c);
          [exact Hm | apply is_e_not_hexmark; exact Hec]. }
      rewrite (IH k x y); auto. lia.
  - (* h, H, x or X *)
    destruct k as [|k]; simpl in Hx, Hy.
    + injection Hx as ->. rewrite (is_e_not_hexmark _ Hex) in Hh. discriminate.
    + rewrite (IH k x y); auto; [lia | left; reflexivity].
  - (* p and a sign *)
    destruct k as [|[|k]]; simpl in Hx, Hy.
    + injection Hx as ->. rewrite (is_e_not_p _ Hex) in Hp. discriminate.
    + injection Hx as ->. rewrite (is_e_not_sign _ Hex) in Hd. discriminate.
    + assert (Hm' : marked_before h rest k).
      { apply marked_before_tail with (c := d);
          [|apply is_sign_not_hexmark; exact Hd].
        apply marked_before_tail with (c := c); assumption. }
      rewrite (IH k x y); auto. lia.
  - destruct k as [|k]; simpl in Hx, Hy.
    + injection Hx as ->. rewrite (is_e_not_p _ Hex) in Hp. discriminate.
    + assert (Hm' : marked_before h (d :: rest) k).
      { apply marked_before_tail with (c := c); assumption. }
      rewrite (IH k x y); auto. lia.
  - (* a number character *)
    destruct k as [|k]; simpl in Hx, Hy.
    + injection Hx as ->.
      destruct rest as [|d0 rest0]; [discriminate|].
      simpl in Hy. injection Hy as ->.
      destruct (sign_stops y h' Hsy Hny) as (_ & S2 & S3 & S4).
      assert (Hstop : forall b, negb b && is_e y = false).
      { intros b. exact (proj1 (sign_stops y b Hsy Hny)). }
      rewrite (num_run_stopped Hrun (Hstop h) S2 S3 Hny S4). reflexivity.
    + assert (Hm' : marked_before h rest k).
      { apply marked_before_tail with (c := c); assumption. }
      rewrite (IH k x y); auto. lia.
  - (* a dot *)
    destruct k as [|k]; simpl in Hx, Hy.
    + injection Hx as ->. rewrite (is_e_not_dot _ Hex) in Hd. discriminate.
    + assert (Hm' : marked_before h rest k).
      { apply marked_before_tail with (c := c); assumption. }
      rewrite (IH k x y); auto. lia.
Qed.

Lemma taken_shift (pfx s : list ascii) i y :
  taken s i y -> taken (pfx ++ s) (length pfx + i) y.
Proof.
  intros [H | [H | (Hs & i' & x & -> & Hx & Hc)]];
    [left; exact H | right; left; exact H |].
  right. right. split; [exact Hs|].
  exists (length pfx + i'), x. split; [lia|]. split; [|exact Hc].
  rewrite nth_error_app2 by lia.
  replace (length pfx + i' - length pfx) with i' by lia. exact Hx.
Qed.

Lemma taken_cons c (s : list ascii) i y :
  taken s i y -> taken (c :: s) (S i) y.
Proof. exact (@taken_shift [c] s i y). Qed.

Lemma taken_cons2 c d (s : list ascii) i y :
  taken s i y -> taken (c :: d :: s) (S (S i)) y.
Proof. exact (@taken_shift [c; d] s i y). Qed.

(** Every byte the loop takes is one it can take. *)
Lemma num_run_inside rest h f e j h' f' e' :
  num_run rest h f e j h' f' e' ->
  forall i y, i < j -> nth_error rest i = Some y -> taken rest i y.
Proof.
  intros H. run_cases H; intros i y Hi Hy.
  - lia.
  - apply andb_true_iff in He as [_ He].
    destruct i as [|[|i]]; simpl in Hy.
    + injection Hy as <-. right. left. exact He.
    + injection Hy as <-. right. right. split; [exact Hd|].
      exists 0, c. auto.
    + apply taken_cons2. apply IH; [lia | exact Hy].
  - apply andb_true_iff in He as [_ He].
    destruct i as [|i]; simpl in Hy.
    + injection Hy as <-. right. left. exact He.
    + apply taken_cons. apply IH; [lia | exact Hy].
  - destruct i as [|i]; simpl in Hy.
    + injection Hy as <-. left. unfold goes_on. rewrite Hh.
      rewrite !orb_true_r. reflexivity.
    + apply taken_cons. apply IH; [lia | exact Hy].
  - destruct i as [|[|i]]; simpl in Hy.
    + injection Hy as <-. left. unfold goes_on. rewrite Hp.
      rewrite !orb_true_r. reflexivity.
    + injection Hy as <-. right. right. split; [exact Hd|].
      exists 0, c. auto.
    + apply taken_cons2. apply IH; [lia | exact Hy].
  - destruct i as [|i]; simpl in Hy.
    + injection Hy as <-. left. unfold goes_on. rewrite Hp.
      rewrite !orb_true_r. reflexivity.
    + apply taken_cons. apply IH; [lia | exact Hy].
  - destruct i as [|i]; simpl in Hy.
    + injection Hy as <-. left. unfold goes_on. rewrite Hn. reflexivity.
    + apply taken_cons. apply IH; [lia | exact Hy].
  - destruct i as [|i]; simpl in Hy.
    + injection Hy as <-. left. unfold goes_on. rewrite Hd.
      rewrite orb_true_r. reflexivity.
    + apply taken_cons. apply IH; [lia | exact Hy].
Qed.

End NumberLoop.

(* ------------------------------------------------------------------ *)
(** ** The number branch *)

Section NumberBranch.

Context {E : Nasm}.

Lemma terminated_firstn_not_nul l :
  terminated l -> forall k, k < length l ->
  Forall (fun c => c <> NUL) (firstn k l).
Proof.
  induction 1 as [|c rest Hc Hrest IH]; intros k Hk; simpl in Hk.
  - assert (k = 0) by lia. subst. constructor.
  - destruct k as [|k]; simpl; constructor; [assumption|].
    apply IH. lia.
Qed.

Lemma stdscan_pop_last m ts blk :
  stdscan_tempstorage m = ts ++ [blk] ->
  stdscan_pop m = Some (tt, with_tempstorage ts m).
Proof.
  intros H. unfold stdscan_pop. rewrite H.
  rewrite removelast_last.
  destruct (ts ++ [blk]) eqn:Heq; [|reflexivity].
  destruct ts; discriminate.
Qed.

Lemma stdscan_token_num_rest tv :
  stdscan_token_num tv =
  (r <- get_bufptr ;;
   c <- peek 0 ;;
   is_hex <- (if Ascii.eqb c "$" then bump 1 ;;; ret true else ret false) ;;
   num_rest r is_hex tv).
Proof. reflexivity. Qed.

Lemma num_rest_spec r pre h0 tv m full :
  skipn r (line m) = full ->
  bufptr (scan m) = r + pre ->
  terminated full -> terminated (skipn pre full) ->
  nasm_isnumchar NUL = false ->
  (Z.of_nat (length (line m)) < 2 ^ 31)%Z ->
  exists j h f e m',
    number_loop (skipn pre full) (r + pre) h0 false false
    = Some (S (r + pre + j), h, f, e)
    /\ num_run (skipn pre full) h0 false false j h f e
    /\ terminated (skipn (pre + j) full)
    /\ let literal := firstn (pre + j) full in
       let is_float := if e && negb h then true else f in
       num_rest r h0 tv m
       = Some (number_token tv (stdscan_templen m) literal is_float, m')
       /\ moved j m m'
       /\ stdscan_tempstorage m'
          = (if is_float
             then stdscan_tempstorage m ++ [literal ++ [NUL]]
             else stdscan_tempstorage m)
       /\ trace m'
          = (if is_float then trace m
             else trace m ++ [Ev_readnum literal]).
Proof.
  intros Hfull Hbuf Hterm Hterm' Hnul Hlen.
  assert (Hcur : cursor m = skipn pre full).
  { unfold cursor. rewrite Hbuf, skipn_add_tail, Hfull. reflexivity. }
  destruct (number_loop_total Hnul (Nat.le_refl _) Hterm'
              (bufptr (scan m)) h0 false false)
    as (q & h & f & e & Hloop).
  destruct (number_loop_run (skipn pre full) (Nat.le_refl _) _ _ _ _ Hloop)
    as (j & -> & Hrun).
  exists j, h, f, e.
  pose proof Hloop as Hloop'. rewrite Hbuf in Hloop'.
  pose proof (num_run_length Hrun) as Hj.
  assert (Hterm_j : terminated (skipn (pre + j) full)).
  { rewrite skipn_add_tail. apply terminated_skipn; assumption. }
  assert (Hin : r + (pre + j) < length (line m)).
  { apply terminated_skipn_lt. rewrite skipn_add_tail, Hfull. assumption. }
  set (literal := firstn (pre + j) full).
  assert (Hlit_nn : Forall (fun c => c <> NUL) literal).
  { apply terminated_firstn_not_nul; [assumption|].
    rewrite <- Hfull, length_skipn. lia. }
  assert (Hcs : c_string (literal ++ [NUL]) = literal).
  { apply c_string_app_nul. exact Hlit_nn. }
  unfold num_rest. unfold bind at 1. unfold run_number_loop.
  fold (cursor m). rewrite Hcur, Hloop.
  unfold bind at 1. unfold get_bufptr at 1. simpl bufptr.
  unfold bind at 1. unfold set_bufptr at 1. simpl pred. rewrite Hbuf.
  rewrite Nat.pred_succ.
  replace (int_of (Z.of_nat (r + pre + j) - Z.of_nat r))
    with (Z.of_nat (pre + j)) by (rewrite int_of_small; lia).
  set (m1 := with_bufptr (r + pre + j) (with_bufptr _ m)).
  destruct (grow_fields m1) as (Gs & Gl & Gt & Gts).
  assert (Hcopy : stdscan_copy r (Z.of_nat (pre + j)) m1
                  = Some (TempPtr (stdscan_templen m),
                          with_tempstorage
                            (stdscan_tempstorage m ++ [literal ++ [NUL]])
                            (grow m1))).
  { rewrite stdscan_copy_eq by (simpl line; lia).
    simpl line. rewrite Hfull. reflexivity. }
  unfold number_token.
  destruct (if e && negb h then true else f) eqn:Hfl.
  - unfold bind at 1. rewrite Hcopy. unfold yield, ret.
    eexists. split; [exact Hloop'|]. split; [exact Hrun|]. split; [exact Hterm_j|].
    split; [reflexivity|].
    split; [|split].
    + unfold moved. simpl. rewrite Gs, Gl. simpl. repeat split. lia.
    + reflexivity.
    + simpl. rewrite Gt. reflexivity.
  - unfold bind at 1. rewrite Hcopy.
    unfold bind at 1.
    erewrite deref_temp by (simpl; apply nth_error_last).
    rewrite Hcs.
    unfold bind at 1. unfold emit at 1.
    destruct (readnum literal) as [value rn_error].
    unfold bind at 1.
    erewrite stdscan_pop_last by reflexivity.
    destruct rn_error; unfold yield, ret;
      (eexists; split; [exact Hloop'|]; split; [exact Hrun|]; split; [exact Hterm_j|];
       split; [reflexivity|]; split; [|split];
       [ unfold moved; simpl; rewrite Gs, Gl; simpl; repeat split; lia
       | reflexivity
       | simpl; rewrite Gt; reflexivity ]).
Qed.

End NumberBranch.

(* ------------------------------------------------------------------ *)
(** ** Quoted strings and braces *)

Section StringsAndBraces.

Context {E : Nasm}.

(** The quoted-string branch, when the unescape routine leaves [ep] on a
    byte [d] of the line. *)
Lemma str_spec tv m c rest mem' ep n d :
  cursor m = c :: rest ->
  nasm_unquote (line m) (bufptr (scan m)) = (mem', ep, n) ->
  nth_error mem' ep = Some d ->
  stdscan_token_str tv m
  = Some (let ty := if Ascii.eqb d c then TOKEN_STR else TOKEN_ERRSTR in
          (ty, set_type ty
                 (set_inttwo n (set_charptr (LinePtr (bufptr (scan m))) tv))),
          with_bufptr (if Ascii.eqb d c then ep + 1 else ep)
            (with_line mem'
               (with_trace (trace m ++ [Ev_unquote (bufptr (scan m))]) m))).
Proof.
  intros Hcur Hunq Hd.
  unfold stdscan_token_str. unfold bind at 1.
  rewrite peek_cursor, Hcur. simpl nth_error.
  unfold bind at 1. unfold get_bufptr at 1.
  unfold bind at 1. unfold call_unquote, bind, emit. simpl line.
  rewrite Hunq. unfold peek. simpl bufptr. simpl line.
  rewrite Nat.add_0_r, Hd.
  destruct (Ascii.eqb d c); reflexivity.
Qed.

Lemma nasm_skip_spaces_at q m s j :
  skipn q (line m) = s ->
  run_while space_char s q = Some (q + j) ->
  nasm_skip_spaces q m = Some (q + j, m).
Proof.
  intros Hs Hrun. unfold nasm_skip_spaces. rewrite Hs.
  change (fun c => negb (Ascii.eqb c NUL) && nasm_isspace c) with space_char.
  rewrite Hrun. reflexivity.
Qed.

Lemma space_char_nul : space_char NUL = false.
Proof. reflexivity. Qed.

Lemma c_string_firstn n s :
  Forall (fun c => c <> NUL) (firstn n s) ->
  firstn n (c_string s) = firstn n s.
Proof.
  revert s. induction n as [|n IH]; intros s H; [reflexivity|].
  destruct s as [|c s]; [reflexivity|].
  simpl in H. inversion H as [|? ? Hc Hs]; subst.
  simpl. rewrite eqb_nul_false by assumption. simpl. f_equal. apply IH.
  assumption.
Qed.

Lemma handle_brace_spec tv m content :
  deref (t_charptr tv) m = Some (content, m) ->
  stdscan_handle_brace tv m
  = Some (fst (brace_result tv content),
          with_trace (trace m ++ snd (brace_result tv content)) m).
Proof.
  intros Hd. unfold stdscan_handle_brace, brace_result.
  destruct (Z.land (t_flag tv) TFLAG_BRC_ANY =? 0)%Z.
  - unfold bind. rewrite Hd. reflexivity.
  - destruct (negb (Z.land (t_flag tv) TFLAG_BRC_OPT =? 0)%Z);
      [destruct (is_opmask_reg (t_integer tv))|];
      unfold yield, ret; simpl; rewrite app_nil_r;
      destruct m as [[p ps ss] ts sz l tr]; reflexivity.
Qed.

Lemma braces_spec tv m rest :
  cursor m = "{"%char :: rest ->
  terminated rest ->
  nasm_isbrcchar NUL = false ->
  (forall name tv, t_charptr (snd (nasm_token_hash name tv)) = t_charptr tv) ->
  (Z.of_nat (length (line m)) < 2 ^ 31)%Z ->
  exists j0 n j2 d tl,
    run_of space_char rest j0
    /\ run_of nasm_isbrcchar (skipn j0 rest) n
    /\ run_of space_char (skipn (j0 + n) rest) j2
    /\ skipn (j0 + n + j2) rest = d :: tl
    /\ terminated (d :: tl)
    /\ let content := firstn n (skipn j0 rest) in
       let copied := (Z.of_nat n <=? MAX_KEYWORD)%Z in
       let tv1 := if copied
                  then set_charptr (TempPtr (stdscan_templen m)) tv else tv in
       exists i tv' m',
         stdscan_parse_braces tv m = Some ((i, tv'), m')
         /\ moved (1 + j0 + n + j2 + (if Ascii.eqb d "}" then 1 else 0)) m m'
         /\ stdscan_tempstorage m'
            = (if copied then stdscan_tempstorage m ++ [content ++ [NUL]]
               else stdscan_tempstorage m)
         /\ (d <> "}"%char ->
             i = TOKEN_INVALID /\ tv' = set_type TOKEN_INVALID tv1
             /\ trace m' = trace m ++ [Ev_nonfatal_unterminated_braces])
         /\ (d = "}"%char -> copied = false ->
             i = TOKEN_INVALID /\ tv' = set_type TOKEN_INVALID tv1
             /\ trace m' = trace m ++ [Ev_nonfatal_not_valid_token content])
         /\ (d = "}"%char -> copied = true ->
             (i, tv') = fst (brace_result
                               (snd (nasm_token_hash content tv1)) content)
             /\ trace m'
                = trace m ++ Ev_token_hash content
                    :: snd (brace_result
                              (snd (nasm_token_hash content tv1)) content)).
Proof.
  intros Hcur Hrest Hnul Hhash Hlen.
  pose (p := bufptr (scan m)).
  assert (Hrest_at : skipn (p + 1) (line m) = rest).
  { rewrite Nat.add_1_r. apply (skipn_S_tail _ _ Hcur). }
  destruct (run_of_terminated space_char (p + 1) space_char_nul Hrest)
    as (j0 & Hrun0 & Hterm0 & Hof0).
  destruct (run_of_terminated nasm_isbrcchar (p + 1 + j0) Hnul Hterm0)
    as (n & Hrun1 & Hterm1 & Hof1).
  rewrite skipn_skipn in Hterm1.
  destruct (run_of_terminated space_char (p + 1 + j0 + n) space_char_nul Hterm1)
    as (j2 & Hrun2 & Hterm2 & Hof2).
  rewrite skipn_skipn in Hterm2.
  destruct (skipn (j2 + (n + j0)) rest) as [|d tl] eqn:Hd;
    [inversion Hterm2|].
  exists j0, n, j2, d, tl.
  replace (j0 + n) with (n + j0) by lia.
  replace (n + j0 + j2) with (j2 + (n + j0)) by lia.
  split; [exact Hof0|]. split; [exact Hof1|]. split; [exact Hof2|].
  split; [exact Hd|]. split; [exact Hterm2|].
  intros content copied tv1. subst copied tv1.
  remember (Z.of_nat n <=? MAX_KEYWORD)%Z as copied eqn:Hcopied_def.
  set (tv1 := if copied
              then set_charptr (TempPtr (stdscan_templen m)) tv else tv).
  assert (Hin : p + 1 + j0 + n + j2 < length (line m)).
  { apply terminated_skipn_lt.
    replace (p + 1 + j0 + n + j2) with (p + 1 + (j2 + (n + j0))) by lia.
    rewrite skipn_add_tail, Hrest_at, Hd. exact Hterm2. }
  assert (Hcontent_nn : Forall (fun c => c <> NUL) content).
  { apply (Forall_true_not_nul _ Hnul). apply Hof1. }
  unfold stdscan_parse_braces.
  unfold bind at 1. unfold bump at 1. fold p.
  unfold bind at 1. unfold get_bufptr at 1. simpl bufptr.
  unfold bind at 1.
  erewrite nasm_skip_spaces_at by (simpl line; eassumption).
  unfold bind at 1. unfold set_bufptr at 1.
  unfold bind at 1.
  rewrite advance_while_at with (s := skipn j0 rest) (j := n);
    [ | unfold cursor; simpl; rewrite skipn_add_tail, Hrest_at; reflexivity
      | simpl bufptr; exact Hrun1 ].
  simpl bufptr.
  unfold bind at 1. unfold get_bufptr at 1. simpl bufptr.
  replace (int_of (Z.of_nat (p + 1 + j0 + n) - Z.of_nat (p + 1 + j0)))
    with (Z.of_nat n) by (rewrite int_of_small; lia).
  rewrite <- Hcopied_def.
  change (with_bufptr (p + 1 + j0 + n)
            (with_bufptr (p + 1 + j0) (with_bufptr (p + 1) m)))
    with (with_bufptr (p + 1 + j0 + n) m).
  set (m3 := with_bufptr (p + 1 + j0 + n) m).
  destruct (grow_fields m3) as (Gs & Gl & Gt & Gts).
  set (m4 := if copied
             then with_tempstorage
                    (stdscan_tempstorage m ++ [content ++ [NUL]]) (grow m3)
             else m3).
  assert (Hm4 : line m4 = line m /\ pushback (scan m4) = pushback (scan m)
                /\ bufptr (scan m4) = p + 1 + j0 + n
                /\ trace m4 = trace m
                /\ stdscan_tempstorage m4
                   = (if copied
                      then stdscan_tempstorage m ++ [content ++ [NUL]]
                      else stdscan_tempstorage m)).
  { unfold m4. destruct copied; simpl; rewrite ?Gs, ?Gl, ?Gt; auto. }
  destruct Hm4 as (Hl4 & Hps4 & Hb4 & Htr4 & Hts4).
  assert (Hfirst : (tv0 <- (if copied
                            then txt <- stdscan_copy (p + 1 + j0) (Z.of_nat n) ;;
                                 ret (set_charptr txt tv)
                            else ret tv) ;; ret tv0) m3
                   = Some (tv1, m4)).
  { unfold tv1, m4. destruct copied.
    - unfold bind. rewrite stdscan_copy_eq by (simpl line; lia).
      simpl line. rewrite skipn_add_tail, Hrest_at. reflexivity.
    - reflexivity. }
  unfold bind at 1. unfold bind at 1 in Hfirst.
  destruct ((if copied
             then txt <- stdscan_copy (p + 1 + j0) (Z.of_nat n) ;;
                  ret (set_charptr txt tv)
             else ret tv) m3) as [[tv0 m0]|]; [|discriminate].
  injection Hfirst as -> ->.
  clearbody m4.
  unfold bind at 1.
  erewrite nasm_skip_spaces_at with (s := skipn (n + j0) rest) (j := j2);
    [ | rewrite Hl4;
        replace (p + 1 + j0 + n) with (p + 1 + (n + j0)) by lia;
        rewrite skipn_add_tail, Hrest_at; reflexivity
      | exact Hrun2 ].
  unfold bind at 1. unfold set_bufptr at 1.
  unfold bind at 1. unfold peek at 1. simpl bufptr. simpl line.
  replace (nth_error (line m4) (p + 1 + j0 + n + j2 + 0)) with (Some d).
  2:{ rewrite Hl4, Nat.add_0_r.
      replace (p + 1 + j0 + n + j2) with (p + 1 + (j2 + (n + j0))) by lia.
      rewrite <- (Nat.add_0_r (p + 1 + (j2 + (n + j0)))).
      rewrite <- nth_error_skipn, skipn_add_tail, Hrest_at, Hd. reflexivity. }
  assert (Hderef : copied = true ->
                   forall m5, stdscan_tempstorage m5 = stdscan_tempstorage m4 ->
                              deref (TempPtr (stdscan_templen m)) m5
                              = Some (content, m5)).
  { intros Hc m5 H5. erewrite deref_temp.
    - rewrite c_string_app_nul by exact Hcontent_nn. reflexivity.
    - rewrite H5, Hts4, Hc. apply nth_error_last. }
  destruct (Ascii.eqb d "}") eqn:Hclose.
  - apply Ascii.eqb_eq in Hclose. subst d. cbv beta iota delta [negb].
    unfold bind at 1. unfold bump at 1. simpl bufptr.
    replace (Z.of_nat n >? MAX_KEYWORD)%Z with (negb copied)
      by (rewrite Hcopied_def, Z.gtb_ltb, Z.leb_antisym, negb_involutive;
          reflexivity).
    clear Hcopied_def.
    destruct copied eqn:Hcopied; subst tv1; cbv beta iota delta [negb].
    + unfold bind at 1. simpl t_charptr.
      rewrite Hderef by reflexivity.
      unfold bind at 1. unfold emit at 1.
      rewrite handle_brace_spec with (content := content).
      2:{ rewrite Hhash. simpl t_charptr.
          apply Hderef; reflexivity. }
      destruct (brace_result (snd (nasm_token_hash content _)) content)
        as [[i tv'] extra] eqn:Hres.
      exists i, tv'. eexists. split; [reflexivity|].
      split; [unfold moved; simpl; rewrite Hl4, Hps4; fold p;
              repeat split; lia|].
      split; [simpl; exact Hts4|].
      split; [congruence|]. split; [discriminate|].
      intros _ _. split; [reflexivity|].
      simpl. rewrite Htr4, <- app_assoc. reflexivity.
    + unfold bind at 1. unfold deref at 1. simpl line. rewrite Hl4.
      destruct (Nat.ltb_spec (p + 1 + j0) (length (line m))) as [_|]; [|lia].
      unfold bind at 1. unfold emit at 1. unfold yield, ret.
      do 3 eexists. split; [reflexivity|].
      split; [unfold moved; simpl; rewrite Hl4, Hps4; fold p;
              repeat split; lia|].
      split; [simpl; exact Hts4|].
      split; [congruence|]. split; [|discriminate].
      intros _ _. split; [reflexivity|]. split; [reflexivity|].
      simpl. rewrite Htr4. do 3 f_equal.
      unfold precision. destruct (Z.ltb_spec (Z.of_nat n) 0); [lia|].
      rewrite Nat2Z.id, skipn_add_tail, Hrest_at.
      apply c_string_firstn. exact Hcontent_nn.
  - cbv beta iota delta [negb].
    unfold bind at 1. unfold emit at 1. unfold yield, ret.
    do 3 eexists. split; [reflexivity|].
    split; [unfold moved; simpl; rewrite Hl4, Hps4; fold p;
            repeat split; lia|].
    split; [simpl; exact Hts4|].
    apply Ascii.eqb_neq in Hclose.
    split; [|split; intros; congruence].
    intros _. split; [reflexivity|]. split; [reflexivity|].
    simpl. rewrite Htr4. reflexivity.
Qed.

End StringsAndBraces.

(* ------------------------------------------------------------------ *)
(** ** A whole scan *)

Section Scan.

Context {E : Nasm}.

Lemma stdscan_at tv0 m q c rest :
  lexeme_at m q (c :: rest) ->
  stdscan tv0 m
  = (if Ascii.eqb c NUL then yield TOKEN_EOS (fresh_token q)
     else
       '(i, tv) <- stdscan_token (fresh_token q) ;;
       p' <- get_bufptr ;;
       ret (i, set_len (int_of (Z.of_nat p' - Z.of_nat q)) tv))
      (with_bufptr q m).
Proof.
  intros (Hps & Hskip & Hs).
  unfold stdscan. rewrite Hps.
  unfold bind at 1. unfold get_bufptr at 1.
  unfold bind at 1. rewrite Hskip.
  unfold bind at 1. unfold set_bufptr at 1.
  unfold bind at 1. unfold peek at 1. simpl bufptr. simpl line.
  rewrite <- nth_error_skipn, Hs. reflexivity.
Qed.

Lemma cursor_at m q s : skipn q (line m) = s -> cursor (with_bufptr q m) = s.
Proof. intros H. exact H. Qed.

(** Which branch [stdscan_token] takes on a character other than [$]. *)
Lemma token_dispatch tv m c rest :
  cursor m = c :: rest -> c <> "$"%char ->
  stdscan_token tv m
  = (if nasm_isidstart c then stdscan_token_id tv
     else if nasm_isnumstart c then stdscan_token_num tv
     else if is_quote c then stdscan_token_str tv
     else if Ascii.eqb c "{" then stdscan_parse_braces tv
     else if Ascii.eqb c ";" then yield TOKEN_EOS tv
     else stdscan_token_op tv) m.
Proof.
  intros Hcur Hc. apply Ascii.eqb_neq in Hc.
  unfold stdscan_token. unfold bind, ret.
  rewrite peek_cursor, Hcur. simpl nth_error. cbv beta iota. rewrite Hc.
  destruct (nasm_isidstart c); reflexivity.
Qed.

(** Which branch [stdscan_token] takes on a [$]. *)
Lemma token_dispatch_dollar tv m c1 rest1 :
  cursor m = "$"%char :: c1 :: rest1 ->
  stdscan_token tv m
  = (if nasm_isidstart "$" || nasm_isidstart c1 then stdscan_token_id tv
     else if negb (nasm_isnumchar c1) then
       fun m =>
         if Ascii.eqb c1 "$"
         then Some ((TOKEN_BASE, set_type TOKEN_BASE tv),
                    with_bufptr (bufptr (scan m) + 2) m)
         else Some ((TOKEN_HERE, set_type TOKEN_HERE tv),
                    with_bufptr (bufptr (scan m) + 1) m)
     else if nasm_isnumstart "$" then stdscan_token_num tv
     else stdscan_token_op tv) m.
Proof.
  intros Hcur.
  unfold stdscan_token. unfold bind, ret, bump, yield.
  repeat (rewrite peek_cursor, ?cursor_bump, Hcur; simpl skipn;
          simpl nth_error; cbv beta iota).
  change (Ascii.eqb "$" "$") with true. cbv beta iota.
  destruct (nasm_isidstart "$") eqn:Hd; simpl orb; cbv beta iota.
  - reflexivity.
  - repeat (rewrite peek_cursor, ?cursor_bump, Hcur; simpl skipn;
            simpl nth_error; cbv beta iota).
    destruct (nasm_isidstart c1); [reflexivity|].
    repeat (rewrite peek_cursor, ?cursor_bump, Hcur; simpl skipn;
            simpl nth_error; cbv beta iota).
    destruct (nasm_isnumchar c1); cbv beta iota delta [negb].
    + destruct (nasm_isnumstart "$"); reflexivity.
    + repeat (rewrite peek_cursor, ?cursor_bump, Hcur; simpl skipn;
              simpl nth_error; cbv beta iota).
      destruct (Ascii.eqb c1 "$").
      * simpl.
        replace (bufptr (scan m) + 1 + 1) with (bufptr (scan m) + 2) by lia.
        reflexivity.
      * reflexivity.
Qed.

Lemma lexeme_at_bounds m q s :
  lexeme_at m q s -> line (with_bufptr q m) = line m.
Proof. reflexivity. Qed.

(** A scan that starts on a number. *)
Lemma stdscan_number tv0 m q c rest :
  lexeme_at m q (c :: rest) ->
  terminated (c :: rest) -> c <> NUL ->
  nasm_isnumchar NUL = false ->
  (Z.of_nat (length (line m)) < 2 ^ 31)%Z ->
  nasm_isidstart c = false -> nasm_isnumstart c = true ->
  (c = "$"%char ->
   exists c1 rest1, rest = c1 :: rest1 /\ nasm_isidstart c1 = false
                    /\ nasm_isnumchar c1 = true) ->
  let pre := if Ascii.eqb c "$" then 1 else 0 in
  exists j h f e m',
    number_loop (skipn pre (c :: rest)) (q + pre) (Ascii.eqb c "$")
                false false
    = Some (S (q + pre + j), h, f, e)
    /\ num_run (skipn pre (c :: rest)) (Ascii.eqb c "$") false false j h f e
    /\ terminated (skipn (pre + j) (c :: rest))
    /\ let literal := firstn (pre + j) (c :: rest) in
       let is_float := if e && negb h then true else f in
       stdscan tv0 m
       = Some ((fst (number_token (fresh_token q) (stdscan_templen m)
                                  literal is_float),
                set_len (Z.of_nat (pre + j))
                  (snd (number_token (fresh_token q) (stdscan_templen m)
                                     literal is_float))),
               m')
       /\ line m' = line m
       /\ pushback (scan m') = []
       /\ bufptr (scan m') = q + (pre + j)
       /\ stdscan_tempstorage m'
          = (if is_float
             then stdscan_tempstorage m ++ [literal ++ [NUL]]
             else stdscan_tempstorage m)
       /\ trace m'
          = (if is_float then trace m
             else trace m ++ [Ev_readnum literal]).
Proof.
  intros Hlex Hterm Hc Hnul Hlen Hid Hnum Hdollar pre.
  pose proof Hlex as (Hps & Hskip & Hs).
  rewrite (stdscan_at tv0 Hlex).
  rewrite (eqb_nul_false Hc).
  set (m1 := with_bufptr q m).
  assert (Hcur1 : cursor m1 = c :: rest) by exact Hs.
  assert (Hrest : terminated rest) by (exact (terminated_tail Hterm Hc)).
  assert (Htok : stdscan_token (fresh_token q) m1
                 = num_rest q (Ascii.eqb c "$") (fresh_token q)
                     (with_bufptr (q + pre) m1)).
  { destruct (Ascii.eqb c "$") eqn:Hd.
    - apply Ascii.eqb_eq in Hd. subst c.
      destruct (Hdollar eq_refl) as (c1 & rest1 & -> & Hid1 & Hnum1).
      rewrite (token_dispatch_dollar _ _ Hcur1).
      rewrite Hid, Hid1, Hnum1, Hnum. simpl.
      rewrite stdscan_token_num_rest.
      unfold bind at 1. unfold get_bufptr at 1.
      unfold bind at 1. rewrite peek_cursor, Hcur1. simpl nth_error.
      cbv beta iota.
      reflexivity.
    - apply Ascii.eqb_neq in Hd.
      rewrite (token_dispatch _ _ Hcur1 Hd).
      rewrite Hid, Hnum.
      rewrite stdscan_token_num_rest.
      unfold bind at 1. unfold get_bufptr at 1.
      unfold bind at 1. rewrite peek_cursor, Hcur1. simpl nth_error.
      cbv beta iota.
      apply Ascii.eqb_neq in Hd. rewrite Hd.
      unfold bind at 1. unfold ret at 1. unfold pre.
      f_equal. unfold m1, with_bufptr. simpl. rewrite Nat.add_0_r.
      reflexivity. }
  assert (Hterm' : terminated (skipn pre (c :: rest))).
  { unfold pre. destruct (Ascii.eqb c "$"); simpl; assumption. }
  destruct (@num_rest_spec E q pre (Ascii.eqb c "$") (fresh_token q)
              (with_bufptr (q + pre) m1) (c :: rest))
    as (j & h & f & e & m' & Hloop & Hrun & Htj & Hres & Hmoved & Hts & Htr);
    try assumption; try reflexivity.
  exists j, h, f, e, m'.
  split; [exact Hloop|]. split; [exact Hrun|]. split; [exact Htj|].
  intros literal is_float.
  destruct Hmoved as (Hl & Hpsm & Hb). simpl in Hl, Hpsm, Hb.
  unfold bind at 1. rewrite Htok, Hres.
  fold literal. fold is_float.
  change (stdscan_templen (with_bufptr (q + pre) m1))
    with (stdscan_templen m).
  destruct (number_token (fresh_token q) (stdscan_templen m) literal is_float)
    as [i tv] eqn:Hnt.
  unfold bind at 1. unfold get_bufptr at 1. unfold ret. rewrite Hb.
  replace (int_of (Z.of_nat (q + pre + j) - Z.of_nat q))
    with (Z.of_nat (pre + j)).
  2:{ rewrite int_of_small; [lia|].
      assert (q + pre + j < length (line m)).
      { apply terminated_skipn_lt.
        replace (q + pre + j) with (q + (pre + j)) by lia.
        rewrite skipn_add_tail, Hs. exact Htj. }
      lia. }
  simpl fst. simpl snd.
  split; [reflexivity|]. split; [exact Hl|].
  split; [rewrite Hpsm; exact Hps|]. split; [lia|].
  split; [exact Hts | exact Htr].
Qed.

End Scan.

(* ------------------------------------------------------------------ *)
(** ** Numeric literals *)

Section Numbers.

Context {E : Nasm}.

Lemma token_text_last m' slot (ts : list (list ascii)) txt tv :
  stdscan_tempstorage m' = ts ++ [txt ++ [NUL]] ->
  slot = length ts ->
  Forall (fun c => c <> NUL) txt ->
  t_charptr tv = TempPtr slot ->
  token_text m' tv = Some txt.
Proof.
  intros Hts -> Hnn Hptr. unfold token_text. rewrite Hptr, Hts.
  rewrite nth_error_last. simpl. rewrite c_string_app_nul by assumption.
  reflexivity.
Qed.

(** A number scanned as a float: the token and its text. *)
Lemma float_token q slot literal :
  number_token (fresh_token q) slot literal true
  = (TOKEN_FLOAT, set_type TOKEN_FLOAT (set_charptr (TempPtr slot)
                                                    (fresh_token q))).
Proof. reflexivity. Qed.

(** C2, the rule.  When the number loop ends with "exponent seen" set and
    the literal not marked hexadecimal, the token is a float token with
    the literal as its text, whatever the third flag. *)
Lemma exponent_not_hex_is_float tv0 m q c rest :
  lexeme_at m q (c :: rest) ->
  terminated (c :: rest) -> c <> NUL ->
  number_start c rest ->
  nasm_isnumchar NUL = false ->
  (Z.of_nat (length (line m)) < 2 ^ 31)%Z ->
  let pre := if Ascii.eqb c "$" then 1 else 0 in
  exists j is_hex is_float has_e i tv m',
    number_loop (skipn pre (c :: rest)) (q + pre) (Ascii.eqb c "$")
                false false
    = Some (S (q + pre + j), is_hex, is_float, has_e)
    /\ stdscan tv0 m = Some ((i, tv), m')
    /\ bufptr (scan m') = q + (pre + j)
    /\ (has_e = true -> is_hex = false ->
        i = TOKEN_FLOAT /\ t_type tv = TOKEN_FLOAT
        /\ token_text m' tv = Some (firstn (pre + j) (c :: rest)))
    /\ (is_float = false -> has_e && negb is_hex = false ->
        stdscan_tempstorage m' = stdscan_tempstorage m
        /\ t_charptr tv = NULL
        /\ t_integer tv = fst (readnum (firstn (pre + j) (c :: rest)))
        /\ i = (if snd (readnum (firstn (pre + j) (c :: rest)))
                then TOKEN_ERRNUM else TOKEN_NUM)
        /\ t_type tv = i).
Proof.
  intros Hlex Hterm Hc (Hid & Hnum & Hdollar) Hnul Hlen pre.
  destruct (stdscan_number tv0 Hlex Hterm Hc Hnul Hlen Hid Hnum Hdollar)
    as (j & h & f & e & m' & Hloop & Hrun & Htj & Hres & Hl & Hps & Hb
        & Hts & _).
  fold pre in Hloop, Hrun, Htj, Hres, Hb, Hts.
  cbv zeta in Hres, Hts.
  eexists j, h, f, e, _, _, m'.
  split; [exact Hloop|]. split; [exact Hres|]. split; [exact Hb|].
  split.
  - intros -> ->. simpl in Hts. simpl.
    split; [reflexivity|]. split; [reflexivity|].
    eapply token_text_last; [exact Hts | reflexivity | | reflexivity].
    apply terminated_firstn_not_nul; [assumption|].
    apply terminated_skipn_lt in Htj. exact Htj.
  - intros -> Heh. rewrite Heh in *. unfold number_token.
    destruct (readnum (firstn (pre + j) (c :: rest))) as [v err].
    destruct err; simpl; auto.
Qed.

Lemma lexeme_at_reset m0 (buffer : list ascii) c rest :
  buffer = c :: rest -> space_char c = false ->
  lexeme_at (mk_machine (mk_state 0 [] ss_init) [] (stdscan_tempsize m0)
                        buffer (trace m0)) 0 (c :: rest).
Proof.
  intros -> Hsp. unfold lexeme_at. simpl.
  split; [reflexivity|]. split; [|reflexivity].
  unfold nasm_skip_spaces. simpl.
  change (negb (Ascii.eqb c NUL) && nasm_isspace c) with (space_char c).
  rewrite Hsp. reflexivity.
Qed.

(** The two lines of C2, scanned from their first character. *)
Lemma scan_1e13 m0 :
  nasm_isspace "1" = false -> nasm_isidstart "1" = false ->
  nasm_isnumstart "1" = true ->
  nasm_isnumchar "1" = true -> nasm_isnumchar "3" = true ->
  nasm_isnumchar NUL = false ->
  readnum (list_ascii_of_string "1e13h") = (7699%Z, false) ->
  (exists tv m',
      (stdscan_reset (line_of "1e13") ;;; stdscan zero_tokenval) m0
      = Some ((TOKEN_FLOAT, tv), m')
      /\ t_type tv = TOKEN_FLOAT
      /\ token_text m' tv = Some (list_ascii_of_string "1e13"))
  /\ (exists tv m',
         (stdscan_reset (line_of "1e13h") ;;; stdscan zero_tokenval) m0
         = Some ((TOKEN_NUM, tv), m')
         /\ t_type tv = TOKEN_NUM
         /\ t_integer tv = 7699%Z
         /\ t_charptr tv = NULL
         /\ stdscan_tempstorage m' = []).
Proof.
  intros Hsp Hid Hnum H1 H3 Hnul Hread.
  assert (Hstart : forall rest, number_start "1" rest).
  { intros rest. repeat split; try assumption. discriminate. }
  assert (Hspc : space_char "1" = false).
  { unfold space_char. rewrite Hsp. reflexivity. }
  split.
  - unfold bind. rewrite stdscan_reset_eq.
    set (m1 := mk_machine _ _ _ _ _).
    destruct (@exponent_not_hex_is_float zero_tokenval m1 0 "1"
                (list_ascii_of_string "e13" ++ [NUL]))
      as (j & h & f & e & i & tv & m' & Hloop & Hres & Hb & Hfloat & _);
      [ apply lexeme_at_reset; [reflexivity | exact Hspc]
      | repeat (constructor; try discriminate)
      | discriminate
      | apply Hstart
      | exact Hnul
      | simpl; lia
      | ].
    cbn in Hloop. rewrite ?H1, ?H3, ?Hnul in Hloop.
    injection Hloop as <- <- <- <-.
    destruct (Hfloat eq_refl eq_refl) as (-> & Hty & Htxt).
    exists tv, m'. split; [exact Hres|]. split; [exact Hty|]. exact Htxt.
  - unfold bind. rewrite stdscan_reset_eq.
    set (m1 := mk_machine _ _ _ _ _).
    destruct (@exponent_not_hex_is_float zero_tokenval m1 0 "1"
                (list_ascii_of_string "e13h" ++ [NUL]))
      as (j & h & f & e & i & tv & m' & Hloop & Hres & Hb & _ & Hint);
      [ apply lexeme_at_reset; [reflexivity | exact Hspc]
      | repeat (constructor; try discriminate)
      | discriminate
      | apply Hstart
      | exact Hnul
      | simpl; lia
      | ].
    cbn in Hloop. rewrite ?H1, ?H3, ?Hnul in Hloop.
    injection Hloop as <- <- <- <-.
    destruct (Hint eq_refl eq_refl) as (Hts & Hptr & Hval & Hi & Hty).
    cbn in Hval, Hi, Hread. rewrite Hread in Hval, Hi. cbn in Hval, Hi.
    subst i.
    exists tv, m'. split; [exact Hres|]. split; [exact Hty|].
    split; [exact Hval|]. split; [exact Hptr | exact Hts].
Qed.

Lemma all_between_skipn f (s : list ascii) pre k :
  all_between f s pre (pre + k) -> all_between f (skipn pre s) 0 k.
Proof.
  intros H i y _ Hi Hy. rewrite nth_error_skipn in Hy.
  apply (H (pre + i) y); [lia | lia | exact Hy].
Qed.

Lemma num_run_extent c rest j h f e :
  let pre := if Ascii.eqb c "$" then 1 else 0 in
  num_run (skipn pre (c :: rest)) (Ascii.eqb c "$") false false j h f e ->
  literal_extent c rest (pre + j).
Proof.
  intros pre Hrun. unfold literal_extent. fold pre.
  split; [|split; [|split]].
  - destruct (num_run_break Hrun) as (d & tl & Hs & _ & Hh & Hp & Hn & Hd).
    exists d, tl. rewrite skipn_add_tail. split; [exact Hs|].
    unfold goes_on. rewrite Hn, Hd, Hh, Hp. reflexivity.
  - intros i y Hlo Hi Hy.
    replace i with (pre + (i - pre)) in Hy by lia.
    rewrite <- nth_error_skipn in Hy.
    pose proof (num_run_inside Hrun (i := i - pre) ltac:(lia) Hy) as Ht.
    replace i with (length (firstn pre (c :: rest)) + (i - pre)).
    + rewrite <- (firstn_skipn pre (c :: rest)) at 1.
      apply taken_shift. exact Ht.
    + unfold pre. destruct (Ascii.eqb c "$"); simpl; lia.
  - intros k Hall. destruct (Nat.lt_ge_cases k pre) as [Hlt | Hge]; [lia|].
    replace k with (pre + (k - pre)) in Hall by lia.
    pose proof (num_run_reach Hrun (all_between_skipn Hall)). lia.
  - intros Hnd k Hall. apply Ascii.eqb_neq in Hnd.
    unfold pre in *. rewrite Hnd in *. simpl in *.
    apply (num_run_reach_decimal Hrun eq_refl Hall).
Qed.

Lemma extent_reaches c rest len k :
  literal_extent c rest len ->
  k < len \/ all_between goes_on (c :: rest)
                         (if Ascii.eqb c "$" then 1 else 0) k ->
  k < len.
Proof. intros (_ & _ & Hr & _) [H | H]; [exact H | apply Hr; exact H]. Qed.

(** Where the literal ends, from its bytes: after bytes the loop takes
    wherever it meets them, at a byte it cannot take. *)
Lemma extent_is c rest n k d :
  literal_extent c rest n ->
  nth_error (c :: rest) (S k) = Some d ->
  goes_on d = false -> is_e d = false -> is_sign d = false ->
  all_between goes_on (c :: rest) (if Ascii.eqb c "$" then 1 else 0) k
  \/ (c <> "$"%char /\ all_between goes_on_decimal (c :: rest) 0 k) ->
  (if Ascii.eqb c "$" then 1 else 0) <= S k ->
  n = S k.
Proof.
  intros (_ & Hin & Hr & Hrd) Hd Hg He Hs Hall Hpre.
  assert (Hk : k < n).
  { destruct Hall as [Hall | [Hc Hall]]; [exact (Hr _ Hall)|].
    exact (Hrd Hc _ Hall). }
  destruct (Nat.eq_dec n (S k)) as [|Hne]; [assumption|].
  exfalso.
  destruct (Hin (S k) d Hpre ltac:(lia) Hd) as [H | [H | [H _]]];
    congruence.
Qed.

Lemma offset_in_run c rest k (x : ascii) :
  let pre := if Ascii.eqb c "$" then 1 else 0 in
  nth_error (c :: rest) k = Some x -> x <> "$"%char ->
  exists k', k = pre + k'
             /\ nth_error (skipn pre (c :: rest)) k' = Some x.
Proof.
  intros pre Hx Hnd. unfold pre. destruct (Ascii.eqb c "$") eqn:Hd.
  - apply Ascii.eqb_eq in Hd. subst c. destruct k as [|k]; simpl in Hx.
    + injection Hx as <-. congruence.
    + exists k. split; [reflexivity | exact Hx].
  - exists k. split; [reflexivity | exact Hx].
Qed.

(** C4.  In a numeric literal every [p] or [P] makes the literal
    floating-point, whether or not the literal is marked hexadecimal and
    whatever precedes the [p]; it is part of the literal whenever the
    bytes before it are (number characters, say: no hexadecimal context
    is needed); a [+] or [-] right after it belongs to the literal; and
    the token returned is a float token whose text is the literal as it
    stands in the line, up to the first byte that continues no number. *)
Theorem C4_p_marks_float tv0 m q c rest :
  lexeme_at m q (c :: rest) ->
  terminated (c :: rest) -> c <> NUL ->
  number_start c rest ->
  nasm_isnumchar NUL = false ->
  (Z.of_nat (length (line m)) < 2 ^ 31)%Z ->
  let pre := if Ascii.eqb c "$" then 1 else 0 in
  exists len i tv m',
    stdscan tv0 m = Some ((i, tv), m')
    /\ bufptr (scan m') = q + len
    /\ literal_extent c rest len
    /\ forall k x,
         nth_error (c :: rest) k = Some x -> is_p x = true ->
         k < len \/ all_between goes_on (c :: rest) pre k ->
         k < len
         /\ i = TOKEN_FLOAT /\ t_type tv = TOKEN_FLOAT
         /\ token_text m' tv = Some (firstn len (c :: rest))
         /\ (forall d, nth_error (c :: rest) (S k) = Some d ->
                       is_sign d = true -> S k < len).
Proof.
  intros Hlex Hterm Hc (Hid & Hnum & Hdollar) Hnul Hlen pre.
  destruct (stdscan_number tv0 Hlex Hterm Hc Hnul Hlen Hid Hnum Hdollar)
    as (j & h & f & e & m' & _ & Hrun & Htj & Hres & Hl & Hps & Hb & Hts & _).
  fold pre in Hrun, Htj, Hres, Hb, Hts.
  cbv zeta in Hres, Hts.
  pose proof (num_run_extent c rest Hrun) as Hext. fold pre in Hext.
  eexists (pre + j), _, _, m'.
  split; [exact Hres|]. split; [exact Hb|]. split; [exact Hext|].
  intros k x Hx Hp Hin.
  pose proof (extent_reaches Hext Hin) as Hk.
  split; [exact Hk|].
  destruct (offset_in_run c rest k Hx) as (k' & -> & Hx').
  { intros ->. discriminate. }
  fold pre in Hx', Hk |- *.
  assert (Hk' : k' < j) by lia.
  destruct (num_run_p Hrun Hk' Hx' Hp) as [Hf Hsign].
  subst f.
  assert (Hfl : (if e && negb h then true else true) = true)
    by (destruct (e && negb h); reflexivity).
  rewrite Hfl in *. rewrite float_token. simpl fst. simpl snd.
  split; [reflexivity|]. split; [reflexivity|].
  split.
  - eapply token_text_last; [exact Hts | reflexivity | | reflexivity].
    apply terminated_firstn_not_nul; [assumption|].
    apply terminated_skipn_lt in Htj. exact Htj.
  - intros d Hd Hs.
    assert (S k' < j); [|lia].
    apply (Hsign d); [|assumption].
    rewrite nth_error_skipn.
    replace (pre + S k') with (S (pre + k')) by lia. exact Hd.
Qed.

Lemma no_hexmark_Forall (s : list ascii) :
  forall k, no_hexmark s k ->
            Forall (fun y => is_hexmark y = false) (firstn k s).
Proof.
  induction s as [|c s IH]; intros k H.
  - rewrite firstn_nil. constructor.
  - destruct k as [|k]; [constructor|]. simpl. constructor.
    + apply (H 0 c); [lia | reflexivity].
    + apply IH. apply (no_hexmark_tail H).
Qed.

Lemma all_decimal_no_hexmark (s : list ascii) k :
  all_between goes_on_decimal s 0 k -> no_hexmark s k.
Proof.
  intros H i y Hi Hy.
  assert (Hg : goes_on_decimal y = true) by (apply (H i y); [lia | lia | exact Hy]).
  unfold goes_on_decimal in Hg. apply andb_true_iff in Hg.
  destruct Hg as [Hg _]. apply negb_true_iff in Hg. exact Hg.
Qed.

Lemma skipn_nth (s : list ascii) :
  forall n d, nth_error s n = Some d -> skipn n s = d :: skipn (S n) s.
Proof.
  induction s as [|c s IH]; intros n d H; destruct n as [|n];
    try discriminate.
  - injection H as ->. reflexivity.
  - simpl in H. rewrite (skipn_cons n c s). apply IH. exact H.
Qed.

(** C3, as the code has it.  In a numeric literal an [e] or [E] that is
    met while the literal is not marked hexadecimal (no leading [$], no
    [h], [H], [x] or [X] before it) and is immediately followed by [+] or
    [-] makes the literal floating-point, and the sign belongs to the
    literal.  In a literal that is marked hexadecimal, by a leading [$] or
    by an [h], [H], [x] or [X] before it, an [e] or [E] is a digit like
    any other: the sign after it is not taken, the literal ends with the
    [e] and the cursor is left on the sign. *)
Theorem C3_exponent_sign tv0 m q c rest :
  lexeme_at m q (c :: rest) ->
  terminated (c :: rest) -> c <> NUL ->
  number_start c rest ->
  nasm_isnumchar NUL = false ->
  (Z.of_nat (length (line m)) < 2 ^ 31)%Z ->
  let pre := if Ascii.eqb c "$" then 1 else 0 in
  exists len i tv m',
    stdscan tv0 m = Some ((i, tv), m')
    /\ bufptr (scan m') = q + len
    /\ literal_extent c rest len
    /\ (forall k x d,
          nth_error (c :: rest) k = Some x -> is_e x = true ->
          nth_error (c :: rest) (S k) = Some d -> is_sign d = true ->
          c <> "$"%char -> no_hexmark (c :: rest) k ->
          k < len \/ all_between goes_on_decimal (c :: rest) 0 k ->
          S k < len
          /\ i = TOKEN_FLOAT /\ t_type tv = TOKEN_FLOAT
          /\ token_text m' tv = Some (firstn len (c :: rest)))
    /\ (forall k x d,
          nth_error (c :: rest) k = Some x -> is_e x = true ->
          nth_error (c :: rest) (S k) = Some d -> is_sign d = true ->
          nasm_isnumchar d = false ->
          marked_before (Ascii.eqb c "$") (c :: rest) k ->
          k < len \/ all_between goes_on (c :: rest) pre k ->
          len = S k
          /\ cursor m' = d :: skipn (S (S k)) (c :: rest)).
Proof.
  intros Hlex Hterm Hc (Hid & Hnum & Hdollar) Hnul Hlen pre.
  destruct (stdscan_number tv0 Hlex Hterm Hc Hnul Hlen Hid Hnum Hdollar)
    as (j & h & f & e & m' & _ & Hrun & Htj & Hres & Hl & Hps & Hb & Hts & _).
  fold pre in Hrun, Htj, Hres, Hb, Hts.
  cbv zeta in Hres, Hts.
  pose proof (num_run_extent c rest Hrun) as Hext. fold pre in Hext.
  eexists (pre + j), _, _, m'.
  split; [exact Hres|]. split; [exact Hb|]. split; [exact Hext|].
  split.
  - intros k x d Hx He Hd Hs Hnd Hno Hin.
    assert (Hk : k < pre + j).
    { destruct Hin as [Hk | Hall]; [exact Hk|].
      destruct Hext as (_ & _ & _ & Hr). apply (Hr Hnd). exact Hall. }
    apply Ascii.eqb_neq in Hnd. unfold pre in *. rewrite Hnd in *.
    simpl in Hk, Hrun |- *.
    destruct (num_run_exp_sign Hrun eq_refl Hk (no_hexmark_Forall Hno)
                               Hx He Hd Hs) as [Hf Hlt].
    subst f.
    assert (Hfl : (if e && negb h then true else true) = true)
      by (destruct (e && negb h); reflexivity).
    rewrite Hfl in *. rewrite float_token. simpl fst. simpl snd.
    split; [exact Hlt|]. split; [reflexivity|]. split; [reflexivity|].
    eapply token_text_last; [exact Hts | reflexivity | | reflexivity].
    apply terminated_firstn_not_nul; [assumption|].
    apply terminated_skipn_lt in Htj. exact Htj.
  - intros k x d Hx He Hd Hs Hnd Hm Hin.
    pose proof (extent_reaches Hext Hin) as Hk.
    destruct (offset_in_run c rest k Hx) as (k' & -> & Hx').
    { intros ->. discriminate. }
    fold pre in Hx', Hk, Hd |- *.
    assert (Hk' : k' < j) by lia.
    assert (Hm' : marked_before (Ascii.eqb c "$") (skipn pre (c :: rest)) k').
    { unfold pre in *. destruct (Ascii.eqb c "$") eqn:Hdol.
      - left. reflexivity.
      - exact Hm. }
    assert (Hd' : nth_error (skipn pre (c :: rest)) (S k') = Some d).
    { rewrite nth_error_skipn.
      replace (pre + S k') with (S (pre + k')) by lia. exact Hd. }
    pose proof (num_run_hex_exp Hrun Hk' Hm' Hx' He Hd' Hs Hnd) as Hj.
    split; [lia|].
    unfold cursor. rewrite Hl, Hb, skipn_add_tail.
    destruct Hlex as (_ & _ & ->).
    replace (pre + j) with (S (pre + k')) by lia.
    apply skipn_nth. exact Hd.
Qed.

(** C2.  The line [1e13] scans as a float token whose text is [1e13];
    the line [1e13h] scans as an integer token whose value is what the
    number reader makes of [1e13h], here the hexadecimal numeral 1E13; and
    every numeric literal that has an [e] or [E] in it and is not marked
    hexadecimal, by a leading [$] or by an [h], [H], [x] or [X] anywhere
    in it, is a float token with the literal as its text, whatever else
    the literal holds. *)
Theorem C2_exponent_or_hex m0 :
  nasm_isspace "1" = false -> nasm_isidstart "1" = false ->
  nasm_isnumstart "1" = true ->
  nasm_isnumchar "1" = true -> nasm_isnumchar "3" = true ->
  nasm_isnumchar NUL = false ->
  readnum (list_ascii_of_string "1e13h") = (7699%Z, false) ->
  (exists tv m',
      (stdscan_reset (line_of "1e13") ;;; stdscan zero_tokenval) m0
      = Some ((TOKEN_FLOAT, tv), m')
      /\ t_type tv = TOKEN_FLOAT
      /\ token_text m' tv = Some (list_ascii_of_string "1e13"))
  /\ (exists tv m',
         (stdscan_reset (line_of "1e13h") ;;; stdscan zero_tokenval) m0
         = Some ((TOKEN_NUM, tv), m')
         /\ t_type tv = TOKEN_NUM
         /\ t_integer tv = 7699%Z
         /\ t_charptr tv = NULL
         /\ stdscan_tempstorage m' = [])
  /\ (forall tv0 m q c rest,
         lexeme_at m q (c :: rest) ->
         terminated (c :: rest) -> c <> NUL ->
         number_start c rest ->
         (Z.of_nat (length (line m)) < 2 ^ 31)%Z ->
         exists len i tv m',
           stdscan tv0 m = Some ((i, tv), m')
           /\ bufptr (scan m') = q + len
           /\ literal_extent c rest len
           /\ forall k x,
                nth_error (c :: rest) k = Some x -> is_e x = true ->
                c <> "$"%char -> no_hexmark (c :: rest) len ->
                k < len \/ all_between goes_on_decimal (c :: rest) 0 k ->
                k < len
                /\ i = TOKEN_FLOAT /\ t_type tv = TOKEN_FLOAT
                /\ token_text m' tv = Some (firstn len (c :: rest))).
Proof.
  intros Hsp Hid1 Hnum1 H1 H3 Hnul Hread.
  destruct (scan_1e13 m0 Hsp Hid1 Hnum1 H1 H3 Hnul Hread) as [Ha Hb'].
  split; [exact Ha|]. split; [exact Hb'|].
  intros tv0 m q c rest Hlex Hterm Hc (Hid & Hnum & Hdollar) Hlen.
  destruct (stdscan_number tv0 Hlex Hterm Hc Hnul Hlen Hid Hnum Hdollar)
    as (j & h & f & e & m' & _ & Hrun & Htj & Hres & Hl & Hps & Hb & Hts & _).
  set (pre := if Ascii.eqb c "$" then 1 else 0) in *.
  cbv zeta in Hres, Hts.
  pose proof (num_run_extent c rest Hrun) as Hext. fold pre in Hext.
  eexists (pre + j), _, _, m'.
  split; [exact Hres|]. split; [exact Hb|]. split; [exact Hext|].
  intros k x Hx He Hnd Hno Hin.
  assert (Hk : k < pre + j).
  { destruct Hin as [Hk | Hall]; [exact Hk|].
    destruct Hext as (_ & _ & _ & Hr). apply (Hr Hnd). exact Hall. }
  split; [exact Hk|].
  apply Ascii.eqb_neq in Hnd. unfold pre in *. rewrite Hnd in *.
  simpl in Hk, Hrun, Hno |- *.
  destruct (num_run_decimal Hrun eq_refl Hno) as [Hh He'].
  specialize (He' k x Hk Hx He).
  assert (Hfl : (if e && negb h then true else f) = true)
    by (subst h e; reflexivity).
  rewrite Hfl in *. rewrite float_token. simpl fst. simpl snd.
  split; [reflexivity|]. split; [reflexivity|].
  eapply token_text_last; [exact Hts | reflexivity | | reflexivity].
  apply terminated_firstn_not_nul; [assumption|].
  apply terminated_skipn_lt in Htj. exact Htj.
Qed.

End Numbers.

(* ------------------------------------------------------------------ *)
(** ** Identifiers, braces, strings and plain tokens *)

Section Lexemes.

Context {E : Nasm}.

Lemma stdscan_token_result tv0 m q c rest i tv m' :
  lexeme_at m q (c :: rest) -> c <> NUL ->
  stdscan_token (fresh_token q) (with_bufptr q m) = Some ((i, tv), m') ->
  stdscan tv0 m
  = Some ((i, set_len (int_of (Z.of_nat (bufptr (scan m')) - Z.of_nat q)) tv),
          m').
Proof.
  intros Hlex Hc Htok. rewrite (stdscan_at tv0 Hlex).
  rewrite (eqb_nul_false Hc). unfold bind at 1. rewrite Htok. reflexivity.
Qed.

Lemma isidstart_not_special c :
  nasm_laws E -> nasm_isidstart c = true -> c <> NUL /\ c <> "$"%char.
Proof.
  intros L H. split; intros ->.
  - rewrite (isidstart_nul L) in H. discriminate.
  - rewrite (isidstart_dollar L) in H. discriminate.
Qed.

(** A scan that starts on an identifier. *)
Lemma stdscan_identifier tv0 m q pre first tl :
  nasm_laws E ->
  lexeme_at m q (pre ++ first :: tl) -> terminated tl ->
  pre = [] \/ pre = ["$"%char] ->
  nasm_isidstart first = true ->
  (Z.of_nat (length (line m)) < 2 ^ 31)%Z ->
  exists j i tv m',
    run_of nasm_isidchar tl j
    /\ stdscan tv0 m = Some ((i, tv), m')
    /\ still_ready m m'
    /\ bufptr (scan m') = q + length pre + S j
    /\ let stored := firstn (Z.to_nat (IDLEN_MAX - 1))
                            (first :: firstn j tl) in
       (Z.of_nat (length stored) <= IDLEN_MAX - 1)%Z
       /\ stdscan_tempstorage m' = stdscan_tempstorage m ++ [stored ++ [NUL]]
       /\ (pre = ["$"%char] \/ (Z.of_nat (S j) > MAX_KEYWORD)%Z ->
           i = TOKEN_ID /\ t_type tv = TOKEN_ID
           /\ token_text m' tv = Some stored
           /\ trace m' = trace m).
Proof.
  intros L Hlex Htl Hpre Hfirst Hlen.
  destruct (isidstart_not_special first L Hfirst) as [Hnn Hnd].
  pose proof Hlex as (Hps & Hskip & Hs).
  set (m1 := with_bufptr q m).
  assert (Hcur1 : cursor m1 = pre ++ first :: tl) by exact Hs.
  assert (Htok : stdscan_token (fresh_token q) m1
                 = id_rest (match pre with [] => false | _ => true end)
                           (q + length pre) (fresh_token q)
                           (with_bufptr (q + length pre + 1) m1)).
  { destruct Hpre as [-> | ->]; simpl app in Hcur1; simpl length.
    - rewrite (token_dispatch _ _ Hcur1 Hnd), Hfirst.
      rewrite stdscan_token_id_rest.
      unfold bind at 1. rewrite peek_cursor, Hcur1. simpl nth_error.
      cbv beta iota. rewrite (eqb_neq_false Hnd).
      unfold bind at 1. unfold ret at 1.
      unfold bind at 1. unfold get_bufptr at 1.
      unfold bind at 1. unfold bump at 1. simpl bufptr.
      rewrite Nat.add_0_r. reflexivity.
    - rewrite (token_dispatch_dollar _ _ Hcur1), Hfirst, orb_true_r.
      rewrite stdscan_token_id_rest.
      unfold bind at 1. rewrite peek_cursor, Hcur1. simpl nth_error.
      cbv beta iota. change (Ascii.eqb "$" "$") with true. cbv iota.
      unfold bind at 1. unfold bind at 1. unfold bump at 1.
      unfold ret at 1.
      unfold bind at 1. unfold get_bufptr at 1.
      unfold bind at 1. unfold bump at 1. simpl bufptr.
      reflexivity. }
  assert (Hr : skipn (q + length pre) (line m) = first :: tl).
  { rewrite skipn_add_tail, Hs, skipn_app, skipn_all, Nat.sub_diag.
    reflexivity. }
  destruct (@id_rest_spec E (match pre with [] => false | _ => true end)
              (q + length pre) (fresh_token q)
              (with_bufptr (q + length pre + 1) m1) first tl)
    as (j & i & tv & m' & Hrun & Hterm & Hres & Hmoved & Hts & Hbypass & _);
    try assumption;
    [ simpl; lia | apply (isidchar_nul L) | apply (idlen_max_range L)
    | apply (token_hash_charptr L) | ].
  destruct Hmoved as (Hl & Hpsm & Hb). simpl in Hl, Hpsm, Hb.
  simpl firstn in Hts, Hbypass.
  rewrite <- Htok in Hres.
  assert (Hscan : stdscan tv0 m
                  = Some ((i, set_len (int_of (Z.of_nat (bufptr (scan m'))
                                               - Z.of_nat q)) tv), m')).
  { destruct Hpre as [-> | ->].
    - eapply stdscan_token_result; [exact Hlex | exact Hnn | exact Hres].
    - eapply stdscan_token_result; [exact Hlex | discriminate | exact Hres]. }
  exists j. eexists _, _, m'.
  split; [exact Hrun|]. split; [exact Hscan|].
  split.
  { split; [exact Hl|]. split; [rewrite Hpsm; exact Hps|].
    unfold cursor. rewrite Hl, Hb.
    replace (q + length pre + 1 + j) with (S (q + length pre) + j) by lia.
    rewrite skipn_add_tail, (skipn_S_tail _ _ Hr). exact Hterm. }
  split; [lia|].
  cbv zeta.
  set (stored := firstn (Z.to_nat (IDLEN_MAX - 1)) (first :: firstn j tl))
    in *.
  pose proof (idlen_max_range L) as Hrange.
  split.
  { unfold stored. rewrite length_firstn. lia. }
  split; [exact Hts|].
  intros Hby.
  destruct Hbypass as (-> & -> & Htr).
  { destruct Hby as [-> | Hby]; [left; reflexivity | right; exact Hby]. }
  split; [reflexivity|]. split; [reflexivity|].
  split; [|exact Htr].
  eapply token_text_last; [exact Hts | reflexivity | | reflexivity].
  unfold stored. apply Forall_firstn_any. constructor; [exact Hnn|].
  apply (Forall_true_not_nul _ (isidchar_nul L)). apply Hrun.
Qed.

(** C6.  An identifier, with or without the [$] that forces it: the
    cursor ends after its last character; the text stored for it is its
    first [IDLEN_MAX - 1] characters at most; and when it is forced, or
    longer than [MAX_KEYWORD], the token is a plain identifier and nothing
    is called on the way: the keyword hash is not consulted. *)
Theorem C6_identifier tv0 m q pre first tl :
  nasm_laws E ->
  lexeme_at m q (pre ++ first :: tl) -> terminated tl ->
  pre = [] \/ pre = ["$"%char] ->
  nasm_isidstart first = true ->
  (Z.of_nat (length (line m)) < 2 ^ 31)%Z ->
  exists j i tv m',
    run_of nasm_isidchar tl j
    /\ stdscan tv0 m = Some ((i, tv), m')
    /\ bufptr (scan m') = q + length pre + S j
    /\ let stored := firstn (Z.to_nat (IDLEN_MAX - 1))
                            (first :: firstn j tl) in
       (Z.of_nat (length stored) <= IDLEN_MAX - 1)%Z
       /\ stdscan_tempstorage m' = stdscan_tempstorage m ++ [stored ++ [NUL]]
       /\ (pre = ["$"%char] \/ (Z.of_nat (S j) > MAX_KEYWORD)%Z ->
           i = TOKEN_ID /\ t_type tv = TOKEN_ID
           /\ token_text m' tv = Some stored
           /\ trace m' = trace m).
Proof.
  intros L Hlex Htl Hpre Hfirst Hlen.
  destruct (@stdscan_identifier tv0 m q pre first tl L Hlex Htl Hpre Hfirst
              Hlen)
    as (j & i & tv & m' & Hrun & Hscan & _ & Hrest).
  exists j, i, tv, m'. auto.
Qed.

(** A scan that starts on an opening brace. *)
Lemma stdscan_braces tv0 m q rest :
  nasm_laws E ->
  nasm_isidstart "{" = false -> nasm_isnumstart "{" = false ->
  lexeme_at m q ("{"%char :: rest) -> terminated rest ->
  (Z.of_nat (length (line m)) < 2 ^ 31)%Z ->
  exists j0 n j2 d tl i tv m',
    run_of space_char rest j0
    /\ run_of nasm_isbrcchar (skipn j0 rest) n
    /\ run_of space_char (skipn (j0 + n) rest) j2
    /\ skipn (j0 + n + j2) rest = d :: tl
    /\ stdscan tv0 m = Some ((i, tv), m')
    /\ still_ready m m'
    /\ q < bufptr (scan m')
    /\ let content := firstn n (skipn j0 rest) in
       let at_d := q + 1 + j0 + n + j2 in
       (d <> "}"%char ->
        i = TOKEN_INVALID /\ t_type tv = TOKEN_INVALID
        /\ bufptr (scan m') = at_d
        /\ trace m' = trace m ++ [Ev_nonfatal_unterminated_braces]
        /\ (d = NUL -> cursor m' = [NUL]))
       /\ (d = "}"%char -> (Z.of_nat n > MAX_KEYWORD)%Z ->
           i = TOKEN_INVALID /\ t_type tv = TOKEN_INVALID
           /\ bufptr (scan m') = at_d + 1
           /\ trace m' = trace m ++ [Ev_nonfatal_not_valid_token content])
       /\ (d = "}"%char -> (Z.of_nat n <= MAX_KEYWORD)%Z ->
           let looked :=
             snd (nasm_token_hash content
                    (set_charptr (TempPtr (stdscan_templen m))
                                 (fresh_token q))) in
           bufptr (scan m') = at_d + 1
           /\ stdscan_tempstorage m'
              = stdscan_tempstorage m ++ [content ++ [NUL]]
           /\ i = fst (fst (brace_result looked content))
           /\ tv = set_len (Z.of_nat (1 + j0 + n + j2 + 1))
                           (snd (fst (brace_result looked content)))
           /\ trace m'
              = trace m ++ Ev_token_hash content
                  :: snd (brace_result looked content)).
Proof.
  intros L Hid Hnum Hlex Hrest Hlen.
  pose proof Hlex as (Hps & Hskip & Hs).
  set (m1 := with_bufptr q m).
  assert (Hcur1 : cursor m1 = "{"%char :: rest) by exact Hs.
  destruct (@braces_spec E (fresh_token q) m1 rest Hcur1 Hrest
              (isbrcchar_nul L) (token_hash_charptr L) Hlen)
    as (j0 & n & j2 & d & tl & H0 & H1 & H2 & Hd & Htd & Hres).
  cbv zeta in Hres.
  destruct Hres as (i & tv & m' & Hres & Hmoved & Hts & Hopen & Hlong & Hok).
  destruct Hmoved as (Hl & Hpsm & Hb). simpl in Hl, Hpsm, Hb.
  change (trace m1) with (trace m) in *.
  change (stdscan_tempstorage m1) with (stdscan_tempstorage m) in *.
  change (stdscan_templen m1) with (stdscan_templen m) in *.
  assert (Htok : stdscan_token (fresh_token q) m1 = Some ((i, tv), m')).
  { rewrite (token_dispatch _ _ Hcur1) by discriminate.
    rewrite Hid, Hnum. exact Hres. }
  rewrite (@stdscan_token_result tv0 m q "{"%char rest i tv m' Hlex
             ltac:(discriminate) Htok).
  assert (Hin : q + 1 + j0 + n + j2 < length (line m)).
  { apply terminated_skipn_lt.
    replace (q + 1 + j0 + n + j2) with (S q + (j0 + n + j2)) by lia.
    rewrite skipn_add_tail, (skipn_S_tail _ _ Hs), Hd. exact Htd. }
  exists j0, n, j2, d, tl. eexists _, _, m'.
  split; [exact H0|]. split; [exact H1|]. split; [exact H2|].
  split; [exact Hd|]. split; [reflexivity|].
  split.
  { split; [exact Hl|]. split; [rewrite Hpsm; exact Hps|].
    unfold cursor. rewrite Hl, Hb.
    replace (q + S (j0 + n + j2 + (if Ascii.eqb d "}" then 1 else 0)))
      with (S q + ((if Ascii.eqb d "}" then 1 else 0) + (j0 + n + j2)))
      by lia.
    rewrite skipn_add_tail, (skipn_S_tail _ _ Hs), <- skipn_skipn, Hd.
    destruct (Ascii.eqb d "}") eqn:Hclose; simpl; [|exact Htd].
    apply Ascii.eqb_eq in Hclose. subst d.
    apply (terminated_tail Htd). discriminate. }
  split; [lia|].
  cbv zeta. split; [|split].
  - intros Hnd. destruct (Hopen Hnd) as (-> & -> & Htr).
    rewrite (eqb_neq_false Hnd) in Hb.
    split; [reflexivity|]. split; [reflexivity|].
    split; [lia|]. split; [exact Htr|].
    intros ->. unfold cursor. rewrite Hl, Hb.
    replace (q + S (j0 + n + j2 + 0)) with (S q + (j0 + n + j2)) by lia.
    rewrite skipn_add_tail, (skipn_S_tail _ _ Hs), Hd.
    f_equal. apply (terminated_nul_head Htd).
  - intros -> Hgt.
    assert (Hcopied : (Z.of_nat n <=? MAX_KEYWORD)%Z = false)
      by (apply Z.leb_gt; lia).
    destruct (Hlong eq_refl Hcopied) as (-> & -> & Htr).
    simpl in Hb.
    split; [reflexivity|]. split; [reflexivity|].
    split; [lia | exact Htr].
  - intros -> Hle.
    assert (Hcopied : (Z.of_nat n <=? MAX_KEYWORD)%Z = true)
      by (apply Z.leb_le; lia).
    destruct (Hok eq_refl Hcopied) as (Hitv & Htr).
    rewrite Hcopied in Hts, Hitv, Htr. simpl in Hb.
    split; [lia|]. split; [exact Hts|].
    rewrite <- Hitv. simpl fst. simpl snd.
    split; [reflexivity|]. split; [|exact Htr].
    f_equal. rewrite Hb. rewrite int_of_small; lia.
Qed.

(** C7.  A braced token.  After the brace, whitespace, the run of
    brace-content characters, and whitespace again, the scanner is on a
    byte [d].  If [d] is not the closing brace, the token is invalid after
    the diagnostic "unterminated braces" and the cursor stays on [d], which
    is the end of the line when [d] is the NUL.  If [d] is the closing
    brace and the content is longer than [MAX_KEYWORD], the cursor still
    goes past the brace and the token is invalid after a diagnostic that
    names the content.  Otherwise the content is copied to the temporary
    storage, looked up in the keyword hash, and the token is what
    [stdscan_handle_brace] makes of the result. *)
Theorem C7_braces tv0 m q rest :
  nasm_laws E ->
  nasm_isidstart "{" = false -> nasm_isnumstart "{" = false ->
  lexeme_at m q ("{"%char :: rest) -> terminated rest ->
  (Z.of_nat (length (line m)) < 2 ^ 31)%Z ->
  exists j0 n j2 d tl i tv m',
    run_of space_char rest j0
    /\ run_of nasm_isbrcchar (skipn j0 rest) n
    /\ run_of space_char (skipn (j0 + n) rest) j2
    /\ skipn (j0 + n + j2) rest = d :: tl
    /\ stdscan tv0 m = Some ((i, tv), m')
    /\ let content := firstn n (skipn j0 rest) in
       let at_d := q + 1 + j0 + n + j2 in
       (d <> "}"%char ->
        i = TOKEN_INVALID /\ t_type tv = TOKEN_INVALID
        /\ bufptr (scan m') = at_d
        /\ trace m' = trace m ++ [Ev_nonfatal_unterminated_braces]
        /\ (d = NUL -> cursor m' = [NUL]))
       /\ (d = "}"%char -> (Z.of_nat n > MAX_KEYWORD)%Z ->
           i = TOKEN_INVALID /\ t_type tv = TOKEN_INVALID
           /\ bufptr (scan m') = at_d + 1
           /\ trace m' = trace m ++ [Ev_nonfatal_not_valid_token content])
       /\ (d = "}"%char -> (Z.of_nat n <= MAX_KEYWORD)%Z ->
           let looked :=
             snd (nasm_token_hash content
                    (set_charptr (TempPtr (stdscan_templen m))
                                 (fresh_token q))) in
           bufptr (scan m') = at_d + 1
           /\ stdscan_tempstorage m'
              = stdscan_tempstorage m ++ [content ++ [NUL]]
           /\ i = fst (fst (brace_result looked content))
           /\ tv = set_len (Z.of_nat (1 + j0 + n + j2 + 1))
                           (snd (fst (brace_result looked content)))
           /\ trace m'
              = trace m ++ Ev_token_hash content
                  :: snd (brace_result looked content)).
Proof.
  intros L Hid Hnum Hlex Hrest Hlen.
  destruct (@stdscan_braces tv0 m q rest L Hid Hnum Hlex Hrest Hlen)
    as (j0 & n & j2 & d & tl & i & tv & m' & H0 & H1 & H2 & Hd & Hscan
        & _ & _ & Hcases).
  exists j0, n, j2, d, tl, i, tv, m'. auto 10.
Qed.

Lemma is_quote_not_special c :
  is_quote c = true -> c <> NUL /\ c <> "$"%char.
Proof.
  unfold is_quote. intros H.
  apply orb_true_iff in H. destruct H as [H|H];
    [apply orb_true_iff in H; destruct H as [H|H]|];
    apply Ascii.eqb_eq in H; subst c; split; discriminate.
Qed.

(** A scan that starts on a quote, when the unescape routine leaves [ep]
    on a byte [d] of the line. *)
Lemma stdscan_string tv0 m q c rest mem' ep n d :
  lexeme_at m q (c :: rest) ->
  is_quote c = true ->
  nasm_isidstart c = false -> nasm_isnumstart c = false ->
  nasm_unquote (line m) q = (mem', ep, n) ->
  nth_error mem' ep = Some d ->
  stdscan tv0 m
  = Some (let ty := if Ascii.eqb d c then TOKEN_STR else TOKEN_ERRSTR in
          let p' := if Ascii.eqb d c then ep + 1 else ep in
          (ty, set_len (int_of (Z.of_nat p' - Z.of_nat q))
                 (set_type ty
                    (set_inttwo n (set_charptr (LinePtr q) (fresh_token q))))),
          with_bufptr (if Ascii.eqb d c then ep + 1 else ep)
            (with_line mem' (with_trace (trace m ++ [Ev_unquote q]) m))).
Proof.
  intros Hlex Hq Hid Hnum Hunq Hd.
  destruct (is_quote_not_special c Hq) as [Hnn Hnd].
  pose proof Hlex as (Hps & Hskip & Hs).
  erewrite stdscan_token_result; [ | exact Hlex | exact Hnn | ].
  2:{ rewrite (@token_dispatch E _ (with_bufptr q m) c rest Hs Hnd).
      rewrite Hid, Hnum, Hq.
      apply (@str_spec E _ (with_bufptr q m) c rest mem' ep n d Hs Hunq Hd). }
  simpl. destruct (Ascii.eqb d c); reflexivity.
Qed.

(** C8.  A quoted string.  When the unescape routine has moved the cursor
    to [ep], on a byte [d] of the line: if [d] is not the opening quote
    the token is an invalid-string token and the cursor stays at [ep]; if
    it is, the cursor goes one further and the token is a string token.
    Either way the text pointer is the position of the opening quote in the
    line, nothing is added to the temporary storage, and the second
    integer is the value the unescape routine returned. *)
Theorem C8_quoted_string tv0 m q c rest mem' ep n d :
  lexeme_at m q (c :: rest) ->
  is_quote c = true ->
  nasm_isidstart c = false -> nasm_isnumstart c = false ->
  nasm_unquote (line m) q = (mem', ep, n) ->
  nth_error mem' ep = Some d ->
  exists i tv m',
    stdscan tv0 m = Some ((i, tv), m')
    /\ t_type tv = i
    /\ t_charptr tv = LinePtr q
    /\ t_inttwo tv = n
    /\ stdscan_tempstorage m' = stdscan_tempstorage m
    /\ line m' = mem'
    /\ (d <> c -> i = TOKEN_ERRSTR /\ bufptr (scan m') = ep)
    /\ (d = c -> i = TOKEN_STR /\ bufptr (scan m') = ep + 1).
Proof.
  intros Hlex Hq Hid Hnum Hunq Hd.
  rewrite (@stdscan_string tv0 m q c rest mem' ep n d Hlex Hq Hid Hnum Hunq Hd).
  cbv zeta. do 3 eexists. split; [reflexivity|].
  simpl. repeat (split; [reflexivity|]).
  split.
  - intros Hne. rewrite (eqb_neq_false Hne). auto.
  - intros ->. rewrite Ascii.eqb_refl. auto.
Qed.

(** A scan that starts on the NUL, on a comment, on an operator or on any
    other character that starts no identifier, number, string or braced
    token: the token has its type and its place in the line and nothing
    else, and only the cursor moves. *)
Lemma stdscan_plain tv0 m q c rest :
  lexeme_at m q (c :: rest) -> terminated (c :: rest) ->
  c = NUL
  \/ (c <> "$"%char /\ nasm_isidstart c = false /\ nasm_isnumstart c = false
      /\ is_quote c = false /\ c <> "{"%char)
  \/ (c = "$"%char /\ nasm_isidstart c = false
      /\ exists c1 rest1, rest = c1 :: rest1 /\ nasm_isidstart c1 = false
           /\ (nasm_isnumchar c1 = false \/ nasm_isnumstart c = false)) ->
  exists k ty len,
    stdscan tv0 m
    = Some ((ty, set_len len (set_type ty (fresh_token q))),
            with_bufptr (q + k) m)
    /\ terminated (skipn k (c :: rest))
    /\ (k = 0 -> ty = TOKEN_EOS /\ (c = NUL \/ c = ";"%char)).
Proof.
  intros Hlex Hterm Hcase.
  pose proof Hlex as (Hps & Hskip & Hs).
  assert (Hcur1 : cursor (with_bufptr q m) = c :: rest) by exact Hs.
  destruct Hcase as [-> | [(Hnd & Hid & Hnum & Hq & Hnb) | Hdollar]].
  - exists 0, TOKEN_EOS, 0%Z.
    rewrite (stdscan_at tv0 Hlex). rewrite Nat.add_0_r.
    split; [reflexivity|]. split; [exact Hterm|]. auto.
  - destruct (ascii_dec c NUL) as [-> | Hnn].
    { exists 0, TOKEN_EOS, 0%Z.
      rewrite (stdscan_at tv0 Hlex). rewrite Nat.add_0_r.
      split; [reflexivity|]. split; [exact Hterm|]. auto. }
    assert (Hrest : terminated rest) by exact (terminated_tail Hterm Hnn).
    destruct (Ascii.eqb c ";") eqn:Hsemi.
    + apply Ascii.eqb_eq in Hsemi. subst c.
      exists 0, TOKEN_EOS. eexists.
      erewrite stdscan_token_result; [ | exact Hlex | exact Hnn | ].
      2:{ rewrite (@token_dispatch E _ _ _ _ Hcur1 Hnd).
          rewrite Hid, Hnum, Hq. reflexivity. }
      rewrite Nat.add_0_r.
      split; [reflexivity|]. split; [exact Hterm|]. auto.
    + destruct (@op_spec E (fresh_token q) (with_bufptr q m) c rest
                  Hcur1 Hnn Hrest) as (k & ty & Hk & Hop & Htk).
      exists k, ty. eexists.
      erewrite stdscan_token_result; [ | exact Hlex | exact Hnn | ].
      2:{ rewrite (@token_dispatch E _ _ _ _ Hcur1 Hnd).
          rewrite Hid, Hnum, Hq, (eqb_neq_false Hnb), Hsemi. exact Hop. }
      split; [reflexivity|]. split; [exact Htk|]. intros ->. lia.
  - destruct Hdollar as (-> & Hid & c1 & rest1 & -> & Hid1 & Hnum1).
    assert (Hrest : terminated (c1 :: rest1)).
    { apply (terminated_tail Hterm). discriminate. }
    pose proof (@token_dispatch_dollar E (fresh_token q) _ _ _ Hcur1) as Hdis.
    rewrite Hid, Hid1 in Hdis. simpl orb in Hdis. cbv iota in Hdis.
    destruct (nasm_isnumchar c1) eqn:Hnc; simpl negb in Hdis;
      cbv iota in Hdis.
    + destruct Hnum1 as [Hnum1 | Hnum1]; [discriminate|].
      rewrite Hnum1 in Hdis.
      destruct (@op_spec E (fresh_token q) (with_bufptr q m) "$" (c1 :: rest1)
                  Hcur1 ltac:(discriminate) Hrest)
        as (k & ty & Hk & Hop & Htk).
      exists k, ty. eexists.
      erewrite stdscan_token_result;
        [ | exact Hlex | discriminate | rewrite Hdis; exact Hop ].
      split; [reflexivity|]. split; [exact Htk|]. intros ->. lia.
    + destruct (Ascii.eqb c1 "$") eqn:Hc1.
      * apply Ascii.eqb_eq in Hc1. subst c1.
        exists 2, TOKEN_BASE. eexists.
        erewrite stdscan_token_result;
          [ | exact Hlex | discriminate | rewrite Hdis; reflexivity ].
        split; [reflexivity|].
        split; [simpl; apply (terminated_tail Hrest); discriminate|].
        intros; lia.
      * exists 1, TOKEN_HERE. eexists.
        erewrite stdscan_token_result;
          [ | exact Hlex | discriminate | rewrite Hdis; reflexivity ].
        split; [reflexivity|]. split; [exact Hrest|]. intros; lia.
Qed.

End Lexemes.

(* ------------------------------------------------------------------ *)
(** ** Scanning a line to its end *)

Section Termination.

Context {E : Nasm}.

Lemma ready_lexeme m :
  ready m ->
  exists q c rest,
    lexeme_at m q (c :: rest) /\ terminated (c :: rest)
    /\ bufptr (scan m) <= q.
Proof.
  intros (Hterm & Hps & Hlen).
  destruct (run_of_terminated space_char (bufptr (scan m)) space_char_nul
              Hterm) as (j & Hrun & Htj & _).
  destruct (skipn j (skipn (bufptr (scan m)) (line m))) as [|c rest] eqn:Hs;
    [inversion Htj|].
  exists (bufptr (scan m) + j), c, rest.
  split; [|split; [exact Htj | lia]].
  split; [exact Hps|]. split.
  - eapply nasm_skip_spaces_at; [reflexivity | exact Hrun].
  - rewrite skipn_add_tail. exact Hs.
Qed.

Lemma still_ready_after m m' : still_ready m m' -> ready_after m m'.
Proof.
  intros (Hl & Hps & Hterm). split; [rewrite Hl; reflexivity | auto].
Qed.

Lemma ready_after_ready m m' :
  ready m -> ready_after m m' -> ready m'.
Proof.
  intros (_ & _ & Hlen) (Hl & Hps & Hterm).
  split; [exact Hterm|]. split; [exact Hps|]. rewrite Hl. exact Hlen.
Qed.

(** One scan of a ready scanner. *)
Lemma stdscan_step tv0 m :
  nasm_laws E -> ready m ->
  exists q i tv m',
    bufptr (scan m) <= q
    /\ nasm_skip_spaces (bufptr (scan m)) m = Some (q, m)
    /\ stdscan tv0 m = Some ((i, tv), m')
    /\ ready_after m m'
    /\ eos_or_advance q i m'.
Proof.
  intros L Hready.
  destruct (ready_lexeme Hready) as (q & c & rest & Hlex & Hterm & Hq).
  pose proof Hready as (_ & Hps & Hlen).
  pose proof Hlex as (_ & Hskip & Hs).
  exists q.
  assert (Hplain :
            c = NUL
            \/ (c <> "$"%char /\ nasm_isidstart c = false
                /\ nasm_isnumstart c = false
                /\ is_quote c = false /\ c <> "{"%char)
            \/ (c = "$"%char /\ nasm_isidstart c = false
                /\ exists c1 rest1, rest = c1 :: rest1
                     /\ nasm_isidstart c1 = false
                     /\ (nasm_isnumchar c1 = false
                         \/ nasm_isnumstart c = false)) ->
            exists i tv m',
              bufptr (scan m) <= q
              /\ nasm_skip_spaces (bufptr (scan m)) m = Some (q, m)
              /\ stdscan tv0 m = Some ((i, tv), m')
              /\ ready_after m m'
              /\ eos_or_advance q i m').
  { intros Hcase.
    destruct (@stdscan_plain E tv0 m q c rest Hlex Hterm Hcase)
      as (k & ty & len & Hres & Htk & Hk0).
    do 3 eexists. split; [exact Hq|]. split; [exact Hskip|].
    split; [exact Hres|].
    assert (Hcur' : cursor (with_bufptr (q + k) m) = skipn k (c :: rest)).
    { unfold cursor. simpl. rewrite skipn_add_tail, Hs. reflexivity. }
    split.
    - split; [reflexivity|]. split; [exact Hps|]. rewrite Hcur'. exact Htk.
    - destruct k as [|k].
      + left. destruct (Hk0 eq_refl) as [-> Hc]. split; [reflexivity|].
        split; [simpl; lia|]. rewrite Hcur'. simpl.
        destruct Hc as [-> | ->].
        * left. f_equal. apply (terminated_nul_head Hterm).
        * right. eauto.
      + right. simpl. lia. }
  destruct (ascii_dec c NUL) as [-> | Hnn]; [apply Hplain; auto|].
  assert (Hrest : terminated rest) by exact (terminated_tail Hterm Hnn).
  destruct (ascii_dec c "$") as [-> | Hnd].
  - (* a dollar *)
    destruct rest as [|c1 rest1]; [inversion Hrest|].
    pose proof (isidstart_dollar L) as Hidd.
    destruct (nasm_isidstart c1) eqn:Hid1.
    + destruct (isidstart_not_special c1 L Hid1) as [Hnn1 _].
      destruct (@stdscan_identifier E tv0 m q ["$"%char] c1 rest1 L Hlex
                  (terminated_tail Hrest Hnn1) (or_intror eq_refl) Hid1 Hlen)
        as (j & i & tv & m' & _ & Hres & Hsr & Hb & _).
      exists i, tv, m'. split; [exact Hq|]. split; [exact Hskip|].
      split; [exact Hres|]. split; [exact (still_ready_after Hsr)|].
      right. simpl in Hb. lia.
    + destruct (nasm_isnumchar c1) eqn:Hnc1; [|apply Hplain; eauto 10].
      destruct (nasm_isnumstart "$") eqn:Hns; [|apply Hplain; eauto 10].
      destruct (@stdscan_number E tv0 m q "$" (c1 :: rest1) Hlex Hterm Hnn
                  (isnumchar_nul L) Hlen Hidd Hns)
        as (j & h & f & e & m' & _ & _ & Htj & Hres & Hl & Hpsm & Hb & _).
      { intros _. eauto. }
      cbv zeta in Hres. do 2 eexists. exists m'.
      split; [exact Hq|]. split; [exact Hskip|].
      split; [exact Hres|].
      split.
      * split; [rewrite Hl; reflexivity|]. split; [exact Hpsm|].
        unfold cursor. rewrite Hl, Hb, skipn_add_tail, Hs. exact Htj.
      * right. rewrite Hb. simpl. lia.
  - destruct (nasm_isidstart c) eqn:Hid.
    + destruct (@stdscan_identifier E tv0 m q [] c rest L Hlex Hrest
                  (or_introl eq_refl) Hid Hlen)
        as (j & i & tv & m' & _ & Hres & Hsr & Hb & _).
      exists i, tv, m'. split; [exact Hq|]. split; [exact Hskip|].
      split; [exact Hres|]. split; [exact (still_ready_after Hsr)|].
      right. simpl in Hb. lia.
    + destruct (nasm_isnumstart c) eqn:Hnum.
      * destruct (@stdscan_number E tv0 m q c rest Hlex Hterm Hnn
                    (isnumchar_nul L) Hlen Hid Hnum)
          as (j & h & f & e & m' & _ & Hrun & Htj & Hres & Hl & Hpsm & Hb & _).
        { intros ->. congruence. }
        rewrite (eqb_neq_false Hnd) in *. simpl in Hrun, Htj, Hb.
        assert (Hj : 1 <= j).
        { apply (num_run_numchar Hrun).
          destruct (isnumstart_numchar L c Hnum) as [-> | Hc];
            [congruence | exact Hc]. }
        cbv zeta in Hres. do 2 eexists. exists m'.
        split; [exact Hq|]. split; [exact Hskip|].
        split; [exact Hres|].
        split.
        -- split; [rewrite Hl; reflexivity|]. split; [exact Hpsm|].
           unfold cursor. rewrite Hl, Hb, skipn_add_tail, Hs. exact Htj.
        -- right. lia.
      * destruct (is_quote c) eqn:Hquote.
        -- pose proof (unquote_in_line L (line m) q Hs Hquote Hrest) as Hunq.
           destruct (nasm_unquote (line m) q) as [[mem' ep] n] eqn:Hu.
           destruct Hunq as (Hlen' & Hep & Htep).
           destruct (skipn ep mem') as [|d tl] eqn:Hd; [inversion Htep|].
           assert (Hnth : nth_error mem' ep = Some d).
           { rewrite <- (Nat.add_0_r ep), <- nth_error_skipn, Hd.
             reflexivity. }
           rewrite (@stdscan_string E tv0 m q c rest mem' ep n d
                      Hlex Hquote Hid Hnum Hu Hnth).
           cbv zeta. do 3 eexists.
           split; [exact Hq|]. split; [exact Hskip|].
           split; [reflexivity|].
           split.
           ++ split; [exact Hlen'|]. split; [exact Hps|].
              unfold cursor. simpl.
              destruct (Ascii.eqb d c) eqn:Hdc.
              ** rewrite Nat.add_1_r, (skipn_S_tail _ _ Hd).
                 apply Ascii.eqb_eq in Hdc. subst d.
                 apply (terminated_tail Htep Hnn).
              ** rewrite Hd. exact Htep.
           ++ right. simpl. destruct (Ascii.eqb d c); lia.
        -- destruct (ascii_dec c "{") as [-> | Hnb].
           ++ destruct (@stdscan_braces E tv0 m q rest L Hid Hnum Hlex Hrest
                          Hlen)
                as (j0 & n & j2 & d & tl & i & tv & m' & _ & _ & _ & _ & Hres
                    & Hsr & Hadv & _).
              exists i, tv, m'. split; [exact Hq|]. split; [exact Hskip|].
              split; [exact Hres|]. split; [exact (still_ready_after Hsr)|]. right. exact Hadv.
           ++ apply Hplain. right. left. auto.
Qed.

(** From a ready scanner, end-of-stream comes after at most as many
    tokens as there are bytes between the cursor and the end of the
    line. *)
Lemma eos_reached k :
  nasm_laws E ->
  forall m, ready m -> length (line m) - bufptr (scan m) <= k ->
  exists n toks tv m',
    n < k /\ length toks = n
    /\ scan_times (S n) m = Some (toks ++ [(TOKEN_EOS, tv)], m').
Proof.
  intros L. induction k as [|k IH]; intros m Hready Hk.
  - destruct Hready as (Hterm & _). apply terminated_skipn_lt in Hterm. lia.
  - destruct (stdscan_step zero_tokenval L Hready)
      as (q & i & tv & m' & Hq & _ & Hres & Hsr & Hcase).
    pose proof (ready_after_ready Hready Hsr) as Hready'.
    destruct Hcase as [(-> & _ & _) | Hadv].
    + exists 0, [], tv, m'. split; [lia|]. split; [reflexivity|].
      simpl. unfold bind. rewrite Hres. reflexivity.
    + destruct Hsr as (Hl & _ & _).
      destruct (IH m' Hready') as (n & toks & tv' & m'' & Hn & Hlen & Hrun).
      { rewrite Hl. lia. }
      exists (S n), ((i, tv) :: toks), tv', m''.
      split; [lia|]. split; [simpl; lia|].
      change (scan_times (S (S n)))
        with (r <- stdscan zero_tokenval ;; rs <- scan_times (S n) ;;
              ret (r :: rs)).
      unfold bind at 1. rewrite Hres. unfold bind at 1. rewrite Hrun.
      reflexivity.
Qed.

(** On the NUL and on the [;] of a comment: end-of-stream, and the cursor
    stays. *)
Lemma stdscan_eos tv0 m q c rest :
  lexeme_at m q (c :: rest) ->
  c = NUL
  \/ (c = ";"%char /\ nasm_isidstart c = false /\ nasm_isnumstart c = false) ->
  stdscan tv0 m
  = Some ((TOKEN_EOS, set_type TOKEN_EOS (fresh_token q)), with_bufptr q m).
Proof.
  intros Hlex Hc. rewrite (stdscan_at tv0 Hlex).
  destruct Hc as [-> | (-> & Hid & Hnum)].
  - reflexivity.
  - change (Ascii.eqb ";" NUL) with false. cbv iota.
    unfold bind at 1.
    rewrite (@token_dispatch E (fresh_token q) (with_bufptr q m) ";" rest);
      [|apply cursor_at; apply Hlex | discriminate].
    rewrite Hid, Hnum.
    change (is_quote ";") with false.
    change (Ascii.eqb ";" "{") with false.
    change (Ascii.eqb ";" ";") with true. cbv iota.
    unfold yield, ret, bind, get_bufptr. simpl bufptr.
    rewrite Z.sub_diag. reflexivity.
Qed.

(** C1.  After [stdscan_reset] on a line, the scanner is ready; every scan
    of a ready scanner returns (no byte outside the line, which ends with
    its NUL, is read: that would be a fault) and leaves the scanner ready
    on a line of the same length; it either returns end-of-stream with the
    cursor left where the lexeme starts, on the NUL or on the [;] of a
    comment, or leaves the cursor beyond the start of the lexeme; a scan
    that meets the NUL or the [;] of a comment after the whitespace does
    return end-of-stream and leaves the cursor there; and so, from the
    reset on, end-of-stream comes after fewer tokens than the line has
    bytes. *)
Theorem C1_scan_terminates buffer m0 :
  nasm_laws E ->
  terminated buffer -> (Z.of_nat (length buffer) < 2 ^ 31)%Z ->
  exists m1,
    stdscan_reset buffer m0 = Some (tt, m1)
    /\ ready m1 /\ line m1 = buffer /\ bufptr (scan m1) = 0
    /\ (forall tv0 m,
          ready m ->
          exists q i tv m',
            bufptr (scan m) <= q
            /\ nasm_skip_spaces (bufptr (scan m)) m = Some (q, m)
            /\ stdscan tv0 m = Some ((i, tv), m')
            /\ ready_after m m'
            /\ eos_or_advance q i m'
            /\ (forall c rest,
                  skipn q (line m) = c :: rest ->
                  c = NUL
                  \/ (c = ";"%char /\ nasm_isidstart c = false
                      /\ nasm_isnumstart c = false) ->
                  i = TOKEN_EOS
                  /\ tv = set_type TOKEN_EOS (fresh_token q)
                  /\ m' = with_bufptr q m))
    /\ (exists n toks tv m',
          n < length buffer /\ length toks = n
          /\ scan_times (S n) m1 = Some (toks ++ [(TOKEN_EOS, tv)], m')).
Proof.
  intros L Hterm Hlen.
  rewrite stdscan_reset_eq. eexists. split; [reflexivity|].
  assert (Hready : ready (mk_machine (mk_state 0 [] ss_init) []
                                     (stdscan_tempsize m0) buffer (trace m0))).
  { split; [exact Hterm|]. split; [reflexivity | exact Hlen]. }
  split; [exact Hready|]. split; [reflexivity|]. split; [reflexivity|].
  split.
  - intros tv0 m Hm.
    destruct (stdscan_step tv0 L Hm)
      as (q & i & tv & m' & Hq & Hskip & Hres & Hra & Hcase).
    exists q, i, tv, m'. repeat (split; [assumption|]).
    intros c rest Hs Hc.
    assert (Hlex : lexeme_at m q (c :: rest)).
    { split; [apply Hm|]. split; [exact Hskip | exact Hs]. }
    rewrite (stdscan_eos tv0 Hlex Hc) in Hres.
    injection Hres as <- <- <-. auto.
  - destruct (@eos_reached (length buffer) L _ Hready)
      as (n & toks & tv & m' & Hn & Hl & Hrun).
    { simpl. lia. }
    exists n, toks, tv, m'. auto.
Qed.

End Termination.

(* ------------------------------------------------------------------ *)
(** ** The steps that leave the line as it is *)

Create HintDb keeps.

Section Frame.
Context {E : Nasm}.

Lemma keeps_ret A (a : A) : keeps_line (ret a).
Proof. intros m a' m' H. injection H as _ <-. reflexivity. Qed.

Lemma keeps_fault A : keeps_line (@fault A).
Proof. intros m a m' H. discriminate. Qed.

Lemma keeps_bind A B (x : M A) (k : A -> M B) :
  keeps_line x -> (forall a, keeps_line (k a)) -> keeps_line (bind x k).
Proof.
  intros Hx Hk m b m' H. unfold bind in H.
  destruct (x m) as [[a m1]|] eqn:Hxm; [|discriminate].
  rewrite (Hk a _ _ _ H). apply (Hx _ _ _ Hxm).
Qed.

Lemma keeps_get_bufptr : keeps_line get_bufptr.
Proof. intros m a m' H. injection H as _ <-. reflexivity. Qed.

Lemma keeps_set_bufptr p : keeps_line (set_bufptr p).
Proof. intros m a m' H. injection H as _ <-. reflexivity. Qed.

Lemma keeps_bump n : keeps_line (bump n).
Proof. intros m a m' H. injection H as _ <-. reflexivity. Qed.

Lemma keeps_emit e : keeps_line (emit e).
Proof. intros m a m' H. injection H as _ <-. reflexivity. Qed.

Lemma keeps_peek k : keeps_line (peek k).
Proof.
  intros m a m' H. unfold peek in H.
  destruct (nth_error _ _); [|discriminate]. injection H as _ <-.
  reflexivity.
Qed.

Lemma keeps_read_bytes p n : keeps_line (read_bytes p n).
Proof.
  intros m a m' H. unfold read_bytes in H.
  destruct (Nat.leb _ _); [|discriminate]. injection H as _ <-. reflexivity.
Qed.

Lemma keeps_deref ptr : keeps_line (deref ptr).
Proof.
  intros m a m' H. unfold deref in H. destruct ptr as [|p|i].
  - discriminate.
  - destruct (Nat.ltb _ _); [|discriminate]. injection H as _ <-.
    reflexivity.
  - destruct (nth_error _ _); [|discriminate]. injection H as _ <-.
    reflexivity.
Qed.

Lemma keeps_advance_while f : keeps_line (advance_while f).
Proof.
  intros m a m' H. unfold advance_while in H.
  destruct (run_while _ _ _); [|discriminate]. injection H as _ <-.
  reflexivity.
Qed.

Lemma keeps_skip_spaces p : keeps_line (nasm_skip_spaces p).
Proof.
  intros m a m' H. unfold nasm_skip_spaces in H.
  destruct (run_while _ _ _); [|discriminate]. injection H as _ <-.
  reflexivity.
Qed.

Lemma keeps_pop : keeps_line stdscan_pop.
Proof.
  intros m a m' H. unfold stdscan_pop in H.
  destruct (stdscan_tempstorage m); [discriminate|]. injection H as _ <-.
  reflexivity.
Qed.

Lemma keeps_pushback_pop : keeps_line stdscan_pushback_pop.
Proof.
  intros m a m' H. unfold stdscan_pushback_pop in H.
  destruct (pushback (scan m)); [discriminate|]. injection H as _ <-.
  reflexivity.
Qed.

Lemma keeps_alloc bytes : keeps_line (stdscan_alloc bytes).
Proof.
  intros m a m' H. unfold stdscan_alloc in H.
  destruct (bytes <? 0)%Z; [discriminate|]. injection H as _ <-.
  simpl. destruct (_ >=? _)%Z; reflexivity.
Qed.

Lemma keeps_write_temp ptr data : keeps_line (write_temp ptr data).
Proof.
  intros m a m' H. unfold write_temp in H.
  destruct ptr as [|p|i]; try discriminate.
  destruct (nth_error _ _); [|discriminate].
  destruct (Nat.leb _ _); [|discriminate]. injection H as _ <-.
  reflexivity.
Qed.

Lemma keeps_run_number_loop h : keeps_line (run_number_loop h).
Proof.
  intros m a m' H. unfold run_number_loop in H.
  destruct (number_loop _ _ _ _ _) as [[[[q h'] f] e]|]; [|discriminate].
  injection H as _ <-. reflexivity.
Qed.

#[local] Hint Resolve keeps_ret keeps_fault keeps_get_bufptr keeps_set_bufptr
  keeps_bump keeps_emit keeps_peek keeps_read_bytes keeps_deref
  keeps_advance_while keeps_skip_spaces keeps_pop keeps_pushback_pop
  keeps_alloc keeps_write_temp keeps_run_number_loop : keeps.

Ltac keeps :=
  repeat first
    [ solve [auto with keeps]
    | apply keeps_bind; [|intros]
    | match goal with
      | |- keeps_line (if ?b then _ else _) => destruct b
      | |- keeps_line (match ?x with (_, _) => _ end) => destruct x
      | |- keeps_line (let (_, _) := ?x in _) => destruct x
      end ].

Lemma keeps_copy p len : keeps_line (stdscan_copy p len).
Proof. unfold stdscan_copy. keeps. Qed.

Lemma keeps_yield ty tv : keeps_line (yield ty tv).
Proof. unfold yield. keeps. Qed.

#[local] Hint Resolve keeps_copy keeps_yield : keeps.

Lemma keeps_pair_at a b : keeps_line (pair_at a b).
Proof. unfold pair_at. keeps. Qed.

#[local] Hint Resolve keeps_pair_at : keeps.

Lemma keeps_handle_brace tv : keeps_line (stdscan_handle_brace tv).
Proof. unfold stdscan_handle_brace. keeps. Qed.

#[local] Hint Resolve keeps_handle_brace : keeps.

Lemma keeps_parse_braces tv : keeps_line (stdscan_parse_braces tv).
Proof. unfold stdscan_parse_braces. keeps. Qed.

Lemma keeps_token_id tv : keeps_line (stdscan_token_id tv).
Proof. unfold stdscan_token_id. keeps. Qed.

Lemma keeps_token_num tv : keeps_line (stdscan_token_num tv).
Proof. unfold stdscan_token_num. keeps. Qed.

Lemma keeps_token_op tv : keeps_line (stdscan_token_op tv).
Proof. unfold stdscan_token_op. keeps. Qed.

#[local] Hint Resolve keeps_parse_braces keeps_token_id keeps_token_num
  keeps_token_op : keeps.

End Frame.

(* ------------------------------------------------------------------ *)
(** ** The token is zeroed first *)

Section Zeroed.

Context {E : Nasm}.

(** C10.  With nothing pushed back, what [stdscan] returns does not depend
    on what the caller's token held: the token is zeroed first.  So a
    token of the plain kind (end of line, comment, operator, single
    character, [$], [$$]) has a null text pointer, zero integers and zero
    flags.  And on the integer path of a number the entry of the temporary
    storage made for the conversion is gone on return (the storage is what
    it was), and the token, integer or invalid number, has a null text
    pointer. *)
Theorem C10_zeroed_token tv0 tv0' m q c rest :
  lexeme_at m q (c :: rest) -> terminated (c :: rest) ->
  nasm_isnumchar NUL = false ->
  (Z.of_nat (length (line m)) < 2 ^ 31)%Z ->
  stdscan tv0 m = stdscan tv0' m
  /\ (plain_start c rest ->
      exists i tv m',
        stdscan tv0 m = Some ((i, tv), m')
        /\ t_type tv = i /\ t_charptr tv = NULL
        /\ t_integer tv = 0%Z /\ t_inttwo tv = 0%Z /\ t_flag tv = 0%Z
        /\ t_start tv = LinePtr q
        /\ stdscan_tempstorage m' = stdscan_tempstorage m)
  /\ (c <> NUL -> number_start c rest ->
      let pre := if Ascii.eqb c "$" then 1 else 0 in
      exists j is_hex is_float has_e i tv m',
        number_loop (skipn pre (c :: rest)) (q + pre) (Ascii.eqb c "$")
                    false false
        = Some (S (q + pre + j), is_hex, is_float, has_e)
        /\ stdscan tv0 m = Some ((i, tv), m')
        /\ ((if has_e && negb is_hex then true else is_float) = false ->
            (i = TOKEN_NUM \/ i = TOKEN_ERRNUM)
            /\ t_type tv = i
            /\ t_charptr tv = NULL
            /\ stdscan_templen m' = stdscan_templen m
            /\ stdscan_tempstorage m' = stdscan_tempstorage m)).
Proof.
  intros Hlex Hterm Hnul Hlen.
  split; [|split].
  - destruct Hlex as (Hps & _). unfold stdscan. rewrite Hps. reflexivity.
  - intros Hplain.
    destruct (@stdscan_plain E tv0 m q c rest Hlex Hterm Hplain)
      as (k & ty & len & Hres & _ & _).
    do 3 eexists. split; [exact Hres|]. simpl. auto 10.
  - intros Hc Hstart pre.
    destruct (exponent_not_hex_is_float tv0 Hlex Hterm Hc Hstart Hnul Hlen)
      as (j & h & f & e & i & tv & m' & Hloop & Hres & _ & _ & Hint).
    exists j, h, f, e, i, tv, m'.
    split; [exact Hloop|]. split; [exact Hres|].
    intros Hfl.
    assert (Hf : f = false /\ e && negb h = false).
    { destruct (e && negb h); [discriminate | auto]. }
    destruct Hf as [Hf Heh].
    destruct (Hint Hf Heh) as (Hts & Hptr & _ & Hi & Hty).
    split.
    { rewrite Hi. destruct (snd (readnum _)); auto. }
    split; [exact Hty|]. split; [exact Hptr|].
    split; [unfold stdscan_templen; rewrite Hts; reflexivity | exact Hts].
Qed.

End Zeroed.

(* ------------------------------------------------------------------ *)
(** ** What the scanner keeps, step by step *)

Create HintDb relates.

Section Relations.

Context {E : Nasm}.
Variable R : machine -> machine -> Prop.
Variable P : event -> Prop.
Hypothesis eff : calm R P.

Lemma relates_ret A (a : A) : relates R (ret a).
Proof. intros m a' m' H. injection H as _ <-. apply (eff_refl eff). Qed.

Lemma relates_fault A : relates R (@fault A).
Proof. intros m a m' H. discriminate. Qed.

Lemma relates_bind A B (x : M A) (k : A -> M B) :
  relates R x -> (forall a, relates R (k a)) -> relates R (bind x k).
Proof.
  intros Hx Hk m b m' H. unfold bind in H.
  destruct (x m) as [[a m1]|] eqn:Hxm; [|discriminate].
  exact (eff_trans eff _ _ _ (Hx _ _ _ Hxm) (Hk a _ _ _ H)).
Qed.

Lemma relates_get_bufptr : relates R get_bufptr.
Proof. intros m a m' H. injection H as _ <-. apply (eff_refl eff). Qed.

Lemma relates_peek k : relates R (peek k).
Proof.
  intros m a m' H. unfold peek in H.
  destruct (nth_error _ _); [|discriminate]. injection H as _ <-.
  apply (eff_refl eff).
Qed.

Lemma relates_read_bytes p n : relates R (read_bytes p n).
Proof.
  intros m a m' H. unfold read_bytes in H.
  destruct (Nat.leb _ _); [|discriminate]. injection H as _ <-.
  apply (eff_refl eff).
Qed.

Lemma relates_deref ptr : relates R (deref ptr).
Proof.
  intros m a m' H. unfold deref in H. destruct ptr as [|p|i].
  - discriminate.
  - destruct (Nat.ltb _ _); [|discriminate]. injection H as _ <-.
    apply (eff_refl eff).
  - destruct (nth_error _ _); [|discriminate]. injection H as _ <-.
    apply (eff_refl eff).
Qed.

Lemma relates_skip_spaces p : relates R (nasm_skip_spaces p).
Proof.
  intros m a m' H. unfold nasm_skip_spaces in H.
  destruct (run_while _ _ _); [|discriminate]. injection H as _ <-.
  apply (eff_refl eff).
Qed.

Lemma relates_set_bufptr p : relates R (set_bufptr p).
Proof. intros m a m' H. injection H as _ <-. apply (eff_bufptr eff). Qed.

Lemma relates_bump n : relates R (bump n).
Proof. intros m a m' H. injection H as _ <-. apply (eff_bufptr eff). Qed.

Lemma relates_advance_while f : relates R (advance_while f).
Proof.
  intros m a m' H. unfold advance_while in H.
  destruct (run_while _ _ _); [|discriminate]. injection H as _ <-.
  apply (eff_bufptr eff).
Qed.

Lemma relates_run_number_loop h : relates R (run_number_loop h).
Proof.
  intros m a m' H. unfold run_number_loop in H.
  destruct (number_loop _ _ _ _ _) as [[[[q h'] f] e]|]; [|discriminate].
  injection H as _ <-. apply (eff_bufptr eff).
Qed.

Lemma relates_emit e : P e -> relates R (emit e).
Proof. intros He m a m' H. injection H as _ <-. apply (eff_emit eff _ _ He). Qed.

Lemma relates_pushback_pop : relates R stdscan_pushback_pop.
Proof.
  intros m a m' H. unfold stdscan_pushback_pop in H.
  destruct (pushback (scan m)); [discriminate|]. injection H as _ <-.
  apply (eff_pushback eff).
Qed.

Lemma relates_pushback tv : relates R (stdscan_pushback tv).
Proof. intros m a m' H. injection H as _ <-. apply (eff_pushback eff). Qed.

Lemma relates_call_unquote str :
  P (Ev_unquote str) -> relates R (call_unquote str).
Proof.
  intros He. unfold call_unquote.
  apply relates_bind; [apply (relates_emit He)|].
  intros _ m a m' H.
  destruct (nasm_unquote (line m) str) as [[mem ep] n].
  injection H as _ <-.
  exact (eff_trans eff _ _ _ (eff_line eff mem m) (eff_bufptr eff ep _)).
Qed.

End Relations.

#[global] Hint Resolve relates_ret relates_fault relates_get_bufptr
  relates_peek relates_read_bytes relates_deref relates_skip_spaces
  relates_set_bufptr relates_bump relates_advance_while
  relates_run_number_loop relates_emit relates_pushback_pop
  relates_pushback relates_call_unquote eff_alloc eff_write eff_pop
  : relates.

Ltac relate :=
  repeat first
    [ solve [eauto with relates]
    | eapply relates_bind; [eassumption | | intros]
    | match goal with
      | |- relates _ (if ?b then _ else _) => destruct b
      | |- relates _ (match ?x with (_, _) => _ end) => destruct x
      | |- relates _ (let (_, _) := ?x in _) => destruct x
      end ].

Section CalmFunctions.

Context {E : Nasm}.
Variable R : machine -> machine -> Prop.
Variable P : event -> Prop.
Hypothesis cal : calm R P.

Lemma relates_yield ty tv : relates R (yield ty tv).
Proof. unfold yield. relate. Qed.

Lemma relates_pair_at a b : relates R (pair_at a b).
Proof. unfold pair_at. relate. Qed.

Lemma relates_token_op tv : relates R (stdscan_token_op tv).
Proof.
  pose proof relates_pair_at as Hp. pose proof relates_yield as Hy.
  unfold stdscan_token_op. relate.
Qed.

Lemma relates_token_str tv :
  (forall str, P (Ev_unquote str)) -> relates R (stdscan_token_str tv).
Proof.
  intros Hp. pose proof relates_yield as Hy.
  unfold stdscan_token_str. relate.
Qed.

Lemma relates_handle_brace tv :
  (forall content, P (Ev_nonfatal_not_valid_token content)) ->
  relates R (stdscan_handle_brace tv).
Proof.
  intros Hp. pose proof relates_yield as Hy.
  unfold stdscan_handle_brace. relate.
Qed.

End CalmFunctions.

Section Functions.

Context {E : Nasm}.
Variable R : machine -> machine -> Prop.
Variable P : event -> Prop.
Hypothesis eff : effect R P.

Lemma relates_copy p len : relates R (stdscan_copy p len).
Proof. pose proof (eff_calm eff) as cal. unfold stdscan_copy. relate. Qed.

Lemma relates_token_num tv :
  (forall literal, P (Ev_readnum literal)) ->
  relates R (stdscan_token_num tv).
Proof.
  intros Hp. pose proof (eff_calm eff) as cal.
  pose proof relates_copy as Hc. pose proof (relates_yield cal) as Hy.
  unfold stdscan_token_num. relate.
Qed.

Lemma relates_token_id tv :
  (forall name, P (Ev_token_hash name)) ->
  (forall name, P (Ev_warn_ptr name)) ->
  relates R (stdscan_token_id tv).
Proof.
  intros Hh Hw. pose proof (eff_calm eff) as cal.
  pose proof relates_copy as Hc. pose proof (relates_yield cal) as Hy.
  unfold stdscan_token_id. relate.
Qed.

Lemma relates_parse_braces tv :
  (forall e, P e) -> relates R (stdscan_parse_braces tv).
Proof.
  intros Hp. pose proof (eff_calm eff) as cal.
  pose proof relates_copy as Hc. pose proof (relates_yield cal) as Hy.
  pose proof (fun tv => relates_handle_brace cal tv (fun c => Hp _)) as Hb.
  unfold stdscan_parse_braces. relate.
Qed.

(** [stdscan_token], for calls that are no diagnostics; a token that
    starts with a brace may make any call. *)
Lemma relates_token tv m r m' :
  (forall e, is_nonfatal e = false -> P e) ->
  (peek 0 m = Some ("{"%char, m) -> forall e, P e) ->
  stdscan_token tv m = Some (r, m') -> R m m'.
Proof.
  intros Hq Hbrace H.
  pose proof (eff_calm eff) as cal.
  pose proof (relates_yield cal) as Hy.
  pose proof (relates_token_op cal) as Ho.
  pose proof (fun tv => @relates_token_id tv
                          (fun n => Hq (Ev_token_hash n) eq_refl)
                          (fun n => Hq (Ev_warn_ptr n) eq_refl)) as Hid.
  pose proof (fun tv => @relates_token_num tv
                          (fun n => Hq (Ev_readnum n) eq_refl)) as Hnum.
  pose proof (fun tv => @relates_token_str _ _ _ cal tv
                          (fun n => Hq (Ev_unquote n) eq_refl)) as Hstr.
  unfold stdscan_token in H. unfold bind at 1 in H.
  destruct (peek 0 m) as [[c m0]|] eqn:Hpeek; [|discriminate].
  assert (m0 = m) as ->.
  { unfold peek in Hpeek. destruct (nth_error _ _); [|discriminate].
    injection Hpeek as _ <-. reflexivity. }
  revert H.
  match goal with
  | |- ?k m = _ -> _ => enough (Hk : relates R k) by (intros H; exact (Hk _ _ _ H))
  end.
  destruct (Ascii.eqb c "{") eqn:Hc.
  - apply Ascii.eqb_eq in Hc. subst c.
    pose proof (relates_parse_braces tv (Hbrace eq_refl)) as Hpb.
    relate.
  - relate.
Qed.

Lemma relates_stdscan tv0 m r m' :
  (forall e, is_nonfatal e = false -> P e) ->
  (forall q, nasm_skip_spaces (bufptr (scan m)) m = Some (q, m) ->
             nth_error (line m) q = Some "{"%char ->
             pushback (scan m) = [] -> forall e, P e) ->
  stdscan tv0 m = Some (r, m') -> R m m'.
Proof.
  intros Hq Hbrace H. pose proof (eff_calm eff) as cal. unfold stdscan in H.
  destruct (pushback (scan m)) as [|top ps] eqn:Hps.
  - unfold bind at 1 in H. unfold get_bufptr at 1 in H.
    unfold bind at 1 in H.
    destruct (nasm_skip_spaces (bufptr (scan m)) m) as [[q m0]|] eqn:Hskip;
      [|discriminate].
    assert (m0 = m) as ->.
    { unfold nasm_skip_spaces in Hskip. destruct (run_while _ _ _);
        [|discriminate]. injection Hskip as _ <-. reflexivity. }
    unfold bind at 1 in H. unfold set_bufptr at 1 in H.
    apply (eff_trans cal _ _ _ (eff_bufptr cal q m)).
    unfold bind at 1 in H.
    destruct (peek 0 (with_bufptr q m)) as [[c m0]|] eqn:Hpeek;
      [|discriminate].
    assert (m0 = with_bufptr q m) as ->.
    { unfold peek in Hpeek. destruct (nth_error _ _); [|discriminate].
      injection Hpeek as _ <-. reflexivity. }
    destruct (Ascii.eqb c NUL).
    + injection H as _ <-. apply (eff_refl cal).
    + unfold bind at 1 in H.
      destruct (stdscan_token _ _) as [[[i tv] m1]|] eqn:Htok;
        [|discriminate].
      unfold bind, get_bufptr, ret in H. injection H as _ <-.
      apply (relates_token _ Hq) in Htok; [exact Htok|].
      intros Hb. apply (Hbrace q eq_refl); [|reflexivity].
      rewrite Hb in Hpeek. unfold peek in Hb. simpl in Hb.
      rewrite Nat.add_0_r in Hb.
      destruct (nth_error (line m) q) as [c'|]; [|discriminate].
      injection Hb as ->. reflexivity.
  - unfold bind in H. unfold stdscan_pushback_pop in H. rewrite Hps in H.
    injection H as _ <-. apply (eff_pushback cal).
Qed.

End Functions.

Section Instances.

Context {E : Nasm}.

Lemma room_effect : effect room_kept (fun _ => True).
Proof.
  constructor; [constructor|..]; unfold room_kept, has_room, stdscan_templen.
  - intros m. split; [auto | lia].
  - intros m1 m2 m3 [H1 L1] [H2 L2]. split; [auto | lia].
  - intros p m. simpl. split; [auto | lia].
  - intros l m. simpl. split; [auto | lia].
  - intros ps m. simpl. split; [auto | lia].
  - intros e m _. simpl. split; [auto | lia].
  - intros bytes m a m' H. unfold stdscan_alloc in H.
    destruct (bytes <? 0)%Z; [discriminate|]. injection H as _ <-.
    unfold stdscan_templen. simpl. rewrite length_app. simpl.
    destruct (Z.geb_spec (Z.of_nat (length (stdscan_tempstorage m)))
                         (stdscan_tempsize m)); simpl;
      unfold STDSCAN_TEMP_DELTA; split; lia.
  - intros ptr data m a m' H. unfold write_temp in H.
    destruct ptr as [|p|i]; try discriminate.
    destruct (nth_error (stdscan_tempstorage m) i) as [blk|] eqn:Hn;
      [|discriminate].
    destruct (Nat.leb _ _); [|discriminate]. injection H as _ <-.
    split; [|simpl; lia].
    assert (Hi : i < length (stdscan_tempstorage m)).
    { apply nth_error_Some. congruence. }
    intros Hr.
    match goal with
    | |- context [with_tempstorage ?l m] =>
        change (Z.of_nat (length l) <= stdscan_tempsize m)%Z
    end.
    assert (Hcons : forall (x : list ascii) l,
               length (x :: l) = S (length l)) by reflexivity.
    rewrite length_app, length_firstn, Hcons.
    change (match stdscan_tempstorage m with
            | [] => []
            | _ :: l => skipn i l
            end) with (skipn (S i) (stdscan_tempstorage m)).
    rewrite length_skipn. lia.
  - intros m a m' H. unfold stdscan_pop in H.
    remember (removelast (stdscan_tempstorage m)) as rl eqn:Hrl.
    destruct (stdscan_tempstorage m) as [|x l] eqn:Hts; [discriminate|].
    injection H as _ <-. split; [|simpl; lia].
    intros Hr. change (Z.of_nat (length rl) <= stdscan_tempsize m)%Z.
    rewrite Hrl, removelast_firstn_len, length_firstn. lia.
Qed.

Lemma calls_effect (P : event -> Prop) : effect (calls P) P.
Proof.
  assert (Hsame : forall m m', trace m' = trace m -> calls P m m').
  { intros m m' H. exists []. rewrite app_nil_r. auto. }
  constructor; [constructor|..].
  - intros m. apply Hsame. reflexivity.
  - intros m1 m2 m3 (l1 & H1 & F1) (l2 & H2 & F2). exists (l1 ++ l2).
    split; [rewrite H2, H1, app_assoc; reflexivity|].
    apply Forall_app. auto.
  - intros p m. apply Hsame. reflexivity.
  - intros l m. apply Hsame. reflexivity.
  - intros ps m. apply Hsame. reflexivity.
  - intros e m He. exists [e]. split; [reflexivity|]. constructor; auto.
  - intros bytes m a m' H. apply Hsame. unfold stdscan_alloc in H.
    destruct (bytes <? 0)%Z; [discriminate|]. injection H as _ <-.
    simpl. destruct (_ >=? _)%Z; reflexivity.
  - intros ptr data m a m' H. apply Hsame. unfold write_temp in H.
    destruct ptr as [|p|i]; try discriminate.
    destruct (nth_error _ _); [|discriminate].
    destruct (Nat.leb _ _); [|discriminate]. injection H as _ <-.
    reflexivity.
  - intros m a m' H. apply Hsame. unfold stdscan_pop in H.
    destruct (stdscan_tempstorage m); [discriminate|]. injection H as _ <-.
    reflexivity.
Qed.

Lemma room_scan_times n :
  forall m rs m', scan_times n m = Some (rs, m') -> room_kept m m'.
Proof.
  induction n as [|n IH]; intros m rs m' H.
  - injection H as _ <-. apply (eff_refl (eff_calm room_effect)).
  - simpl in H. unfold bind at 1 in H.
    destruct (stdscan zero_tokenval m) as [[r m1]|] eqn:Hs; [|discriminate].
    unfold bind at 1 in H.
    destruct (scan_times n m1) as [[rs1 m2]|] eqn:Hn; [|discriminate].
    injection H as _ <-.
    apply (eff_trans (eff_calm room_effect) _ m1).
    + eapply relates_stdscan;
        [apply room_effect | intros; exact I | intros; exact I | exact Hs].
    + apply (IH _ _ _ Hn).
Qed.

(** The array of pointers to the temporary strings is never written
    beyond its end.  When it has room for the entries in use,
    [stdscan_alloc] writes the new entry at an index below the size the
    array then has, and the array still has room after [stdscan_alloc],
    after [stdscan_reset] and after any number of scans, which never
    shrink it. *)
Theorem temp_array_has_room m :
  has_room m ->
  (forall bytes p m',
      stdscan_alloc bytes m = Some (p, m') ->
      p = TempPtr (stdscan_templen m)
      /\ (Z.of_nat (stdscan_templen m) < stdscan_tempsize m')%Z
      /\ stdscan_templen m' = S (stdscan_templen m)
      /\ has_room m')
  /\ (forall buffer m',
         stdscan_reset buffer m = Some (tt, m') -> has_room m')
  /\ (forall n rs m',
         scan_times n m = Some (rs, m') ->
         has_room m' /\ (stdscan_tempsize m <= stdscan_tempsize m')%Z).
Proof.
  intros Hroom. split; [|split].
  - intros bytes p m' H.
    pose proof (eff_alloc room_effect bytes _ H) as [Hk _].
    specialize (Hk Hroom).
    unfold stdscan_alloc in H.
    destruct (bytes <? 0)%Z; [discriminate|]. injection H as <- <-.
    split; [reflexivity|].
    assert (Hlen : stdscan_templen
                     (with_tempstorage
                        (stdscan_tempstorage m ++ [repeat NUL (Z.to_nat bytes)])
                        (if (Z.of_nat (stdscan_templen m)
                             >=? stdscan_tempsize m)%Z
                         then with_tempsize
                                (stdscan_tempsize m + STDSCAN_TEMP_DELTA) m
                         else m))
                   = S (stdscan_templen m)).
    { unfold stdscan_templen. simpl. rewrite length_app. simpl. lia. }
    split; [|split; [exact Hlen | exact Hk]].
    unfold has_room in Hk. rewrite Hlen in Hk. lia.
  - intros buffer m' H. rewrite stdscan_reset_eq in H. injection H as <-.
    unfold has_room in *. unfold stdscan_templen in *. simpl. lia.
  - intros n rs m' H. destruct (room_scan_times n _ H) as [Hk Hle]. auto.
Qed.


End Instances.

(* ------------------------------------------------------------------ *)
(** ** Who writes the line *)

Section Writes.

Context {E : Nasm}.

Lemma peek_state k m c m1 :
  peek k m = Some (c, m1) ->
  m1 = m /\ nth_error (line m) (bufptr (scan m) + k) = Some c.
Proof.
  unfold peek. intros H.
  destruct (nth_error (line m) (bufptr (scan m) + k)) as [c'|];
    [|discriminate].
  injection H as <- <-. auto.
Qed.

(** The quoted-string branch: the line is what [nasm_unquote] leaves. *)
Lemma token_str_line tv m r m' :
  stdscan_token_str tv m = Some (r, m') ->
  line m' = fst (fst (nasm_unquote (line m) (bufptr (scan m))))
  /\ trace m' = trace m ++ [Ev_unquote (bufptr (scan m))].
Proof.
  intros H. unfold stdscan_token_str in H. unfold bind at 1 in H.
  destruct (peek 0 m) as [[c m1]|] eqn:Hpeek; [|discriminate].
  destruct (peek_state _ _ Hpeek) as [-> _].
  unfold bind at 1 in H. unfold get_bufptr at 1 in H.
  unfold bind at 1 in H. unfold call_unquote in H.
  unfold bind at 1 in H. unfold emit at 1 in H.
  simpl line in H.
  destruct (nasm_unquote (line m) (bufptr (scan m))) as [[mem ep] n].
  unfold bind at 1 in H.
  match type of H with
  | match peek 0 ?mu with _ => _ end = _ =>
      destruct (peek 0 mu) as [[d m2]|] eqn:Hpeek2; [|discriminate];
      destruct (peek_state _ _ Hpeek2) as [-> _]
  end.
  destruct (negb (Ascii.eqb d c)); injection H as _ <-; split; reflexivity.
Qed.


Lemma reads_ret A (a : A) : reads (ret a).
Proof. intros m a' m' H. injection H as _ <-. reflexivity. Qed.

Lemma reads_peek k : reads (peek k).
Proof. intros m a m' H. apply (peek_state _ _ H). Qed.

Lemma reads_bind A B (x : M A) (k : A -> M B) :
  reads x -> (forall a, reads (k a)) -> reads (bind x k).
Proof.
  intros Hx Hk m b m' H. unfold bind in H.
  destruct (x m) as [[a m1]|] eqn:Hxm; [|discriminate].
  rewrite (Hk a _ _ _ H). apply (Hx _ _ _ Hxm).
Qed.

#[local] Hint Resolve keeps_ret keeps_fault keeps_get_bufptr keeps_set_bufptr
  keeps_bump keeps_emit keeps_peek keeps_read_bytes keeps_deref
  keeps_advance_while keeps_skip_spaces keeps_pop keeps_pushback_pop
  keeps_alloc keeps_write_temp keeps_run_number_loop keeps_copy keeps_yield
  keeps_pair_at keeps_handle_brace keeps_parse_braces keeps_token_id
  keeps_token_num keeps_token_op : keeps.

Ltac keeps_steps :=
  repeat first
    [ solve [auto with keeps]
    | apply keeps_bind; [|intros]
    | match goal with
      | |- keeps_line (if ?b then _ else _) => destruct b
      | |- keeps_line (match ?x with (_, _) => _ end) => destruct x
      | |- keeps_line (let (_, _) := ?x in _) => destruct x
      end ].

(** The line after [stdscan_token]: as it was, or what [nasm_unquote],
    called on a lexeme that begins with a quote, left of it. *)
Lemma token_line tv m r m' :
  stdscan_token tv m = Some (r, m') ->
  line m' = line m
  \/ exists c,
       nth_error (line m) (bufptr (scan m)) = Some c
       /\ is_quote c = true
       /\ line m' = fst (fst (nasm_unquote (line m) (bufptr (scan m))))
       /\ trace m' = trace m ++ [Ev_unquote (bufptr (scan m))].
Proof.
  intros H. unfold stdscan_token in H. unfold bind at 1 in H.
  destruct (peek 0 m) as [[c m1]|] eqn:Hpeek; [|discriminate].
  destruct (peek_state _ _ Hpeek) as [-> Hc].
  rewrite Nat.add_0_r in Hc.
  destruct (is_quote c) eqn:Hq.
  - unfold bind at 1 in H.
    match type of H with
    | match ?x m with _ => _ end = _ =>
        assert (Hx : reads x)
          by (destruct (nasm_isidstart c); [apply reads_ret|];
              destruct (Ascii.eqb c "$");
              [apply reads_bind; [apply reads_peek|intros; apply reads_ret]
              |apply reads_ret]);
        destruct (x m) as [[is_id m2]|] eqn:Hxm; [|discriminate];
        rewrite (Hx _ _ _ Hxm) in H; clear Hx Hxm
    end.
    destruct is_id; [left; exact (keeps_token_id tv _ H)|].
    unfold bind at 1 in H.
    match type of H with
    | match ?x m with _ => _ end = _ =>
        assert (Hx : reads x)
          by (destruct (Ascii.eqb c "$");
              [apply reads_bind; [apply reads_peek|intros; apply reads_ret]
              |apply reads_ret]);
        destruct (x m) as [[is_here m3]|] eqn:Hxm; [|discriminate];
        rewrite (Hx _ _ _ Hxm) in H; clear Hx Hxm
    end.
    destruct is_here.
    { left. revert H.
      match goal with
      | |- ?x m = _ -> _ =>
          assert (K : keeps_line x) by keeps_steps;
          intros H; exact (K _ _ _ H)
      end. }
    destruct (nasm_isnumstart c); [left; exact (keeps_token_num tv _ H)|].
    right. exists c. destruct (token_str_line _ _ H) as [Hl Ht]. auto.
  - left. revert H. cbv iota.
    match goal with
    | |- ?x m = _ -> _ =>
        assert (K : keeps_line x) by keeps_steps;
        intros H; exact (K _ _ _ H)
    end.
Qed.


(** The line after one scan. *)
Lemma stdscan_line tv0 m r m' :
  stdscan tv0 m = Some (r, m') ->
  line m' = line m
  \/ exists q c,
       pushback (scan m) = []
       /\ nasm_skip_spaces (bufptr (scan m)) m = Some (q, m)
       /\ nth_error (line m) q = Some c
       /\ is_quote c = true
       /\ line m' = fst (fst (nasm_unquote (line m) q))
       /\ trace m' = trace m ++ [Ev_unquote q].
Proof.
  intros H. unfold stdscan in H.
  destruct (pushback (scan m)) as [|top ps] eqn:Hps.
  - unfold bind at 1 in H. unfold get_bufptr at 1 in H.
    unfold bind at 1 in H.
    destruct (nasm_skip_spaces (bufptr (scan m)) m) as [[q m0]|] eqn:Hskip;
      [|discriminate].
    assert (m0 = m) as ->.
    { unfold nasm_skip_spaces in Hskip.
      destruct (run_while _ _ _); [|discriminate].
      injection Hskip as _ <-. reflexivity. }
    unfold bind at 1 in H. unfold set_bufptr at 1 in H.
    unfold bind at 1 in H.
    destruct (peek 0 (with_bufptr q m)) as [[c m1]|] eqn:Hpeek;
      [|discriminate].
    destruct (peek_state _ _ Hpeek) as [-> _].
    destruct (Ascii.eqb c NUL).
    + left. exact (keeps_yield H).
    + unfold bind at 1 in H.
      destruct (stdscan_token _ (with_bufptr q m)) as [[[i tv] m2]|] eqn:Htok;
        [|discriminate].
      unfold bind at 1 in H. unfold get_bufptr at 1 in H.
      injection H as _ <-.
      destruct (token_line _ _ Htok) as [Hl | (d & Hd & Hq & Hl & Ht)].
      * left. exact Hl.
      * right. exists q, d. simpl in Hd, Hl, Ht. auto 7.
  - left. revert H.
    match goal with
    | |- ?x m = _ -> _ =>
        assert (K : keeps_line x) by keeps_steps;
        intros H; exact (K _ _ _ H)
    end.
Qed.

(** One scan writes the line through [nasm_unquote] alone. *)
Lemma stdscan_only_unquote tv0 m r m' :
  stdscan tv0 m = Some (r, m') -> only_unquote_writes m m'.
Proof.
  intros H.
  assert (Hc : calls (fun _ => True) m m').
  { eapply (relates_stdscan (calls_effect (fun _ => True)));
      [intros; exact I | intros; exact I | exact H]. }
  destruct Hc as (l & Hl & _). exists l. split; [exact Hl|].
  intros Hno.
  destruct (stdscan_line _ _ H) as [Hk | (q & c & _ & _ & _ & _ & _ & Ht)];
    [exact Hk|].
  rewrite Hl in Ht. apply app_inv_head in Ht. subst l.
  inversion Hno as [|e l' He]. discriminate He.
Qed.

Lemma only_unquote_trans m1 m2 m3 :
  only_unquote_writes m1 m2 -> only_unquote_writes m2 m3 ->
  only_unquote_writes m1 m3.
Proof.
  intros (l1 & H1 & K1) (l2 & H2 & K2). exists (l1 ++ l2).
  split; [rewrite H2, H1, app_assoc; reflexivity|].
  intros Hno. apply Forall_app in Hno as [Hn1 Hn2].
  rewrite (K2 Hn2). exact (K1 Hn1).
Qed.

Lemma scan_times_only_unquote n m rs m' :
  scan_times n m = Some (rs, m') -> only_unquote_writes m m'.
Proof.
  revert m rs m'. induction n as [|n IH]; intros m rs m' H.
  - injection H as _ <-. exists []. rewrite app_nil_r. auto.
  - simpl in H. unfold bind at 1 in H.
    destruct (stdscan zero_tokenval m) as [[r m1]|] eqn:Hs; [|discriminate].
    unfold bind at 1 in H.
    destruct (scan_times n m1) as [[rs1 m2]|] eqn:Hn; [|discriminate].
    injection H as _ <-.
    exact (only_unquote_trans (stdscan_only_unquote _ _ Hs) (IH _ _ _ Hn)).
Qed.


End Writes.

Section Typed.

Context {E : Nasm}.

Lemma typed_bind A (x : M A) (k : A -> M (Z * tokenval)) :
  (forall a, typed (k a)) -> typed (bind x k).
Proof.
  intros Hk m i tv m' H. unfold bind in H.
  destruct (x m) as [[a m1]|]; [|discriminate]. exact (Hk a _ _ _ _ H).
Qed.

Lemma typed_yield ty tv : typed (yield ty tv).
Proof. intros m i tv' m' H. injection H as <- <- _. reflexivity. Qed.

Lemma typed_ret tv : typed (ret (t_type tv, tv)).
Proof. intros m i tv' m' H. injection H as <- <- _. reflexivity. Qed.

Ltac typed_steps :=
  repeat first
    [ apply typed_yield
    | apply typed_ret
    | solve [auto]
    | progress cbv zeta
    | apply typed_bind; intros
    | match goal with
      | |- typed (if ?b then _ else _) => destruct b
      | |- typed (let (_, _) := ?x in _) => destruct x eqn:?
      | |- typed (match ?x with (_, _) => _ end) => destruct x eqn:?
      end ].

Lemma typed_handle_brace tv : typed (stdscan_handle_brace tv).
Proof. unfold stdscan_handle_brace. typed_steps. Qed.

Lemma typed_parse_braces tv : typed (stdscan_parse_braces tv).
Proof.
  pose proof typed_handle_brace as Hb. unfold stdscan_parse_braces. typed_steps.
Qed.

Lemma typed_token_num tv : typed (stdscan_token_num tv).
Proof. unfold stdscan_token_num. typed_steps. Qed.

Lemma typed_token_str tv : typed (stdscan_token_str tv).
Proof. unfold stdscan_token_str. typed_steps. Qed.

Lemma typed_token_op tv : typed (stdscan_token_op tv).
Proof. unfold stdscan_token_op. typed_steps. Qed.

Hypothesis hash_typed :
  forall name tv,
    t_type (snd (nasm_token_hash name tv)) = fst (nasm_token_hash name tv).

Lemma typed_token_id tv : typed (stdscan_token_id tv).
Proof.
  unfold stdscan_token_id. typed_steps.
  intros m i tv' m' H. injection H as <- <- _.
  match goal with
  | Hh : nasm_token_hash ?n ?t = _ |- _ =>
      pose proof (hash_typed n t) as Ht; rewrite Hh in Ht; exact Ht
  end.
Qed.

Lemma typed_token tv : typed (stdscan_token tv).
Proof.
  pose proof typed_token_id as H1. pose proof typed_token_num as H2.
  pose proof typed_token_str as H3. pose proof typed_token_op as H4.
  pose proof typed_parse_braces as H5.
  unfold stdscan_token. typed_steps; auto.
Qed.

(** The value [stdscan] returns is the type it leaves in the token,
    whatever the token: one taken from the pushback stack, end-of-stream,
    or any token read from the line, when this holds of what the keyword
    hash returns. *)
Theorem returns_token_type tv0 m i tv m' :
  stdscan tv0 m = Some ((i, tv), m') -> t_type tv = i.
Proof.
  intros H. unfold stdscan in H.
  destruct (pushback (scan m)) as [|top ps] eqn:Hps.
  - clear Hps. revert m i tv m' H.
    change (typed (let tv := zero_tokenval in
         p <- get_bufptr ;;
         q <- nasm_skip_spaces p ;;
         set_bufptr q ;;;
         let tv := set_start (LinePtr q) tv in
         c <- peek 0 ;;
         if Ascii.eqb c NUL then yield TOKEN_EOS tv
         else
           '(i, tv) <- stdscan_token tv ;;
           p' <- get_bufptr ;;
           ret (i, set_len (int_of (Z.of_nat p' - Z.of_nat q)) tv))).
    pose proof typed_token as Ht.
    cbv zeta. do 4 (apply typed_bind; intros).
    destruct (Ascii.eqb a2 NUL); [apply typed_yield|].
    intros m i tv m' H. unfold bind at 1 in H.
    destruct (stdscan_token _ m) as [[[i1 tv1] m1]|] eqn:Htok; [|discriminate].
    unfold bind, get_bufptr, ret in H. injection H as <- <- _.
    exact (Ht _ _ _ _ _ Htok).
  - unfold bind, stdscan_pushback_pop in H. rewrite Hps in H.
    injection H as <- <- _. reflexivity.
Qed.

End Typed.

Section Growth.

Context {E : Nasm}.

Lemma same_temp_calm : calm same_temp (fun _ => True).
Proof. constructor; unfold same_temp; intros; simpl; congruence. Qed.

Lemma grown_same k m m' : same_temp m m' -> temp_grown k m m'.
Proof.
  intros H. exists []. split; [simpl; lia|]. rewrite app_nil_r. exact H.
Qed.

Lemma grown_after_same k m m1 m' :
  same_temp m m1 -> temp_grown k m1 m' -> temp_grown k m m'.
Proof. intros H (l & Hl & Hts). exists l. rewrite Hts, H. auto. Qed.

Lemma grown_then_same k m m1 m' :
  temp_grown k m m1 -> same_temp m1 m' -> temp_grown k m m'.
Proof. intros (l & Hl & Hts) H. exists l. rewrite H, Hts. auto. Qed.

(** [stdscan_copy] makes one entry, the last. *)
Lemma copy_adds p len m txt m' :
  stdscan_copy p len m = Some (txt, m') ->
  txt = TempPtr (stdscan_templen m)
  /\ exists blk, stdscan_tempstorage m' = stdscan_tempstorage m ++ [blk].
Proof.
  intros H. unfold stdscan_copy in H. unfold bind at 1 in H.
  unfold stdscan_alloc in H.
  destruct (len + 1 <? 0)%Z; [discriminate|].
  destruct (len <? 0)%Z; [discriminate|].
  set (m1 := if (Z.of_nat (stdscan_templen m) >=? stdscan_tempsize m)%Z
             then with_tempsize (stdscan_tempsize m + STDSCAN_TEMP_DELTA)%Z m
             else m) in H.
  assert (Hm1 : stdscan_tempstorage m1 = stdscan_tempstorage m /\ line m1 = line m).
  { unfold m1. destruct (_ >=? _)%Z; auto. }
  clearbody m1. destruct Hm1 as [Hts1 Hl1].
  unfold bind at 1 in H. unfold read_bytes in H. simpl line in H.
  destruct (Nat.leb _ _); [|discriminate].
  unfold bind at 1 in H. unfold write_temp in H.
  simpl stdscan_tempstorage in H.
  unfold stdscan_templen in H.
  rewrite nth_error_last in H.
  destruct (Nat.leb _ _); [|discriminate].
  unfold ret in H. injection H as <- <-. split; [reflexivity|].
  simpl stdscan_tempstorage.
  rewrite firstn_app, firstn_all, Nat.sub_diag. simpl firstn.
  rewrite app_nil_r.
  eexists. f_equal. f_equal.
  change (skipn (S (length (stdscan_tempstorage m)))
                (stdscan_tempstorage m ++ [repeat NUL (Z.to_nat (len + 1))])
          = []).
  apply skipn_all2. rewrite length_app. simpl. lia.
Qed.

Lemma grown_of_same k A (x : M A) :
  relates same_temp x -> relates (temp_grown k) x.
Proof. intros H m a m' Hx. apply grown_same. exact (H _ _ _ Hx). Qed.

Lemma grown_bind_same k A B (x : M A) (f : A -> M B) :
  relates same_temp x -> (forall a, relates (temp_grown k) (f a)) ->
  relates (temp_grown k) (bind x f).
Proof.
  intros Hx Hf m b m' H. unfold bind in H.
  destruct (x m) as [[a m1]|] eqn:Hxm; [|discriminate].
  exact (grown_after_same (Hx _ _ _ Hxm) (Hf a _ _ _ H)).
Qed.

Lemma grown_bind_then_same k A B (x : M A) (f : A -> M B) :
  relates (temp_grown k) x -> (forall a, relates same_temp (f a)) ->
  relates (temp_grown k) (bind x f).
Proof.
  intros Hx Hf m b m' H. unfold bind in H.
  destruct (x m) as [[a m1]|] eqn:Hxm; [|discriminate].
  exact (grown_then_same (Hx _ _ _ Hxm) (Hf a _ _ _ H)).
Qed.

Lemma grown_copy p len : relates (temp_grown 1) (stdscan_copy p len).
Proof.
  intros m txt m' H. destruct (copy_adds _ _ _ H) as (_ & blk & Hts).
  exists [blk]. auto.
Qed.

Lemma same_emit e : relates same_temp (emit e).
Proof. apply (relates_emit same_temp_calm). exact I. Qed.

Lemma same_yield ty tv : relates same_temp (yield ty tv).
Proof. apply (relates_yield same_temp_calm). Qed.

Lemma same_handle_brace tv : relates same_temp (stdscan_handle_brace tv).
Proof. apply (relates_handle_brace same_temp_calm). intros; exact I. Qed.

Lemma same_token_op tv : relates same_temp (stdscan_token_op tv).
Proof. apply (relates_token_op same_temp_calm). Qed.

Lemma same_token_str tv : relates same_temp (stdscan_token_str tv).
Proof. apply (relates_token_str same_temp_calm). intros; exact I. Qed.

Ltac grow :=
  pose proof same_temp_calm as Hcalm;
  pose proof same_emit as Hemit;
  pose proof same_yield as Hyield;
  repeat first
    [ solve [apply grown_of_same; relate]
    | apply grown_copy
    | eapply grown_bind_same; [solve [relate] | intros]
    | eapply grown_bind_then_same; [ | solve [intros; relate] ]
    | progress cbv zeta
    | match goal with
      | |- relates _ (if ?b then _ else _) => destruct b
      | |- relates _ (match ?x with (_, _) => _ end) => destruct x
      | |- relates _ (let (_, _) := ?x in _) => destruct x
      end ].

Lemma grown_token_id tv : relates (temp_grown 1) (stdscan_token_id tv).
Proof. unfold stdscan_token_id. grow. Qed.

Lemma grown_parse_braces tv :
  relates (temp_grown 1) (stdscan_parse_braces tv).
Proof.
  pose proof same_handle_brace as Hb. unfold stdscan_parse_braces. grow.
Qed.

(** The integer path of a number: the entry made for the conversion is
    the one [stdscan_pop] frees. *)
Lemma same_number_integer r len tv :
  relates same_temp
    (r' <- stdscan_copy r len ;;
     literal <- deref r' ;;
     emit (Ev_readnum literal) ;;;
     let (value, rn_error) := readnum literal in
     let tv := set_integer value tv in
     stdscan_pop ;;;
     if rn_error then yield TOKEN_ERRNUM tv
     else yield TOKEN_NUM (set_charptr NULL tv)).
Proof.
  intros m a m' H. unfold bind at 1 in H.
  destruct (stdscan_copy r len m) as [[r' m1]|] eqn:Hcopy; [|discriminate].
  destruct (copy_adds _ _ _ Hcopy) as (_ & blk & Hts1).
  unfold bind at 1 in H.
  destruct (deref r' m1) as [[literal m2]|] eqn:Hd; [|discriminate].
  pose proof (relates_deref same_temp_calm _ _ Hd) as Hts2.
  unfold bind at 1 in H. unfold emit at 1 in H.
  destruct (readnum literal) as [value rn_error]. cbv zeta in H.
  unfold bind at 1 in H.
  set (m3 := with_trace _ m2) in H.
  assert (Hts3 : stdscan_tempstorage m3 = stdscan_tempstorage m ++ [blk]).
  { unfold m3. simpl. rewrite Hts2. exact Hts1. }
  rewrite (@stdscan_pop_last m3 _ _ Hts3) in H.
  destruct rn_error; injection H as _ <-; reflexivity.
Qed.

Lemma grown_token_num tv : relates (temp_grown 1) (stdscan_token_num tv).
Proof.
  pose proof same_number_integer as Hint.
  unfold stdscan_token_num. grow.
Qed.

Lemma grown_token tv : relates (temp_grown 1) (stdscan_token tv).
Proof.
  pose proof grown_token_id as H1. pose proof grown_token_num as H2.
  pose proof same_token_str as H3. pose proof same_token_op as H4.
  pose proof grown_parse_braces as H5.
  unfold stdscan_token.
  pose proof same_temp_calm as Hcalm;
  pose proof same_yield as Hyield;
  repeat first
    [ solve [auto]
    | solve [apply grown_of_same; auto]
    | solve [apply grown_of_same; relate]
    | eapply grown_bind_same; [solve [relate] | intros]
    | match goal with
      | |- relates _ (if ?b then _ else _) => destruct b
      end ].
Qed.

Lemma grown_stdscan tv0 : relates (temp_grown 1) (stdscan tv0).
Proof.
  intros m r m' H. unfold stdscan in H.
  destruct (pushback (scan m)) as [|top ps] eqn:Hps.
  - revert m r m' H Hps.
    intros m r m' H _. revert m r m' H.
    change (relates (temp_grown 1)
              (let tv := zero_tokenval in
               p <- get_bufptr ;;
               q <- nasm_skip_spaces p ;;
               set_bufptr q ;;;
               let tv := set_start (LinePtr q) tv in
               c <- peek 0 ;;
               if Ascii.eqb c NUL then yield TOKEN_EOS tv
               else
                 '(i, tv) <- stdscan_token tv ;;
                 p' <- get_bufptr ;;
                 ret (i, set_len (int_of (Z.of_nat p' - Z.of_nat q)) tv))).
    pose proof grown_token as Ht. pose proof same_temp_calm as Hcalm.
    pose proof same_yield as Hyield. cbv zeta.
    do 4 (eapply grown_bind_same; [solve [relate] | intros]).
    destruct (Ascii.eqb _ NUL); [apply grown_of_same; relate|].
    eapply grown_bind_then_same; [apply Ht|].
    intros [i tv]. relate.
  - unfold bind, stdscan_pushback_pop in H. rewrite Hps in H.
    injection H as _ <-. apply grown_same. reflexivity.
Qed.

Lemma grown_scan_times n : relates (temp_grown n) (scan_times n).
Proof.
  induction n as [|n IH]; intros m rs m' H.
  - injection H as _ <-. apply grown_same. reflexivity.
  - simpl in H. unfold bind at 1 in H.
    destruct (stdscan zero_tokenval m) as [[r m1]|] eqn:Hs; [|discriminate].
    unfold bind at 1 in H.
    destruct (scan_times n m1) as [[rs1 m2]|] eqn:Hn; [|discriminate].
    injection H as _ <-.
    destruct (grown_stdscan _ _ Hs) as (l1 & Hl1 & Hts1).
    destruct (IH _ _ _ Hn) as (l2 & Hl2 & Hts2).
    exists (l1 ++ l2). split; [rewrite length_app; lia|].
    rewrite Hts2, Hts1, app_assoc. reflexivity.
Qed.

(** The temporary strings stay.  Any number [n] of scans leaves the
    temporary storage as it was, with at most [n] new entries after the old
    ones (a scan adds one for an identifier, a float or a braced token, and
    none otherwise); so the text of every token read before is still
    where its pointer says, unchanged, until [stdscan_reset]. *)
Theorem temp_strings_stay n m rs m' :
  scan_times n m = Some (rs, m') ->
  (exists l, length l <= n
             /\ stdscan_tempstorage m' = stdscan_tempstorage m ++ l)
  /\ (forall tv txt, token_text m tv = Some txt -> token_text m' tv = Some txt).
Proof.
  intros H. destruct (grown_scan_times _ _ H) as (l & Hl & Hts).
  split; [exists l; auto|].
  intros tv txt Htxt. unfold token_text in *.
  destruct (t_charptr tv) as [|p|i]; try discriminate.
  destruct (nth_error (stdscan_tempstorage m) i) as [blk|] eqn:Hn;
    [|discriminate].
  rewrite Hts, nth_error_app1, Hn; [exact Htxt|].
  apply nth_error_Some. congruence.
Qed.

End Growth.

(* ------------------------------------------------------------------ *)
(** ** Reset, whitespace, the end of the line and plain tokens *)

Section Reset.

Context {E : Nasm}.

Lemma pushback_all_eq ts :
  forall m, pushback_all ts m
            = Some (tt, with_pushback (rev ts ++ pushback (scan m)) m).
Proof.
  induction ts as [|t ts IH]; intros m.
  - simpl. unfold ret. rewrite with_pushback_same. reflexivity.
  - simpl. unfold bind, stdscan_pushback. rewrite IH. simpl.
    rewrite <- app_assoc. reflexivity.
Qed.

(** [stdscan_reset] always returns, whatever the temporary storage and
    the pushback stack hold: every temporary string is freed, every token
    pushed back is dropped, and the cursor is at the start of the new
    line.  What the scanner was doing before shows in nothing but the size
    of the pointer array; resetting twice is resetting once. *)
Theorem reset_clears buffer m :
  (exists m1,
      stdscan_reset buffer m = Some (tt, m1)
      /\ stdscan_tempstorage m1 = [] /\ pushback (scan m1) = []
      /\ bufptr (scan m1) = 0 /\ line m1 = buffer
      /\ stdscan_tempsize m1 = stdscan_tempsize m /\ trace m1 = trace m
      /\ stdscan_reset buffer m1 = Some (tt, m1))
  /\ (forall ts,
         (pushback_all ts ;;; stdscan_reset buffer) m
         = stdscan_reset buffer m)
  /\ (forall m0,
         stdscan_tempsize m0 = stdscan_tempsize m -> trace m0 = trace m ->
         stdscan_reset buffer m0 = stdscan_reset buffer m).
Proof.
  split; [|split].
  - eexists. split; [apply stdscan_reset_eq|].
    repeat (split; [reflexivity|]). rewrite stdscan_reset_eq. reflexivity.
  - intros ts. unfold bind. rewrite pushback_all_eq.
    rewrite !stdscan_reset_eq. reflexivity.
  - intros m0 Hsz Htr. rewrite !stdscan_reset_eq, Hsz, Htr. reflexivity.
Qed.

End Reset.

Section Stops.

Context {E : Nasm}.

Lemma run_while_stop (f : ascii -> bool) :
  forall rest p q,
    run_while f rest p = Some q ->
    exists j c tl, q = p + j /\ skipn j rest = c :: tl /\ f c = false.
Proof.
  induction rest as [|c rest IH]; intros p q H; [discriminate|].
  simpl in H. destruct (f c) eqn:Hf.
  - destruct (IH _ _ H) as (j & c' & tl & -> & Hs & Hc).
    exists (S j), c', tl. split; [lia|]. auto.
  - injection H as <-. exists 0, c, rest. split; [lia|]. auto.
Qed.

(** Where [nasm_skip_spaces] stops there is a byte, and no space. *)
Lemma lexeme_not_space m q c rest :
  lexeme_at m q (c :: rest) -> space_char c = false.
Proof.
  intros (_ & Hskip & Hs). unfold nasm_skip_spaces in Hskip.
  destruct (run_while _ _ _) as [q'|] eqn:Hrun; [|discriminate].
  injection Hskip as ->.
  destruct (run_while_stop _ _ _ Hrun) as (j & c' & tl & -> & Hs' & Hc).
  rewrite skipn_add_tail, Hs' in Hs. injection Hs as <- _. exact Hc.
Qed.

Lemma lexeme_at_start m q c rest :
  lexeme_at m q (c :: rest) -> lexeme_at (with_bufptr q m) q (c :: rest).
Proof.
  intros Hlex. pose proof (lexeme_not_space Hlex) as Hsp.
  destruct Hlex as (Hps & Hskip & Hs).
  split; [exact Hps|]. split; [|exact Hs].
  unfold nasm_skip_spaces. simpl. rewrite Hs. simpl.
  change (negb (Ascii.eqb c NUL) && nasm_isspace c) with (space_char c).
  rewrite Hsp. reflexivity.
Qed.

Lemma run_while_run (f : ascii -> bool) :
  forall rest p q,
    run_while f rest p = Some q ->
    p <= q /\ Forall (fun c => f c = true) (firstn (q - p) rest).
Proof.
  induction rest as [|c rest IH]; intros p q H; [discriminate|].
  simpl in H. destruct (f c) eqn:Hf.
  - destruct (IH _ _ H) as (Hle & Hall). split; [lia|].
    replace (q - p) with (S (q - S p)) by lia. simpl.
    constructor; assumption.
  - injection H as <-. rewrite Nat.sub_diag. split; [lia | constructor].
Qed.

(** Whitespace before a token is skipped and is no part of it: the bytes
    from the cursor to the start of the token are all whitespace, the token
    starts on a byte that is none, and the scan is the scan that starts at
    the token. *)
Theorem spaces_are_skipped tv0 m q c rest :
  lexeme_at m q (c :: rest) ->
  bufptr (scan m) <= q
  /\ Forall (fun x => x <> NUL /\ nasm_isspace x = true)
            (firstn (q - bufptr (scan m)) (cursor m))
  /\ (c = NUL \/ nasm_isspace c = false)
  /\ stdscan tv0 m = stdscan tv0 (with_bufptr q m).
Proof.
  intros Hlex. pose proof (lexeme_not_space Hlex) as Hsp.
  pose proof (lexeme_at_start Hlex) as Hlex'.
  pose proof Hlex as (_ & Hskip & _).
  unfold nasm_skip_spaces in Hskip.
  destruct (run_while _ _ _) as [q'|] eqn:Hrun; [|discriminate].
  injection Hskip as ->.
  destruct (run_while_run _ _ _ Hrun) as (Hle & Hall).
  split; [exact Hle|]. split; [|split].
  - unfold cursor. eapply Forall_impl; [|exact Hall].
    intros x Hx. apply andb_true_iff in Hx. destruct Hx as [Hn Hx].
    split; [|exact Hx]. intros ->. discriminate.
  - unfold space_char in Hsp. apply andb_false_iff in Hsp.
    destruct Hsp as [Hn | Hn]; [left | right; exact Hn].
    apply negb_false_iff in Hn. apply Ascii.eqb_eq in Hn. exact Hn.
  - rewrite (stdscan_at tv0 Hlex), (stdscan_at tv0 Hlex'). reflexivity.
Qed.

(** The end of the line stays the end of the line.  On the NUL, or on the
    [;] of a comment, [stdscan] returns end-of-stream and leaves the cursor
    there, so that every later scan returns the same: nothing after the
    [;] is looked at. *)
Theorem end_of_line_stays tv0 m q c rest :
  lexeme_at m q (c :: rest) ->
  c = NUL
  \/ (c = ";"%char /\ nasm_isidstart c = false /\ nasm_isnumstart c = false) ->
  let eos := (TOKEN_EOS, set_type TOKEN_EOS (fresh_token q)) in
  stdscan tv0 m = Some (eos, with_bufptr q m)
  /\ forall n, scan_times (S n) m = Some (repeat eos (S n), with_bufptr q m).
Proof.
  intros Hlex Hc eos.
  assert (Hone : forall tv1 m1,
             lexeme_at m1 q (c :: rest) ->
             stdscan tv1 m1 = Some (eos, with_bufptr q m1)).
  { intros tv1 m1 Hlex1. rewrite (stdscan_at tv1 Hlex1).
    destruct Hc as [-> | (-> & Hid & Hnum)].
    - reflexivity.
    - change (Ascii.eqb ";" NUL) with false. cbv iota.
      unfold bind at 1.
      rewrite (@token_dispatch E (fresh_token q) (with_bufptr q m1) ";" rest);
        [|apply cursor_at; apply Hlex1 | discriminate].
      rewrite Hid, Hnum.
      change (is_quote ";") with false.
      change (Ascii.eqb ";" "{") with false.
      change (Ascii.eqb ";" ";") with true. cbv iota.
      unfold yield, ret, bind, get_bufptr. simpl bufptr.
      rewrite Z.sub_diag. reflexivity. }
  split; [apply Hone; exact Hlex|].
  intros n. revert m Hlex. induction n as [|n IH]; intros m Hlex.
  - simpl. unfold bind. rewrite (Hone _ _ Hlex). reflexivity.
  - change (scan_times (S (S n)))
      with (r <- stdscan zero_tokenval ;; rs <- scan_times (S n) ;;
            ret (r :: rs)).
    unfold bind at 1. rewrite (Hone _ _ Hlex).
    unfold bind at 1. rewrite (IH _ (lexeme_at_start Hlex)).
    reflexivity.
Qed.

End Stops.

Section Span.

Context {E : Nasm}.

Lemma starts_bind p A (x : M A) (k : A -> M (Z * tokenval)) :
  (forall a, starts p (k a)) -> starts p (bind x k).
Proof.
  intros Hk m i tv m' H. unfold bind in H.
  destruct (x m) as [[a m1]|]; [|discriminate]. exact (Hk a _ _ _ _ H).
Qed.

Lemma starts_yield p ty tv : t_start tv = p -> starts p (yield ty tv).
Proof. intros Hp m i tv' m' H. injection H as _ <- _. exact Hp. Qed.

Lemma starts_ret p i tv : t_start tv = p -> starts p (ret (i, tv)).
Proof. intros Hp m i' tv' m' H. injection H as _ <- _. exact Hp. Qed.

Ltac starts_steps :=
  repeat first
    [ apply starts_yield; solve [auto]
    | apply starts_ret; solve [auto]
    | solve [auto]
    | progress cbv zeta
    | apply starts_bind; intros
    | match goal with
      | |- starts _ (if ?b then _ else _) => destruct b
      | |- starts _ (let (_, _) := ?x in _) => destruct x eqn:?
      | |- starts _ (match ?x with (_, _) => _ end) => destruct x eqn:?
      end ].

Lemma starts_token_num p tv :
  t_start tv = p -> starts p (stdscan_token_num tv).
Proof. intros Hp. unfold stdscan_token_num. starts_steps. Qed.

Lemma starts_token_str p tv :
  t_start tv = p -> starts p (stdscan_token_str tv).
Proof. intros Hp. unfold stdscan_token_str. starts_steps. Qed.

Lemma starts_token_op p tv :
  t_start tv = p -> starts p (stdscan_token_op tv).
Proof. intros Hp. unfold stdscan_token_op. starts_steps. Qed.

Lemma starts_handle_brace p tv :
  t_start tv = p -> starts p (stdscan_handle_brace tv).
Proof. intros Hp. unfold stdscan_handle_brace. starts_steps. Qed.

Hypothesis hash_start :
  forall name tv, t_start (snd (nasm_token_hash name tv)) = t_start tv.

Lemma starts_parse_braces p tv :
  t_start tv = p -> starts p (stdscan_parse_braces tv).
Proof.
  intros Hp. pose proof starts_handle_brace as Hb.
  unfold stdscan_parse_braces.
  do 6 (apply starts_bind; intros).
  match goal with
  | |- starts p (bind _ ?k) =>
      assert (Hk : forall tv1, t_start tv1 = p -> starts p (k tv1))
  end.
  { intros tv1 Hp1. starts_steps. apply Hb. rewrite hash_start. exact Hp1. }
  intros m i tv' m' H. unfold bind at 1 in H.
  destruct (_ <=? _)%Z.
  - unfold bind at 1 in H.
    destruct (stdscan_copy _ _ m) as [[txt m1]|]; [|discriminate].
    unfold ret at 1 in H. exact (Hk (set_charptr txt tv) Hp _ _ _ _ H).
  - unfold ret at 1 in H. exact (Hk tv Hp _ _ _ _ H).
Qed.

Lemma starts_token_id p tv :
  t_start tv = p -> starts p (stdscan_token_id tv).
Proof.
  intros Hp. unfold stdscan_token_id. starts_steps;
    match goal with
    | Hh : nasm_token_hash ?n ?t = (_, ?tv1) |- _ =>
        assert (Hs : t_start tv1 = p)
          by (pose proof (hash_start n t) as Hs; rewrite Hh in Hs;
              simpl in Hs; rewrite Hs; exact Hp)
    end; starts_steps.
Qed.

Lemma starts_token p tv : t_start tv = p -> starts p (stdscan_token tv).
Proof.
  intros Hp.
  pose proof (@starts_token_id p tv Hp) as H1.
  pose proof (@starts_token_num p tv Hp) as H2.
  pose proof (@starts_token_str p tv Hp) as H3.
  pose proof (@starts_token_op p tv Hp) as H4.
  pose proof (@starts_parse_braces p tv Hp) as H5.
  unfold stdscan_token. starts_steps.
Qed.

(** What a scan of the line leaves in [t_start] and [t_len]. *)
Lemma stdscan_span tv0 m q c rest i tv m' :
  lexeme_at m q (c :: rest) ->
  stdscan tv0 m = Some ((i, tv), m') ->
  t_start tv = LinePtr q
  /\ t_len tv = int_of (Z.of_nat (bufptr (scan m')) - Z.of_nat q).
Proof.
  intros Hlex H. rewrite (stdscan_at tv0 Hlex) in H.
  destruct (Ascii.eqb c NUL).
  - injection H as _ <- <-. simpl. rewrite Z.sub_diag. split; reflexivity.
  - unfold bind at 1 in H.
    destruct (stdscan_token _ _) as [[[i1 tv1] m1]|] eqn:Htok; [|discriminate].
    unfold bind, get_bufptr, ret in H. injection H as _ <- <-.
    split; [|reflexivity].
    simpl. apply (@starts_token (LinePtr q) (fresh_token q) eq_refl _ _ _ _ Htok).
Qed.

(** The span of a token.  After a scan of the line, [t_start] is where
    the token starts, after the whitespace before it, and [t_len] is the
    number of bytes from there to the cursor: the 32-bit difference of the
    two pointers is their distance. *)
Theorem token_span tv0 m :
  nasm_laws E -> ready m ->
  exists q i tv m',
    nasm_skip_spaces (bufptr (scan m)) m = Some (q, m)
    /\ stdscan tv0 m = Some ((i, tv), m')
    /\ t_start tv = LinePtr q
    /\ q <= bufptr (scan m')
    /\ t_len tv = Z.of_nat (bufptr (scan m') - q).
Proof.
  intros L Hready.
  destruct (stdscan_step tv0 L Hready)
    as (q & i & tv & m' & _ & Hskip & Hres & Hra & Hcase).
  destruct (ready_lexeme Hready) as (q' & c & rest & Hlex & _ & _).
  pose proof Hlex as (_ & Hskip' & _).
  rewrite Hskip in Hskip'. injection Hskip' as <-.
  destruct (stdscan_span tv0 Hlex Hres) as (Hstart & Hlen).
  assert (Hle : q <= bufptr (scan m')).
  { destruct Hcase as [(_ & -> & _) | Hlt]; lia. }
  exists q, i, tv, m'. repeat (split; [assumption|]).
  rewrite Hlen. destruct Hra as (Hl & _ & Hterm).
  apply terminated_skipn_lt in Hterm.
  destruct Hready as (_ & _ & Hbound).
  rewrite int_of_small; lia.
Qed.

End Span.

Section Plain.

Context {E : Nasm}.

Lemma stdscan_moves tv0 m q c rest ty k :
  lexeme_at m q (c :: rest) -> c <> NUL ->
  (Z.of_nat (length (line m)) < 2 ^ 31)%Z -> q + k <= length (line m) ->
  stdscan_token (fresh_token q) (with_bufptr q m)
  = Some ((ty, set_type ty (fresh_token q)), with_bufptr (q + k) m) ->
  stdscan tv0 m = Some (plain_token q ty k, with_bufptr (q + k) m).
Proof.
  intros Hlex Hc Hlen Hk Htok.
  rewrite (stdscan_token_result tv0 Hlex Hc Htok). simpl bufptr.
  rewrite int_of_small by lia.
  replace (Z.of_nat (q + k) - Z.of_nat q)%Z with (Z.of_nat k) by lia.
  reflexivity.
Qed.

(** [$] and [$$].  A dollar sign that neither forces an identifier nor
    starts a hexadecimal number is the Here token, one byte long, also at
    the end of the line; followed by a second dollar sign it is the Base
    token, two bytes long. *)
Theorem here_and_base tv0 m q c1 rest :
  lexeme_at m q ("$"%char :: c1 :: rest) ->
  (Z.of_nat (length (line m)) < 2 ^ 31)%Z ->
  nasm_isidstart "$" = false -> nasm_isidstart c1 = false ->
  nasm_isnumchar c1 = false ->
  stdscan tv0 m
  = if Ascii.eqb c1 "$"
    then Some (plain_token q TOKEN_BASE 2, with_bufptr (q + 2) m)
    else Some (plain_token q TOKEN_HERE 1, with_bufptr (q + 1) m).
Proof.
  intros Hlex Hlen Hid Hid1 Hnc.
  pose proof Hlex as (_ & _ & Hs).
  assert (Hcur : cursor (with_bufptr q m) = "$"%char :: c1 :: rest)
    by (apply cursor_at; exact Hs).
  assert (Hq : q + 2 <= length (line m)).
  { pose proof (f_equal (@length ascii) Hs) as Hl.
    rewrite length_skipn in Hl. simpl in Hl. lia. }
  pose proof (token_dispatch_dollar (fresh_token q) _ Hcur) as Htok.
  rewrite Hid, Hid1, Hnc in Htok. simpl in Htok.
  destruct (Ascii.eqb c1 "$").
  - apply stdscan_moves with (c := "$"%char) (rest := c1 :: rest);
      [assumption | discriminate | assumption | lia | exact Htok].
  - apply stdscan_moves with (c := "$"%char) (rest := c1 :: rest);
      [assumption | discriminate | assumption | lia | exact Htok].
Qed.

Lemma stdscan_operator tv0 m q c rest ty k :
  lexeme_at m q (c :: rest) ->
  (Z.of_nat (length (line m)) < 2 ^ 31)%Z -> q + k <= length (line m) ->
  c <> NUL -> c <> "$"%char -> c <> "{"%char -> c <> ";"%char ->
  nasm_isidstart c = false -> nasm_isnumstart c = false ->
  is_quote c = false ->
  stdscan_token_op (fresh_token q) (with_bufptr q m)
  = Some ((ty, set_type ty (fresh_token q)), with_bufptr (q + k) m) ->
  stdscan tv0 m = Some (plain_token q ty k, with_bufptr (q + k) m).
Proof.
  intros Hlex Hlen Hk Hn Hd Hb Hs Hid Hnum Hq Hop.
  apply stdscan_moves with (c := c) (rest := rest); try assumption.
  rewrite (@token_dispatch E (fresh_token q) (with_bufptr q m) c rest);
    [|apply cursor_at; apply Hlex | assumption].
  rewrite Hid, Hnum, Hq, (eqb_neq_false Hb), (eqb_neq_false Hs).
  exact Hop.
Qed.

Lemma lexeme_length m q (s : list ascii) :
  lexeme_at m q s -> q + length s = length (line m) \/ s = [].
Proof.
  intros (_ & _ & Hs). destruct s as [|c s']; [auto|]. left.
  pose proof (f_equal (@length ascii) Hs) as Hl.
  rewrite length_skipn in Hl. simpl in *. lia.
Qed.

(** The operators of two and three characters: the longest one is taken.
    [>>>] is the arithmetic and [>>] the logical shift right; [<<<] is
    [<<], a shift left, one byte longer; [<=>] is one token and [<=]
    another; [<>] and [!=] are the same token. *)
Theorem operators_longest_first tv0 m q c0 c1 c2 rest :
  lexeme_at m q (c0 :: c1 :: c2 :: rest) ->
  (Z.of_nat (length (line m)) < 2 ^ 31)%Z ->
  nasm_isidstart c0 = false -> nasm_isnumstart c0 = false ->
  let result ty k := Some (plain_token q ty k, with_bufptr (q + k) m) in
  (c0 = ">"%char -> c1 = ">"%char ->
   stdscan tv0 m = if Ascii.eqb c2 ">" then result TOKEN_SAR 3
                   else result TOKEN_SHR 2)
  /\ (c0 = "<"%char -> c1 = "<"%char ->
      stdscan tv0 m = result TOKEN_SHL (if Ascii.eqb c2 "<" then 3 else 2))
  /\ (c0 = "<"%char -> c1 = "="%char ->
      stdscan tv0 m = if Ascii.eqb c2 ">" then result TOKEN_LEG 3
                      else result TOKEN_LE 2)
  /\ (c0 = "<"%char -> c1 = ">"%char -> stdscan tv0 m = result TOKEN_NE 2)
  /\ (c0 = "!"%char -> c1 = "="%char -> stdscan tv0 m = result TOKEN_NE 2).
Proof.
  intros Hlex Hlen Hid Hnum result.
  destruct (lexeme_length Hlex) as [Hl | Hl]; [|discriminate].
  simpl in Hl.
  assert (Hcur : cursor (with_bufptr q m) = c0 :: c1 :: c2 :: rest)
    by (apply cursor_at; apply Hlex).
  assert (Hop : forall ty k,
             k <= 3 ->
             c0 = ">"%char \/ c0 = "<"%char \/ c0 = "!"%char ->
             stdscan_token_op (fresh_token q) (with_bufptr q m)
             = Some ((ty, set_type ty (fresh_token q)),
                     with_bufptr (q + k) m) ->
             stdscan tv0 m = result ty k).
  { intros ty k Hk Hc0 Hop.
    apply stdscan_operator with (c := c0) (rest := c1 :: c2 :: rest);
      try assumption; try lia;
      destruct Hc0 as [-> | [-> | ->]]; try discriminate; reflexivity. }
  unfold result.
  repeat split; intros -> ->.
  - destruct (Ascii.eqb c2 ">") eqn:Hc2.
    + apply Hop; [lia | auto |].
      apply Ascii.eqb_eq in Hc2. subst c2.
      unfold stdscan_token_op, pair_at. exec Hcur. reflexivity.
    + apply Hop; [lia | auto |].
      unfold stdscan_token_op, pair_at. exec Hcur; try discriminate.
      reflexivity.
  - apply Hop; [destruct (Ascii.eqb c2 "<"); lia | auto |].
    unfold stdscan_token_op, pair_at. exec Hcur; reflexivity.
  - destruct (Ascii.eqb c2 ">") eqn:Hc2.
    + apply Hop; [lia | auto |].
      apply Ascii.eqb_eq in Hc2. subst c2.
      unfold stdscan_token_op, pair_at. exec Hcur. reflexivity.
    + apply Hop; [lia | auto |].
      unfold stdscan_token_op, pair_at. exec Hcur; try discriminate.
      reflexivity.
  - apply Hop; [lia | auto |].
    unfold stdscan_token_op, pair_at. exec Hcur; reflexivity.
  - apply Hop; [lia | auto |].
    unfold stdscan_token_op, pair_at. exec Hcur; reflexivity.
Qed.

(** Any other character is a token by itself, and the type of the token
    is the character as an unsigned byte, from 1 to 255: a character that
    starts no identifier, number, string, braced token or comment, with a
    second character that makes no operator of it. *)
Theorem single_character tv0 m q c c1 rest :
  lexeme_at m q (c :: c1 :: rest) ->
  (Z.of_nat (length (line m)) < 2 ^ 31)%Z ->
  nasm_isidstart c = false -> nasm_isnumstart c = false ->
  is_quote c = false ->
  c <> NUL -> c <> "$"%char -> c <> "{"%char -> c <> ";"%char ->
  ~ In (c, c1)
       [(">", ">"); ("<", "<"); ("/", "/"); ("%", "%"); ("=", "=");
        ("<", ">"); ("!", "="); ("<", "="); (">", "="); ("&", "&");
        ("^", "^"); ("|", "|")]%char ->
  stdscan tv0 m
  = Some (plain_token q (Z.of_N (N_of_ascii c)) 1, with_bufptr (q + 1) m)
  /\ (1 <= Z.of_N (N_of_ascii c) <= 255)%Z.
Proof.
  intros Hlex Hlen Hid Hnum Hq Hn Hd Hb Hs Hpair.
  destruct (lexeme_length Hlex) as [Hl | Hl]; [|discriminate].
  simpl in Hl.
  assert (Hcur : cursor (with_bufptr q m) = c :: c1 :: rest)
    by (apply cursor_at; apply Hlex).
  split.
  - apply stdscan_operator with (c := c) (rest := c1 :: rest);
      try assumption; try lia.
    unfold stdscan_token_op, pair_at.
    exec Hcur;
      first [ reflexivity | exfalso; apply Hpair; simpl; tauto ].
  - pose proof (N_ascii_bounded c) as Hlt.
    assert (N_of_ascii c <> 0%N).
    { intros H0. apply Hn. rewrite <- (ascii_N_embedding c), H0.
      reflexivity. }
    lia.
Qed.

End Plain.

(* ------------------------------------------------------------------ *)
(** ** More on numbers *)

Section MoreNumbers.

Context {E : Nasm}.


(** A numeric literal is as long as it can be: the byte the cursor is
    left on is no number character, no [.], no [h], [H], [x], [X], [p] or
    [P]. *)
Theorem number_is_maximal tv0 m q c rest :
  lexeme_at m q (c :: rest) ->
  terminated (c :: rest) -> c <> NUL ->
  number_start c rest ->
  nasm_isnumchar NUL = false ->
  (Z.of_nat (length (line m)) < 2 ^ 31)%Z ->
  exists len d tl i tv m',
    stdscan tv0 m = Some ((i, tv), m')
    /\ bufptr (scan m') = q + len
    /\ cursor m' = d :: tl
    /\ skipn len (c :: rest) = d :: tl
    /\ nasm_isnumchar d = false /\ d <> "."%char
    /\ is_hexmark d = false /\ is_p d = false.
Proof.
  intros Hlex Hterm Hc (Hid & Hnum & Hdollar) Hnul Hlen.
  destruct (stdscan_number tv0 Hlex Hterm Hc Hnul Hlen Hid Hnum Hdollar)
    as (j & h & f & e & m' & _ & Hrun & Htj & Hres & Hl & Hps & Hb & _).
  set (pre := if Ascii.eqb c "$" then 1 else 0) in *.
  cbv zeta in Hres.
  destruct (num_run_break Hrun)
    as (d & tl & Hs & _ & Hh & Hp & Hn & Hd).
  rewrite <- skipn_add_tail in Hs.
  exists (pre + j), d, tl. do 2 eexists. exists m'.
  split; [exact Hres|]. split; [exact Hb|].
  split.
  { unfold cursor. rewrite Hl, Hb, skipn_add_tail.
    destruct Hlex as (_ & _ & ->). exact Hs. }
  split; [exact Hs|]. split; [exact Hn|].
  split; [|auto].
  intros ->. discriminate.
Qed.

(** A number is a float or goes to the number reader.  Either the token
    is a float token with the literal as its text, and [readnum] is not
    called; or [readnum] is called once, on the whole literal (with its
    [$], if it has one), the value it returns is in the token even when it
    reports an error, and the type of the token says which. *)
Theorem number_is_float_or_integer tv0 m q c rest :
  lexeme_at m q (c :: rest) ->
  terminated (c :: rest) -> c <> NUL ->
  number_start c rest ->
  nasm_isnumchar NUL = false ->
  (Z.of_nat (length (line m)) < 2 ^ 31)%Z ->
  exists len i tv m',
    stdscan tv0 m = Some ((i, tv), m')
    /\ bufptr (scan m') = q + len
    /\ t_len tv = Z.of_nat len
    /\ let literal := firstn len (c :: rest) in
       (i = TOKEN_FLOAT /\ t_type tv = TOKEN_FLOAT
        /\ token_text m' tv = Some literal
        /\ trace m' = trace m)
       \/ (i = (if snd (readnum literal) then TOKEN_ERRNUM else TOKEN_NUM)
           /\ t_type tv = i
           /\ t_integer tv = fst (readnum literal)
           /\ t_charptr tv = NULL
           /\ stdscan_tempstorage m' = stdscan_tempstorage m
           /\ trace m' = trace m ++ [Ev_readnum literal]).
Proof.
  intros Hlex Hterm Hc (Hid & Hnum & Hdollar) Hnul Hlen.
  destruct (stdscan_number tv0 Hlex Hterm Hc Hnul Hlen Hid Hnum Hdollar)
    as (j & h & f & e & m' & _ & Hrun & Htj & Hres & Hl & Hps & Hb & Hts & Htr).
  set (pre := if Ascii.eqb c "$" then 1 else 0) in *.
  cbv zeta in Hres, Hts, Htr.
  eexists (pre + j), _, _, m'.
  split; [exact Hres|]. split; [exact Hb|].
  split; [reflexivity|].
  cbv zeta.
  destruct (if e && negb h then true else f).
  - left. rewrite float_token. simpl fst. simpl snd.
    split; [reflexivity|]. split; [reflexivity|]. split; [|exact Htr].
    eapply token_text_last; [exact Hts | reflexivity | | reflexivity].
    apply terminated_firstn_not_nul; [assumption|].
    apply terminated_skipn_lt in Htj. exact Htj.
  - right. unfold number_token.
    destruct (readnum (firstn (pre + j) (c :: rest))) as [value err].
    simpl snd. simpl fst at 3.
    destruct err; simpl; auto 7.
Qed.

End MoreNumbers.

(* ------------------------------------------------------------------ *)
(** ** Keywords and copies *)

Section Keywords.

Context {E : Nasm}.

(** The identifier branch after its first character, when the identifier
    is not forced and short enough for a keyword. *)
Lemma id_rest_keyword r tv m first tl :
  skipn r (line m) = first :: tl ->
  bufptr (scan m) = S r ->
  first <> NUL -> terminated tl ->
  nasm_isidchar NUL = false ->
  (0 < IDLEN_MAX < 2 ^ 31)%Z ->
  (forall name tv, t_charptr (snd (nasm_token_hash name tv)) = t_charptr tv) ->
  (Z.of_nat (length (line m)) < 2 ^ 31)%Z ->
  exists j m',
    run_of nasm_isidchar tl j
    /\ moved j m m'
    /\ let stored := firstn (Z.to_nat (IDLEN_MAX - 1))
                            (firstn (S j) (first :: tl)) in
       let looked :=
         nasm_token_hash stored
                         (set_charptr (TempPtr (stdscan_templen m)) tv) in
       let warned := negb (Z.land (t_flag (snd looked)) TFLAG_WARN =? 0)%Z in
       let plain := (Z.land (t_flag (snd looked)) TFLAG_BRC =? 0)%Z in
       ((Z.of_nat (S j) <= MAX_KEYWORD)%Z ->
        id_rest false r tv m
        = Some (if plain then looked
                else (TOKEN_ID, set_type TOKEN_ID (snd looked)), m')
        /\ trace m'
           = trace m ++ Ev_token_hash stored
               :: (if warned then [Ev_warn_ptr stored] else [])).
Proof.
  intros Hr Hbuf Hfirst Htl Hnul Hidlen Hhash Hlen.
  assert (Hcur : cursor m = tl).
  { unfold cursor. rewrite Hbuf. apply (skipn_S_tail _ _ Hr). }
  destruct (run_of_terminated nasm_isidchar (bufptr (scan m)) Hnul Htl)
    as (j & Hrun & Hterm & Hrunof).
  exists j.
  assert (Hp : S r + j < length (line m)).
  { apply terminated_skipn_lt. rewrite skipn_add_tail.
    rewrite <- Hbuf. fold (cursor m). rewrite Hcur. exact Hterm. }
  set (stored := firstn (Z.to_nat (IDLEN_MAX - 1)) (firstn (S j) (first :: tl))).
  assert (Hstored_nn : Forall (fun c => c <> NUL) (firstn (S j) (first :: tl))).
  { simpl. constructor; [assumption|].
    apply (Forall_true_not_nul _ Hnul). apply Hrunof. }
  assert (Hstored_nn' : Forall (fun c => c <> NUL) stored).
  { apply Forall_firstn_any. exact Hstored_nn. }
  assert (Hge : length (first :: tl) >= S j).
  { simpl. destruct Hrunof as (_ & c & tl' & Hs & _).
    assert (j < length tl) by (eapply skipn_cons_lt; eassumption). lia. }
  assert (Hstored_len : Z.of_nat (length stored)
                        = (if (Z.of_nat (S j) <? IDLEN_MAX)%Z
                           then Z.of_nat (S j) else IDLEN_MAX - 1)%Z).
  { unfold stored. rewrite firstn_firstn, length_firstn.
    destruct (Z.ltb_spec (Z.of_nat (S j)) IDLEN_MAX); lia. }
  assert (Hstored_eq : stored = firstn (length stored) (skipn r (line m))).
  { rewrite Hr. unfold stored at 2. rewrite firstn_firstn, length_firstn.
    unfold stored. rewrite firstn_firstn. f_equal. lia. }
  assert (Hst_le : length stored <= S j).
  { unfold stored. rewrite firstn_firstn, length_firstn. lia. }
  set (m1 := with_bufptr (S r + j) m).
  destruct (grow_fields m1) as (Gs & Gl & Gt & Gts).
  set (m2 := with_tempstorage
               (stdscan_tempstorage m ++ [stored ++ [NUL]]) (grow m1)).
  set (tv1 := set_charptr (TempPtr (stdscan_templen m)) tv).
  set (looked := nasm_token_hash stored tv1).
  set (warned := negb (Z.land (t_flag (snd looked)) TFLAG_WARN =? 0)%Z).
  set (m3 := with_trace (trace m2 ++ [Ev_token_hash stored]) m2).
  set (m4 := if warned then with_trace (trace m3 ++ [Ev_warn_ptr stored]) m3
             else m3).
  exists m4.
  split; [exact Hrunof|].
  split.
  { unfold moved, m4. destruct warned; simpl; rewrite Gs, Gl; simpl;
      repeat split; lia. }
  cbv zeta. fold stored. fold tv1. fold looked. fold warned.
  intros Hkw.
  assert (Hnth : nth_error (stdscan_tempstorage m2) (stdscan_templen m)
                 = Some (stored ++ [NUL])).
  { apply nth_error_last. }
  assert (Hcs : c_string (stored ++ [NUL]) = stored).
  { apply c_string_app_nul. exact Hstored_nn'. }
  split.
  - unfold id_rest. unfold bind at 1.
    rewrite advance_while_at with (s := tl) (j := j) by assumption.
    unfold bind at 1. unfold get_bufptr at 1. simpl bufptr.
    rewrite Hbuf.
    replace (Z.of_nat (S r + j) - Z.of_nat r)%Z with (Z.of_nat (S j)) by lia.
    rewrite <- Hstored_len.
    rewrite int_of_small by lia.
    unfold bind at 1.
    rewrite stdscan_copy_eq.
    2:{ simpl line. lia. }
    simpl line. rewrite <- Hstored_eq.
    change (stdscan_templen (with_bufptr (S r + j) m)) with (stdscan_templen m).
    change (stdscan_tempstorage (with_bufptr (S r + j) m))
      with (stdscan_tempstorage m).
    fold m1. fold m2. fold tv1.
    assert (Hby : false || (Z.of_nat (S j) >? MAX_KEYWORD)%Z = false).
    { simpl. rewrite Z.gtb_ltb. apply Z.ltb_ge. exact Hkw. }
    rewrite Hby.
    unfold bind at 1. replace (t_charptr tv1) with (TempPtr (stdscan_templen m))
      by reflexivity.
    rewrite (deref_temp _ _ Hnth), Hcs.
    unfold bind at 1. unfold emit at 1. fold m3. fold looked.
    pose proof (Hhash stored tv1) as Hptr. fold looked in Hptr.
    assert (Hnth3 : nth_error (stdscan_tempstorage m3) (stdscan_templen m)
                    = Some (stored ++ [NUL])) by exact Hnth.
    unfold m4, warned. clear Hby. clearbody looked.
    destruct looked as [token_type tv2]. simpl snd in *.
    unfold bind at 1.
    destruct (negb (Z.land (t_flag tv2) TFLAG_WARN =? 0)%Z).
    + unfold bind at 1. rewrite Hptr.
      replace (t_charptr tv1) with (TempPtr (stdscan_templen m))
        by reflexivity.
      rewrite (deref_temp _ _ Hnth3), Hcs. unfold emit.
      destruct (Z.land (t_flag tv2) TFLAG_BRC =? 0)%Z; reflexivity.
    + unfold ret at 1.
      destruct (Z.land (t_flag tv2) TFLAG_BRC =? 0)%Z; reflexivity.
  - unfold m4, m3, m2. destruct warned; simpl; rewrite Gt; simpl;
      rewrite <- ?app_assoc; reflexivity.
Qed.

(** An identifier that may be a keyword.  When it is not forced by a
    [$] and is no longer than [MAX_KEYWORD], the keyword hash is asked
    once, about the text stored for it, and the token is the one the hash
    leaves; the warning for keywords of other assemblers is given when the
    hash flags the token for it; and a keyword the hash flags as one for
    braces is, outside braces, a plain identifier. *)
Theorem keyword_lookup tv0 m q first tl :
  nasm_laws E ->
  lexeme_at m q (first :: tl) -> terminated tl ->
  nasm_isidstart first = true ->
  (Z.of_nat (length (line m)) < 2 ^ 31)%Z ->
  exists j,
    run_of nasm_isidchar tl j
    /\ ((Z.of_nat (S j) <= MAX_KEYWORD)%Z ->
        let stored := firstn (Z.to_nat (IDLEN_MAX - 1))
                             (first :: firstn j tl) in
        let looked :=
          nasm_token_hash stored
            (set_charptr (TempPtr (stdscan_templen m)) (fresh_token q)) in
        let flag := t_flag (snd looked) in
        exists i tv m',
          stdscan tv0 m = Some ((i, tv), m')
          /\ bufptr (scan m') = q + S j
          /\ trace m'
             = trace m ++ Ev_token_hash stored
                 :: (if (Z.land flag TFLAG_WARN =? 0)%Z then []
                     else [Ev_warn_ptr stored])
          /\ (Z.land flag TFLAG_BRC = 0%Z ->
              i = fst looked /\ tv = set_len (Z.of_nat (S j)) (snd looked))
          /\ (Z.land flag TFLAG_BRC <> 0%Z ->
              i = TOKEN_ID
              /\ tv = set_len (Z.of_nat (S j))
                              (set_type TOKEN_ID (snd looked)))).
Proof.
  intros L Hlex Htl Hfirst Hlen.
  destruct (isidstart_not_special first L Hfirst) as [Hnn Hnd].
  pose proof Hlex as (Hps & Hskip & Hs).
  set (m1 := with_bufptr q m).
  assert (Hcur1 : cursor m1 = first :: tl) by exact Hs.
  assert (Htok : stdscan_token (fresh_token q) m1
                 = id_rest false q (fresh_token q) (with_bufptr (q + 1) m1)).
  { rewrite (token_dispatch _ _ Hcur1 Hnd), Hfirst.
    rewrite stdscan_token_id_rest.
    unfold bind at 1. rewrite peek_cursor, Hcur1. simpl nth_error.
    cbv beta iota. rewrite (eqb_neq_false Hnd).
    unfold bind at 1. unfold ret at 1.
    unfold bind at 1. unfold get_bufptr at 1.
    unfold bind at 1. unfold bump at 1. simpl bufptr.
    reflexivity. }
  destruct (@id_rest_keyword q (fresh_token q) (with_bufptr (q + 1) m1)
              first tl)
    as (j & m' & Hrun & Hmoved & Hkey);
    try assumption;
    [ simpl; lia | apply (isidchar_nul L) | apply (idlen_max_range L)
    | apply (token_hash_charptr L) | ].
  exists j. split; [exact Hrun|].
  intros Hkw. cbv zeta in Hkey |- *. simpl firstn in Hkey.
  change (stdscan_templen (with_bufptr (q + 1) m1))
    with (stdscan_templen m) in Hkey.
  destruct (Hkey Hkw) as (Hres & Htr). clear Hkey.
  rewrite <- Htok in Hres.
  destruct Hmoved as (Hl & Hpsm & Hb). simpl in Hl, Hpsm, Hb.
  assert (Hspan : int_of (Z.of_nat (bufptr (scan m')) - Z.of_nat q)
                  = Z.of_nat (S j)).
  { rewrite Hb. destruct Hrun as (_ & c & tl' & Hsk & _).
    assert (j < length tl) by (eapply skipn_cons_lt; eassumption).
    pose proof (f_equal (@length ascii) Hs) as Hlq.
    rewrite length_skipn in Hlq. simpl in Hlq.
    rewrite int_of_small; lia. }
  set (looked := nasm_token_hash _ _) in *.
  clearbody looked. destruct looked as [ty tv2]. simpl snd in *. simpl fst.
  simpl trace in Htr.
  assert (Htr' : trace m'
                 = trace m ++ Ev_token_hash
                     (firstn (Z.to_nat (IDLEN_MAX - 1)) (first :: firstn j tl))
                     :: (if (Z.land (t_flag tv2) TFLAG_WARN =? 0)%Z then []
                         else [Ev_warn_ptr
                                 (firstn (Z.to_nat (IDLEN_MAX - 1))
                                         (first :: firstn j tl))])).
  { rewrite Htr. destruct (Z.land (t_flag tv2) TFLAG_WARN =? 0)%Z;
      reflexivity. }
  destruct (Z.land (t_flag tv2) TFLAG_BRC =? 0)%Z eqn:Hbrc.
  - pose proof (stdscan_token_result tv0 Hlex Hnn Hres) as Hscan.
    rewrite Hspan in Hscan.
    do 2 eexists. exists m'. split; [exact Hscan|].
    split; [lia|]. split; [exact Htr'|].
    apply Z.eqb_eq in Hbrc. split; [auto | intros; contradiction].
  - pose proof (stdscan_token_result tv0 Hlex Hnn Hres) as Hscan.
    rewrite Hspan in Hscan.
    do 2 eexists. exists m'. split; [exact Hscan|].
    split; [lia|]. split; [exact Htr'|].
    apply Z.eqb_neq in Hbrc. split; [intros; contradiction | auto].
Qed.

End Keywords.

Section Copy.

Context {E : Nasm}.

Lemma c_string_nul_end l : c_string (l ++ [NUL]) = c_string l.
Proof.
  induction l as [|c l IH]; [reflexivity|].
  simpl. destruct (Ascii.eqb c NUL); [reflexivity|]. rewrite IH.
  reflexivity.
Qed.

(** What [stdscan_copy] stores can be read back.  A copy of [n] bytes
    that lie inside the line makes one new entry, the last, and the string
    at the pointer it returns is those bytes, up to the first NUL among
    them if there is one; the line and the scanner state are as before.
    A copy that would read beyond the line has no defined result. *)
Theorem copy_reads_back p n m :
  (p + n <= length (line m) ->
   exists m',
     (txt <- stdscan_copy p (Z.of_nat n) ;; deref txt) m
     = Some (c_string (firstn n (skipn p (line m))), m')
     /\ stdscan_copy p (Z.of_nat n) m = Some (TempPtr (stdscan_templen m), m')
     /\ stdscan_tempstorage m'
        = stdscan_tempstorage m ++ [firstn n (skipn p (line m)) ++ [NUL]]
     /\ line m' = line m /\ scan m' = scan m /\ trace m' = trace m)
  /\ (length (line m) < p + n -> stdscan_copy p (Z.of_nat n) m = None).
Proof.
  split.
  - intros Hle. unfold bind. rewrite (@stdscan_copy_eq p n m Hle).
    destruct (grow_fields m) as (Gs & Gl & Gt & Gts).
    eexists. split; [|split; [reflexivity|]].
    + erewrite deref_temp; [|apply nth_error_last].
      rewrite c_string_nul_end. reflexivity.
    + simpl. auto.
  - intros Hlt. unfold stdscan_copy, bind, stdscan_alloc.
    destruct (Z.of_nat n + 1 <? 0)%Z; [reflexivity|].
    destruct (Z.of_nat n <? 0)%Z; [reflexivity|].
    unfold read_bytes. rewrite Nat2Z.id.
    assert (Hl : forall m0 : machine, line (with_tempstorage
                   (stdscan_tempstorage m ++ [repeat NUL (Z.to_nat (Z.of_nat n + 1))])
                   (if (Z.of_nat (stdscan_templen m) >=? stdscan_tempsize m)%Z
                    then with_tempsize (stdscan_tempsize m + STDSCAN_TEMP_DELTA)%Z m
                    else m)) = line m).
    { intros _. destruct (_ >=? _)%Z; reflexivity. }
    rewrite (Hl m).
    destruct (Nat.leb_spec (p + n) (length (line m))); [lia | reflexivity].
Qed.

End Copy.

(* ------------------------------------------------------------------ *)
(** ** The reference environment and the examples *)

Lemma ref_token_hash_charptr name tv :
  t_charptr (snd (Ref.token_hash name tv)) = t_charptr tv.
Proof.
  unfold Ref.token_hash.
  destruct (Ref.lookup _ _) as [[[ty num] flag]|]; reflexivity.
Qed.

Lemma ref_unquote_in_line mem str q rest :
  skipn str mem = q :: rest -> terminated rest ->
  let '(mem', ep, _) := Ref.unquote mem str in
  length mem' = length mem /\ str < ep /\ terminated (skipn ep mem').
Proof.
  intros Hs Hrest. unfold Ref.unquote. rewrite Hs.
  destruct (run_of_terminated
              (fun c => negb (Ascii.eqb c NUL) && negb (Ascii.eqb c q))
              (S str) eq_refl Hrest) as (j & Hrun & Hterm & _).
  rewrite Hrun. split; [reflexivity|]. split; [lia|].
  rewrite skipn_add_tail, (skipn_S_tail _ _ Hs). exact Hterm.
Qed.

Lemma ref_isnumstart_numchar c :
  Ref.isnumstart c = true -> c = "$"%char \/ Ref.isnumchar c = true.
Proof.
  destruct c as [[] [] [] [] [] [] [] []]; vm_compute; intros H;
    first [discriminate | auto].
Qed.

(** The reference environment is one the scanner can run in. *)
Lemma ref_laws : nasm_laws Ref.env.
Proof.
  constructor; try reflexivity.
  - exact ref_isnumstart_numchar.
  - simpl. lia.
  - exact ref_token_hash_charptr.
  - intros mem str q rest Hs _ Hrest.
    exact (ref_unquote_in_line mem str Hs Hrest).
Qed.

Lemma inplace_unquote_in_line mem str q rest :
  skipn str mem = q :: rest -> terminated rest ->
  let '(mem', ep, _) := InPlace.unquote mem str in
  length mem' = length mem /\ str < ep /\ terminated (skipn ep mem').
Proof.
  intros Hs Hrest. unfold InPlace.unquote. rewrite Hs.
  destruct (run_of_terminated
              (fun c => negb (Ascii.eqb c NUL) && negb (Ascii.eqb c q))
              (S str) eq_refl Hrest) as (j & Hrun & Hterm & _).
  rewrite Hrun.
  assert (Hlen : S str + j < length mem).
  { assert (Hl : length (skipn str mem) = S (length rest))
      by (rewrite Hs; reflexivity).
    rewrite length_skipn in Hl.
    assert (Hj : j < length rest).
    { destruct (Nat.lt_ge_cases j (length rest)) as [|Hge]; [assumption|].
      rewrite (skipn_all2 rest Hge) in Hterm. inversion Hterm. }
    lia. }
  assert (Hrestlen : length rest = length mem - S str).
  { assert (Hl : length (skipn str mem) = S (length rest))
      by (rewrite Hs; reflexivity).
    rewrite length_skipn in Hl. lia. }
  replace (S str + j - S str) with j by lia.
  replace (S str + j - 1) with (str + j) by lia.
  assert (Hpre : length (firstn str mem ++ firstn j rest) = str + j).
  { rewrite length_app, !length_firstn. lia. }
  split; [|split; [lia|]].
  - rewrite app_assoc, length_app, Hpre, length_skipn. lia.
  - rewrite app_assoc.
    replace (S str + j) with (length (firstn str mem ++ firstn j rest) + 1)
      by lia.
    rewrite skipn_app.
    replace (length (firstn str mem ++ firstn j rest) + 1
             - length (firstn str mem ++ firstn j rest)) with 1 by lia.
    rewrite (skipn_all2 (firstn str mem ++ firstn j rest)) by lia.
    simpl app.
    change (terminated (skipn 1 (skipn (str + j) mem))).
    rewrite skipn_skipn.
    replace (1 + (str + j)) with (j + S str) by lia.
    rewrite <- skipn_skipn, (skipn_S_tail _ _ Hs). exact Hterm.
Qed.

(** The environment that decodes in place is one the scanner can run
    in. *)
Lemma inplace_laws : nasm_laws InPlace.env.
Proof.
  constructor; try reflexivity.
  - exact ref_isnumstart_numchar.
  - simpl. lia.
  - exact ref_token_hash_charptr.
  - intros mem str q rest Hs _ Hrest.
    exact (inplace_unquote_in_line mem str Hs Hrest).
Qed.

Ltac line_terminated := repeat (constructor; try discriminate).

(** The bytes of a line at given offsets, one offset at a time. *)
Ltac literal_bytes :=
  let i := fresh "i" in
  let y := fresh "y" in
  let Hy := fresh "Hy" in
  first [ intros i y ? ? Hy | intros i y ? Hy ];
  do 12 (destruct i as [|i];
         [ first [ lia
                 | vm_compute in Hy; discriminate Hy
                 | vm_compute in Hy; injection Hy as <-; reflexivity ] |]);
  first [ lia | vm_compute in Hy; discriminate Hy ].

Lemma C1_witness :
  exists m1 n toks tv m',
    stdscan_reset (line_of "mov eax, [ebx+4*$] ; load")
                  initial_machine = Some (tt, m1)
    /\ ready m1
    /\ n < length (line_of "mov eax, [ebx+4*$] ; load")
    /\ @scan_times Ref.env (S n) m1
       = Some (toks ++ [(@TOKEN_EOS Ref.env, tv)], m').
Proof.
  destruct (@C1_scan_terminates Ref.env
              (line_of "mov eax, [ebx+4*$] ; load") initial_machine
              ref_laws ltac:(line_terminated) ltac:(vm_compute; reflexivity))
    as (m1 & Hreset & Hready & _ & _ & _ & n & toks & tv & m' & Hn & _ & Hrun).
  exists m1, n, toks, tv, m'. auto.
Defined.

Lemma ref_lexeme_at_start s c rest :
  line_of s = c :: rest -> @space_char Ref.env c = false ->
  @lexeme_at Ref.env (ref_machine s) 0 (c :: rest).
Proof.
  intros Hs Hc. unfold ref_machine.
  exact (@lexeme_at_reset Ref.env initial_machine (line_of s) c rest Hs Hc).
Qed.

Lemma C2_witness :
  (exists tv m',
      (stdscan_reset (line_of "1e13") ;;; @stdscan Ref.env zero_tokenval)
        initial_machine
      = Some ((@TOKEN_FLOAT Ref.env, tv), m')
      /\ token_text m' tv = Some (list_ascii_of_string "1e13"))
  /\ (exists tv m',
         @stdscan Ref.env zero_tokenval (ref_machine "1E13, 2")
         = Some ((@TOKEN_FLOAT Ref.env, tv), m')
         /\ token_text m' tv = Some (list_ascii_of_string "1E13")).
Proof.
  destruct (@C2_exponent_or_hex Ref.env initial_machine
              eq_refl eq_refl eq_refl eq_refl eq_refl eq_refl eq_refl)
    as ((tv & m' & Hres & _ & Htxt) & _ & Hrule).
  split; [exists tv, m'; auto|].
  destruct (Hrule zero_tokenval (ref_machine "1E13, 2") 0
              "1"%char (list_ascii_of_string "E13, 2" ++ [NUL])
              (ref_lexeme_at_start "1E13, 2" eq_refl eq_refl)
              ltac:(line_terminated) ltac:(discriminate)
              ltac:(repeat split; discriminate)
              ltac:(vm_compute; reflexivity))
    as (len & i & tv1 & m1 & Hres1 & Hb & Hext & Hall).
  assert (Hlen : len = 4).
  { apply (extent_is (k := 3) (d := ","%char) Hext);
      [reflexivity | reflexivity | reflexivity | reflexivity
      | left; literal_bytes | simpl; lia]. }
  subst len.
  destruct (Hall 1 "E"%char) as (_ & -> & _ & Htxt1);
    [ reflexivity | reflexivity | discriminate | literal_bytes
    | left; lia | ].
  exists tv1, m1. auto.
Defined.

(** The counterexample to C3 as stated: in [$1e+3] the [e] is immediately
    followed by [+], and the scanner returns the integer 1Eh with the
    cursor left on the [+]. *)
Lemma C3_counterexample :
  exists tv m',
    (stdscan_reset (line_of "$1e+3") ;;; @stdscan Ref.env zero_tokenval)
      initial_machine
    = Some ((@TOKEN_NUM Ref.env, tv), m')
    /\ @TOKEN_NUM Ref.env <> @TOKEN_FLOAT Ref.env
    /\ t_type tv = @TOKEN_NUM Ref.env
    /\ t_integer tv = 30%Z
    /\ nth_error (line m') 2 = Some "e"%char
    /\ nth_error (line m') 3 = Some "+"%char
    /\ bufptr (scan m') = 3.
Proof.
  do 2 eexists. split; [vm_compute; reflexivity|].
  repeat split; discriminate.
Qed.

Lemma C3_witness :
  (exists len tv m',
      @stdscan Ref.env zero_tokenval (ref_machine "1e+3, 2")
      = Some ((@TOKEN_FLOAT Ref.env, tv), m')
      /\ bufptr (scan m') = 0 + len /\ 2 < len)
  /\ (exists i tv m',
         @stdscan Ref.env zero_tokenval (ref_machine "0x1e+3")
         = Some ((i, tv), m')
         /\ bufptr (scan m') = 4
         /\ cursor m' = list_ascii_of_string "+3" ++ [NUL]).
Proof.
  split.
  - destruct (@C3_exponent_sign Ref.env zero_tokenval
                (ref_machine "1e+3, 2") 0
                "1" (list_ascii_of_string "e+3, 2" ++ [NUL])
                (ref_lexeme_at_start "1e+3, 2" eq_refl eq_refl)
                ltac:(line_terminated) ltac:(discriminate)
                ltac:(repeat split; discriminate)
                eq_refl ltac:(vm_compute; reflexivity))
      as (len & i & tv & m' & Hres & Hb & _ & Hall).
    destruct Hall as [Hfirst _].
    destruct (Hfirst 1 "e"%char "+"%char) as (Hlt & -> & _);
      [ reflexivity | reflexivity | reflexivity | reflexivity
      | discriminate | literal_bytes | right; literal_bytes | ].
    exists len, tv, m'. auto.
  - destruct (@C3_exponent_sign Ref.env zero_tokenval
                (ref_machine "0x1e+3") 0
                "0" (list_ascii_of_string "x1e+3" ++ [NUL])
                (ref_lexeme_at_start "0x1e+3" eq_refl eq_refl)
                ltac:(line_terminated) ltac:(discriminate)
                ltac:(repeat split; discriminate)
                eq_refl ltac:(vm_compute; reflexivity))
      as (len & i & tv & m' & Hres & Hb & _ & Hall).
    destruct Hall as [_ Hsecond].
    destruct (Hsecond 3 "e"%char "+"%char) as (-> & Hcur);
      [ reflexivity | reflexivity | reflexivity | reflexivity | reflexivity
      | right; exists 1, "x"%char; repeat split; lia
      | right; literal_bytes | ].
    exists i, tv, m'. auto.
Defined.

Lemma C4_witness :
  exists len tv m',
    @stdscan Ref.env zero_tokenval (ref_machine "1p-5") 
    = Some ((@TOKEN_FLOAT Ref.env, tv), m')
    /\ token_text m' tv = Some (firstn len (line_of "1p-5"))
    /\ 2 < len.
Proof.
  destruct (@C4_p_marks_float Ref.env zero_tokenval (ref_machine "1p-5")
              0 "1" (list_ascii_of_string "p-5" ++ [NUL])
              (ref_lexeme_at_start "1p-5" eq_refl eq_refl)
              ltac:(line_terminated) ltac:(discriminate)
              ltac:(repeat split; discriminate)
              eq_refl ltac:(vm_compute; reflexivity))
    as (len & i & tv & m' & Hres & Hb & _ & Hall).
  destruct (Hall 1 "p"%char) as (_ & -> & _ & Htxt & Hsign);
    [ reflexivity | reflexivity | right; literal_bytes | ].
  exists len, tv, m'.
  split; [exact Hres|]. split; [exact Htxt|].
  apply (Hsign "-"%char); reflexivity.
Defined.

Lemma C6_witness :
  exists j tv m',
    @stdscan Ref.env zero_tokenval
      (ref_machine "$a_rather_long_identifier, 1")
    = Some ((@TOKEN_ID Ref.env, tv), m')
    /\ bufptr (scan m') = 0 + 1 + S j
    /\ trace m' = [].
Proof.
  destruct (@C6_identifier Ref.env zero_tokenval
              (ref_machine "$a_rather_long_identifier, 1") 0 ["$"%char] "a"
              (list_ascii_of_string "_rather_long_identifier, 1" ++ [NUL])
              ref_laws
              (ref_lexeme_at_start "$a_rather_long_identifier, 1"
                 eq_refl eq_refl)
              ltac:(line_terminated) (or_intror eq_refl) eq_refl
              ltac:(vm_compute; reflexivity))
    as (j & i & tv & m' & _ & Hres & Hb & _ & _ & Hby).
  destruct (Hby (or_introl eq_refl)) as (-> & _ & _ & Htr).
  exists j, tv, m'. auto.
Defined.

Lemma C7_witness :
  exists tv m',
    @stdscan Ref.env zero_tokenval (ref_machine "{foo")
    = Some ((@TOKEN_INVALID Ref.env, tv), m')
    /\ trace m' = [Ev_nonfatal_unterminated_braces]
    /\ cursor m' = [NUL].
Proof.
  destruct (@C7_braces Ref.env zero_tokenval (ref_machine "{foo") 0
              (list_ascii_of_string "foo" ++ [NUL])
              ref_laws eq_refl eq_refl
              (ref_lexeme_at_start "{foo" eq_refl eq_refl)
              ltac:(line_terminated) ltac:(vm_compute; reflexivity))
    as (j0 & n & j2 & d & tl & i & tv & m' & H0 & H1 & H2 & Hd & Hres
        & Hopen & _).
  clear H0 H1 H2 Hd Hopen.
  exists tv, m'.
  vm_compute in Hres.
  injection Hres as Hi Htv Hm.
  subst i tv m'.
  vm_compute. repeat split; reflexivity.
Defined.

Lemma C8_witness :
  exists tv m',
    @stdscan Ref.env zero_tokenval (ref_machine "'abc', 1")
    = Some ((@TOKEN_STR Ref.env, tv), m')
    /\ t_charptr tv = LinePtr 0
    /\ t_inttwo tv = 3%Z
    /\ stdscan_tempstorage m' = []
    /\ bufptr (scan m') = 5.
Proof.
  destruct (@C8_quoted_string Ref.env zero_tokenval
              (ref_machine "'abc', 1") 0 "'"
              (list_ascii_of_string "abc', 1" ++ [NUL])
              (line_of "'abc', 1") 4 3%Z "'"
              (ref_lexeme_at_start "'abc', 1" eq_refl eq_refl)
              eq_refl eq_refl eq_refl eq_refl eq_refl)
    as (i & tv & m' & Hres & _ & Hp & Hn & Hst & _ & _ & Hclosed).
  destruct (Hclosed eq_refl) as (-> & Hb).
  exists tv, m'. auto.
Defined.



Lemma C10_witness :
  exists tv m',
    @stdscan Ref.env (mk_tokenval 7 (TempPtr 3) 5 6 1 (LinePtr 9) 2)
             (ref_machine ">> 2")
    = Some ((@TOKEN_SHR Ref.env, tv), m')
    /\ @stdscan Ref.env zero_tokenval (ref_machine ">> 2")
       = Some ((@TOKEN_SHR Ref.env, tv), m')
    /\ t_charptr tv = NULL
    /\ t_integer tv = 0%Z /\ t_inttwo tv = 0%Z /\ t_flag tv = 0%Z.
Proof.
  destruct (@C10_zeroed_token Ref.env
              (mk_tokenval 7 (TempPtr 3) 5 6 1 (LinePtr 9) 2) zero_tokenval
              (ref_machine ">> 2") 0 ">"
              (list_ascii_of_string "> 2" ++ [NUL])
              (ref_lexeme_at_start ">> 2" eq_refl eq_refl)
              ltac:(line_terminated) eq_refl ltac:(vm_compute; reflexivity))
    as (Hsame & Hplain & _).
  destruct Hplain as (i & tv & m' & Hres & _ & Hp & Hi1 & Hi2 & Hf & _).
  { right; left. repeat split; discriminate. }
  assert (Hi : i = @TOKEN_SHR Ref.env).
  { pose proof Hres as Hc. clear Hsame.
    vm_compute in Hc. injection Hc as <- _ _. reflexivity. }
  subst i. exists tv, m'.
  split; [exact Hres|]. split; [rewrite <- Hsame; exact Hres|]. auto.
Defined.

Lemma ref_hash_typed name tv :
  t_type (snd (Ref.token_hash name tv)) = fst (Ref.token_hash name tv).
Proof.
  unfold Ref.token_hash.
  destruct (Ref.lookup _ _) as [[[ty num] flag]|]; reflexivity.
Qed.

Lemma ref_hash_start name tv :
  t_start (snd (Ref.token_hash name tv)) = t_start tv.
Proof.
  unfold Ref.token_hash.
  destruct (Ref.lookup _ _) as [[[ty num] flag]|]; reflexivity.
Qed.

Lemma ref_ready s :
  terminated (line_of s) ->
  (Z.of_nat (length (line_of s)) < 2 ^ 31)%Z ->
  ready (ref_machine s).
Proof. intros Ht Hl. split; [exact Ht|]. split; [reflexivity | exact Hl]. Qed.

Lemma temp_array_has_room_witness :
  exists rs m',
    @scan_times Ref.env 3 (ref_machine "mov eax, 1") = Some (rs, m')
    /\ has_room m' /\ (0 <= stdscan_tempsize m')%Z.
Proof.
  assert (Hroom : has_room (ref_machine "mov eax, 1"))
    by (unfold has_room; simpl; lia).
  destruct (@temp_array_has_room Ref.env _ Hroom) as (_ & _ & Hscan).
  destruct (@scan_times Ref.env 3 (ref_machine "mov eax, 1"))
    as [[rs m']|] eqn:Hrun; [|vm_compute in Hrun; discriminate].
  exists rs, m'. split; [reflexivity|]. apply (Hscan 3 rs m' Hrun).
Defined.

Lemma temp_strings_stay_witness :
  exists rs m' l,
    @scan_times Ref.env 3 (ref_machine "mov eax, 1") = Some (rs, m')
    /\ length l <= 3 /\ stdscan_tempstorage m' = [] ++ l.
Proof.
  destruct (@scan_times Ref.env 3 (ref_machine "mov eax, 1"))
    as [[rs m']|] eqn:Hrun; [|vm_compute in Hrun; discriminate].
  destruct (@temp_strings_stay Ref.env 3 _ rs m' Hrun) as ((l & Hl & Hts) & _).
  exists rs, m', l. auto.
Defined.


Lemma returns_token_type_witness :
  exists i tv m',
    @stdscan Ref.env zero_tokenval (ref_machine "eax") = Some ((i, tv), m')
    /\ t_type tv = i.
Proof.
  destruct (@stdscan Ref.env zero_tokenval (ref_machine "eax"))
    as [[[i tv] m']|] eqn:Hrun; [|vm_compute in Hrun; discriminate].
  exists i, tv, m'. split; [reflexivity|].
  exact (@returns_token_type Ref.env ref_hash_typed zero_tokenval _ _ _ _ Hrun).
Defined.

Lemma end_of_line_stays_witness :
  exists tok m',
    @scan_times Ref.env 3 (ref_machine "  ; eax")
    = Some (repeat (0%Z, tok) 3, m')
    /\ bufptr (scan m') = 2.
Proof.
  destruct (@end_of_line_stays Ref.env zero_tokenval (ref_machine "  ; eax")
              2 ";" (list_ascii_of_string " eax" ++ [NUL])
              ltac:(repeat split; reflexivity)
              (or_intror (conj eq_refl (conj eq_refl eq_refl))))
    as (_ & Hall).
  do 2 eexists. split; [exact (Hall 2) | reflexivity].
Defined.

Lemma spaces_are_skipped_witness :
  @stdscan Ref.env zero_tokenval (ref_machine "   eax")
  = @stdscan Ref.env zero_tokenval (with_bufptr 3 (ref_machine "   eax")).
Proof.
  apply (@spaces_are_skipped Ref.env zero_tokenval (ref_machine "   eax")
           3 "e" (list_ascii_of_string "ax" ++ [NUL])
           ltac:(repeat split; reflexivity)).
Defined.

Lemma token_span_witness :
  exists i tv m',
    @stdscan Ref.env zero_tokenval (ref_machine "  mov eax")
    = Some ((i, tv), m')
    /\ t_start tv = LinePtr 2 /\ t_len tv = 3%Z /\ bufptr (scan m') = 5.
Proof.
  destruct (@token_span Ref.env ref_hash_start zero_tokenval
              (ref_machine "  mov eax") ref_laws
              (ref_ready "  mov eax" ltac:(line_terminated)
                         ltac:(vm_compute; reflexivity)))
    as (q & i & tv & m' & Hskip & Hres & Hstart & Hle & Hlen).
  vm_compute in Hskip. injection Hskip as <-.
  exists i, tv, m'. split; [exact Hres|]. split; [exact Hstart|].
  assert (Hb : bufptr (scan m') = 5).
  { clear Hstart Hle Hlen. vm_compute in Hres.
    injection Hres as _ _ <-. reflexivity. }
  rewrite Hlen, Hb. split; reflexivity.
Defined.

Lemma here_and_base_witness :
  @stdscan Ref.env zero_tokenval (ref_machine "$$")
  = Some (plain_token 0 (@TOKEN_BASE Ref.env) 2,
          with_bufptr 2 (ref_machine "$$")).
Proof.
  apply (@here_and_base Ref.env zero_tokenval (ref_machine "$$") 0 "$" [NUL]
           (ref_lexeme_at_start "$$" eq_refl eq_refl)
           ltac:(vm_compute; reflexivity) eq_refl eq_refl eq_refl).
Defined.

Lemma operators_longest_first_witness :
  @stdscan Ref.env zero_tokenval (ref_machine ">>>1")
  = Some (plain_token 0 (@TOKEN_SAR Ref.env) 3,
          with_bufptr 3 (ref_machine ">>>1")).
Proof.
  destruct (@operators_longest_first Ref.env zero_tokenval
              (ref_machine ">>>1") 0 ">" ">" ">"
              (list_ascii_of_string "1" ++ [NUL])
              (ref_lexeme_at_start ">>>1" eq_refl eq_refl)
              ltac:(vm_compute; reflexivity) eq_refl eq_refl)
    as (Hsar & _).
  exact (Hsar eq_refl eq_refl).
Defined.

Lemma single_character_witness :
  @stdscan Ref.env zero_tokenval (ref_machine "+1")
  = Some (plain_token 0 43 1, with_bufptr 1 (ref_machine "+1")).
Proof.
  apply (@single_character Ref.env zero_tokenval (ref_machine "+1") 0
           "+" "1" [NUL]
           (ref_lexeme_at_start "+1" eq_refl eq_refl)
           ltac:(vm_compute; reflexivity) eq_refl eq_refl eq_refl
           ltac:(discriminate) ltac:(discriminate) ltac:(discriminate)
           ltac:(discriminate)
           ltac:(simpl; intuition discriminate)).
Defined.


Lemma number_is_maximal_witness :
  exists len d tl i tv m',
    @stdscan Ref.env zero_tokenval (ref_machine "12+3") = Some ((i, tv), m')
    /\ bufptr (scan m') = 0 + len
    /\ cursor m' = d :: tl
    /\ @nasm_isnumchar Ref.env d = false.
Proof.
  destruct (@number_is_maximal Ref.env zero_tokenval (ref_machine "12+3") 0
              "1" (list_ascii_of_string "2+3" ++ [NUL])
              (ref_lexeme_at_start "12+3" eq_refl eq_refl)
              ltac:(line_terminated) ltac:(discriminate)
              ltac:(repeat split; discriminate)
              eq_refl ltac:(vm_compute; reflexivity))
    as (len & d & tl & i & tv & m' & Hres & Hb & Hcur & _ & Hn & _).
  exists len, d, tl, i, tv, m'. auto.
Defined.

Lemma number_is_float_or_integer_witness :
  exists len i tv m',
    @stdscan Ref.env zero_tokenval (ref_machine "0x1f") = Some ((i, tv), m')
    /\ bufptr (scan m') = 0 + len
    /\ t_len tv = Z.of_nat len.
Proof.
  destruct (@number_is_float_or_integer Ref.env zero_tokenval
              (ref_machine "0x1f") 0
              "0" (list_ascii_of_string "x1f" ++ [NUL])
              (ref_lexeme_at_start "0x1f" eq_refl eq_refl)
              ltac:(line_terminated) ltac:(discriminate)
              ltac:(repeat split; discriminate)
              eq_refl ltac:(vm_compute; reflexivity))
    as (len & i & tv & m' & Hres & Hb & Hlen & _).
  exists len, i, tv, m'. auto.
Defined.

Lemma keyword_lookup_witness :
  exists j, run_of (@nasm_isidchar Ref.env)
                   (list_ascii_of_string "tr [ebx]" ++ [NUL]) j.
Proof.
  destruct (@keyword_lookup Ref.env zero_tokenval (ref_machine "ptr [ebx]") 0
              "p" (list_ascii_of_string "tr [ebx]" ++ [NUL]) ref_laws
              (ref_lexeme_at_start "ptr [ebx]" eq_refl eq_refl)
              ltac:(line_terminated) eq_refl ltac:(vm_compute; reflexivity))
    as (j & Hrun & _).
  exists j. exact Hrun.
Defined.
